(** * agent-interview-cli: the interview session library, its loader and
    its question validator, embedded in Rocq.

    The development follows the TypeScript sources:
    - [JS]       the fragment of JavaScript data the code works on: primitive
                 values, and a store of objects and arrays addressed by
                 reference (the validator mutates its argument in place);
    - [Str]      the string methods the code calls;
    - [path]     Node's [path.posix] functions used by the loader (the paths
                 are those of a POSIX platform);
    - [schema]   src/schema.ts ([validateQuestions] and its helpers);
    - [JSON]     [JSON.parse] and [JSON.stringify] on the store;
    - [loader]   src/loader.ts ([loadSavedInterview], [resolveImagePath], ...);
    - [lib]      src/lib.ts ([interview], [finish], the callbacks);
    - [server]   the session server that the library imports from server.ts,
                 a file that is not among the sources: its state machine,
                 its request handler and its snapshot encoder are modelled
                 from the specification;
    - [examples] the data the examples run on;
    - [browser]  the launcher of the browser ([openUrl]);
    - [config]   src/config.ts (the places of the program's files, and
                 [resolveConfig]);
    - [cli]      the command line: [main] up to its call of [interview],
                 and what it does with the outcome;
    - [trace]    what a run of [interview] shows to the outside;
    - [document] what a questions document holds;
    - [samples]  more data for the examples.
    Definitions come first, the facts about them afterwards. *)

From Stdlib Require Import ZArith Ascii String List Bool Lia DecimalString.
From stdpp Require Import base option list strings gmap.

Open Scope string_scope.
Open Scope list_scope.

(* ===================================================================== *)
(** ** JavaScript values and the object store *)
(* ===================================================================== *)

Module JS.

Abbreviation loc := nat.

(** A number is kept as the decimal [m * 10^e] it was written as; the code
    embedded here never computes with numbers, it only asks for their type
    and whether they are zero. *)
Inductive value :=
| VUndefined
| VNull
| VBool (b : bool)
| VNumber (m e : Z)
| VString (s : string)
| VRef (l : loc).

Inductive cell :=
| CObj (props : gmap string value)
| CArr (elems : list value).

(** The store: references are indices, allocation appends. *)
Abbreviation heap := (list cell).

Inductive error :=
| Error (msg : string)
| TypeError (msg : string)
| SyntaxError (msg : string).

Inductive result (A : Type) :=
| Ok (a : A)
| Throw (e : error).
Arguments Ok {A} a.
Arguments Throw {A} e.

Definition bind {A B} (m : result A) (k : A -> result B) : result B :=
  match m with
  | Ok a => k a
  | Throw e => Throw e
  end.

Definition throw {A} (msg : string) : result A := Throw (Error msg).

(** [if (c) throw new Error(msg)] *)
Definition throw_if (c : bool) (msg : string) : result unit :=
  if c then throw msg else Ok tt.

(** Computations that allocate or assign: the store is threaded, and it
    keeps the writes made before an exception. *)
Definition M (A : Type) := heap -> heap * result A.

Definition ret {A} (a : A) : M A := fun h => (h, Ok a).
Definition fail {A} (e : error) : M A := fun h => (h, Throw e).
Definition lift {A} (r : result A) : M A := fun h => (h, r).
Definition bindM {A B} (m : M A) (k : A -> M B) : M B :=
  fun h => match m h with
           | (h', Ok a) => k a h'
           | (h', Throw e) => (h', Throw e)
           end.

Definition alloc (c : cell) : M value :=
  fun h => (h ++ [c], Ok (VRef (length h))).

Inductive jstype := TUndefined | TObject | TBoolean | TNumber | TString.

#[global] Instance jstype_eq_dec : EqDecision jstype.
Proof. solve_decision. Defined.

#[global] Instance value_eq_dec : EqDecision value.
Proof. solve_decision. Defined.

(** [typeof v] *)
Definition typeof (v : value) : jstype :=
  match v with
  | VUndefined => TUndefined
  | VNull => TObject
  | VBool _ => TBoolean
  | VNumber _ _ => TNumber
  | VString _ => TString
  | VRef _ => TObject
  end.

Definition is_string (v : value) : bool := bool_decide (typeof v = TString).
Definition is_object (v : value) : bool := bool_decide (typeof v = TObject).
Definition is_undefined (v : value) : bool := bool_decide (v = VUndefined).

(** ToBoolean *)
Definition truthy (v : value) : bool :=
  match v with
  | VUndefined | VNull => false
  | VBool b => b
  | VNumber m _ => negb (m =? 0)%Z
  | VString s => negb (String.eqb s "")
  | VRef _ => true
  end.

(** [Array.isArray(v)] and the elements of an array *)
Definition as_array (h : heap) (v : value) : option (list value) :=
  match v with
  | VRef l => match h !! l with
              | Some (CArr xs) => Some xs
              | _ => None
              end
  | _ => None
  end.

Definition isArray (h : heap) (v : value) : bool :=
  bool_decide (is_Some (as_array h v)).

(** [v.k] for a named property [k] of an object that is neither [null] nor
    [undefined].  Arrays answer [length]; the data has no other named
    property on arrays, and none on primitives. *)
Definition get (h : heap) (v : value) (k : string) : value :=
  match v with
  | VRef l =>
      match h !! l with
      | Some (CObj m) => default VUndefined (m !! k)
      | Some (CArr xs) =>
          if String.eqb k "length" then VNumber (Z.of_nat (length xs)) 0
          else VUndefined
      | None => VUndefined
      end
  | _ => VUndefined
  end.

(** [k in v] *)
Definition has (h : heap) (k : string) (v : value) : bool :=
  match v with
  | VRef l =>
      match h !! l with
      | Some (CObj m) => bool_decide (is_Some (m !! k))
      | Some (CArr _) => String.eqb k "length"
      | None => false
      end
  | _ => false
  end.

(** [v.k = x] on an object *)
Definition set (v : value) (k : string) (x : value) : M unit :=
  fun h =>
    match v with
    | VRef l =>
        match h !! l with
        | Some (CObj m) => (<[l := CObj (<[k := x]> m)]> h, Ok tt)
        | _ => (h, Ok tt)
        end
    | _ => (h, Ok tt)
    end.

(** SameValueZero, the comparison of [Array.prototype.includes] *)
Definition same_value_zero (a b : value) : bool :=
  match a, b with
  | VNumber m1 e1, VNumber m2 e2 =>
      ((m1 =? 0)%Z && (m2 =? 0)%Z) || bool_decide (a = b)
  | _, _ => bool_decide (a = b)
  end.

Definition includes (xs : list value) (x : value) : bool :=
  existsb (fun y => same_value_zero y x) xs.

(** [["a", "b"].includes(v)] for a list of string literals *)
Definition includes_lit (lits : list string) (v : value) : bool :=
  includes (VString <$> lits) v.

Definition nat_to_string (n : nat) : string :=
  NilZero.string_of_uint (Nat.to_uint n).

Definition Z_to_string (z : Z) : string :=
  match z with
  | Z0 => "0"
  | Zpos p => nat_to_string (Pos.to_nat p)
  | Zneg p => "-" +:+ nat_to_string (Pos.to_nat p)
  end.

(** ToString, as a template literal applies it.  Integers print as their
    digits; other numbers print mantissa and exponent.  An array prints
    its elements joined by commas; [fuel] bounds the nesting. *)
Fixpoint to_string (fuel : nat) (h : heap) (v : value) : string :=
  match v with
  | VUndefined => "undefined"
  | VNull => "null"
  | VBool true => "true"
  | VBool false => "false"
  | VNumber m e =>
      if (e =? 0)%Z then Z_to_string m
      else Z_to_string m +:+ "e" +:+ Z_to_string e
  | VString s => s
  | VRef l =>
      match h !! l with
      | Some (CArr xs) =>
          match fuel with
          | O => ""
          | S fuel' =>
              String.concat ","
                (map (fun x => match x with
                               | VUndefined | VNull => ""
                               | _ => to_string fuel' h x
                               end) xs)
          end
      | _ => "[object Object]"
      end
  end.

Definition template (h : heap) (v : value) : string :=
  to_string (length h) h v.

End JS.

Import JS.

Declare Scope js_scope.
Delimit Scope js_scope with js.
Notation "'do' x <- m ; k" := (JS.bind m (fun x => k))
  (at level 10, x name, m at level 100, k at level 200) : js_scope.
Notation "'check' c 'orelse' msg ; k" :=
  (JS.bind (JS.throw_if c msg) (fun _ => k))
  (at level 10, c at level 100, msg at level 100, k at level 200) : js_scope.
Notation "'run' x <- m ; k" := (JS.bindM m (fun x => k))
  (at level 10, x name, m at level 100, k at level 200) : js_scope.
Open Scope js_scope.

(* ===================================================================== *)
(** ** Strings and Node's [path.posix] *)
(* ===================================================================== *)

Module Str.

(** [s.startsWith(pre)] *)
Definition startsWith (s pre : string) : bool := String.prefix pre s.

(** [s.slice(n)] *)
Fixpoint slice (n : nat) (s : string) : string :=
  match n, s with
  | O, _ => s
  | S n', String _ s' => slice n' s'
  | S _, EmptyString => EmptyString
  end.

(** [s.endsWith(suf)] *)
Definition endsWith (s suf : string) : bool :=
(String.length suf <=? String.length s)%nat
  && String.eqb (slice (String.length s - String.length suf) s) suf.

(** [s.includes(needle)] *)
Fixpoint includes (s needle : string) : bool :=
  String.prefix needle s
  || match s with
     | EmptyString => false
     | String _ s' => includes s' needle
     end.

(** [s.split("/")] *)
Fixpoint split_slash (s : string) : list string :=
  match s with
  | EmptyString => [EmptyString]
  | String c s' =>
      if Ascii.eqb c "/" then EmptyString :: split_slash s'
      else match split_slash s' with
           | seg :: segs => String c seg :: segs
           | [] => [String c EmptyString]
           end
  end.

End Str.

Module path.

(** [path.isAbsolute(p)]: the first character is a slash. *)
Definition isAbsolute (p : string) : bool :=
  match p with
  | String c _ => Ascii.eqb c "/"
  | EmptyString => false
  end.

Definition trailingSeparator (p : string) : bool := Str.endsWith p "/".

(** One segment of [normalizeString]: empty segments and [.] are dropped,
    [..] removes the segment before it unless that is itself [..] (or there
    is none), in which case it is kept only above a relative root.  [acc]
    holds the segments kept so far, last one first. *)
Definition normalize_step (allowAboveRoot : bool) (acc : list string)
    (seg : string) : list string :=
  if String.eqb seg "" || String.eqb seg "." then acc
  else if String.eqb seg ".." then
    match acc with
    | last :: acc' =>
        if String.eqb last ".." then
          (if allowAboveRoot then seg :: acc else acc)
        else acc'
    | [] => if allowAboveRoot then [seg] else []
    end
  else seg :: acc.

Definition normalizeString (p : string) (allowAboveRoot : bool) : string :=
  String.concat "/"
    (rev (fold_left (normalize_step allowAboveRoot) (Str.split_slash p) [])).

(** [path.normalize(p)] *)
Definition normalize (p : string) : string :=
  if String.eqb p "" then "."
  else
    let isAbs := isAbsolute p in
    let trailing := trailingSeparator p in
    let p' := normalizeString p (negb isAbs) in
    if String.eqb p' "" then
      (if isAbs then "/" else if trailing then "./" else ".")
    else
      let p'' := if trailing then p' +:+ "/" else p' in
      if isAbs then "/" +:+ p'' else p''.

(** [path.join(...args)] *)
Definition join (args : list string) : string :=
  match filter (fun a => a <> "") args with
  | [] => "."
  | parts => normalize (String.concat "/" parts)
  end.

(** The index at which [path.dirname] cuts: scanning from the end down to
    index 1, the first slash met after a character that is not a slash. *)
Fixpoint dirname_end (i : nat) (matchedSlash : bool) (p : string)
  : option nat :=
  match i with
  | O => None
  | S i' =>
      match String.get i p with
      | Some c =>
          if Ascii.eqb c "/" then
            (if matchedSlash then dirname_end i' matchedSlash p else Some i)
          else dirname_end i' false p
      | None => dirname_end i' matchedSlash p
      end
  end.

(** [path.dirname(p)] *)
Definition dirname (p : string) : string :=
  if String.eqb p "" then "."
  else
    let hasRoot := isAbsolute p in
    match dirname_end (String.length p - 1) true p with
    | None => if hasRoot then "/" else "."
    | Some e => if hasRoot && (e =? 1)%nat then "//" else String.substring 0 e p
    end.

End path.

(* ===================================================================== *)
(** ** src/schema.ts *)
(* ===================================================================== *)

Module schema.

(** The double quote, and a string between double quotes. *)
Definition dq : string := String (ascii_of_nat 34) EmptyString.
Definition quoted (s : string) : string := dq +:+ s +:+ dq.

(** [getOptionLabel(option)] *)
Definition getOptionLabel (h : heap) (option : value) : value :=
  if is_string option then option else get h option "label".

(** [validateMediaBlock(block, context)] *)
Definition validateMediaBlock (h : heap) (block : value) (context : string)
  : result value :=
  check negb (truthy block) || negb (is_object block)
    orelse context +:+ ": media must be an object";
  let b := block in
  let validMediaTypes := ["image"; "chart"; "mermaid"; "table"; "html"] in
  let type := get h b "type" in
  check negb (is_string type) || negb (includes_lit validMediaTypes type)
    orelse context +:+ ": media.type must be one of: "
           +:+ String.concat ", " validMediaTypes;
  check bool_decide (type = VString "image") && negb (is_string (get h b "src"))
    orelse context +:+ ": media.src required for image type";
  do _ <- (if bool_decide (type = VString "chart") then
             check negb (truthy (get h b "chart"))
                   || negb (is_object (get h b "chart"))
               orelse context +:+ ": media.chart required for chart type";
             let chart := get h b "chart" in
             check negb (is_string (get h chart "type"))
               orelse context +:+ ": media.chart.type must be a string";
             check negb (truthy (get h chart "data"))
                   || negb (is_object (get h chart "data"))
               orelse context +:+ ": media.chart.data must be an object";
             Ok tt
           else Ok tt);
  check bool_decide (type = VString "mermaid")
        && negb (is_string (get h b "mermaid"))
    orelse context +:+ ": media.mermaid required for mermaid type";
  do _ <- (if bool_decide (type = VString "table") then
             check negb (truthy (get h b "table"))
                   || negb (is_object (get h b "table"))
               orelse context +:+ ": media.table required for table type";
             let table := get h b "table" in
             check negb (isArray h (get h table "headers"))
               orelse context +:+ ": media.table.headers must be an array";
             check negb (isArray h (get h table "rows"))
               orelse context +:+ ": media.table.rows must be an array";
             Ok tt
           else Ok tt);
  check bool_decide (type = VString "html") && negb (is_string (get h b "html"))
    orelse context +:+ ": media.html required for html type";
  do _ <- (if negb (is_undefined (get h b "position")) then
             let validPositions := ["above"; "below"; "side"] in
             check negb (includes_lit validPositions (get h b "position"))
               orelse context +:+ ": media.position must be one of: "
                      +:+ String.concat ", " validPositions;
             Ok tt
           else Ok tt);
  Ok b.

Definition SCHEMA_EXAMPLE : string :=
  String.concat (String (ascii_of_nat 10) EmptyString)
    [ "Expected format:";
      "{";
      "  " +:+ quoted "title" +:+ ": " +:+ quoted "Optional Title" +:+ ",";
      "  " +:+ quoted "questions" +:+ ": [";
      "    { " +:+ quoted "id" +:+ ": " +:+ quoted "q1" +:+ ", "
        +:+ quoted "type" +:+ ": " +:+ quoted "single" +:+ ", "
        +:+ quoted "question" +:+ ": " +:+ quoted "Pick one?" +:+ ", "
        +:+ quoted "options" +:+ ": [" +:+ quoted "A" +:+ ", "
        +:+ quoted "B" +:+ "] },";
      "    { " +:+ quoted "id" +:+ ": " +:+ quoted "q2" +:+ ", "
        +:+ quoted "type" +:+ ": " +:+ quoted "multi" +:+ ", "
        +:+ quoted "question" +:+ ": " +:+ quoted "Pick many?" +:+ ", "
        +:+ quoted "options" +:+ ": [" +:+ quoted "X" +:+ ", "
        +:+ quoted "Y" +:+ ", " +:+ quoted "Z" +:+ "] },";
      "    { " +:+ quoted "id" +:+ ": " +:+ quoted "q3" +:+ ", "
        +:+ quoted "type" +:+ ": " +:+ quoted "text" +:+ ", "
        +:+ quoted "question" +:+ ": " +:+ quoted "Describe?" +:+ " },";
      "    { " +:+ quoted "id" +:+ ": " +:+ quoted "q4" +:+ ", "
        +:+ quoted "type" +:+ ": " +:+ quoted "image" +:+ ", "
        +:+ quoted "question" +:+ ": " +:+ quoted "Upload?" +:+ " }";
      "  ]";
      "}";
      "Valid types: single, multi, text, image, info";
      "Options: array of strings or objects with { label, code? }" ].

(** [validateCodeBlock(block, context)] *)
Definition validateCodeBlock (h : heap) (block : value) (context : string)
  : result value :=
  check negb (truthy block) || negb (is_object block)
    orelse context +:+ ": codeBlock must be an object";
  let b := block in
  check negb (is_string (get h b "code"))
    orelse context +:+ ": codeBlock.code must be a string";
  check negb (is_undefined (get h b "lang")) && negb (is_string (get h b "lang"))
    orelse context +:+ ": codeBlock.lang must be a string";
  check negb (is_undefined (get h b "file")) && negb (is_string (get h b "file"))
    orelse context +:+ ": codeBlock.file must be a string";
  check negb (is_undefined (get h b "lines"))
        && negb (is_string (get h b "lines"))
    orelse context +:+ ": codeBlock.lines must be a string";
  check negb (is_undefined (get h b "title"))
        && negb (is_string (get h b "title"))
    orelse context +:+ ": codeBlock.title must be a string";
  do _ <- (if negb (is_undefined (get h b "highlights")) then
             check match as_array h (get h b "highlights") with
                   | None => true
                   | Some hs =>
                       existsb (fun x => negb (bool_decide (typeof x = TNumber)))
                         hs
                   end
               orelse context
                      +:+ ": codeBlock.highlights must be an array of numbers";
             Ok tt
           else Ok tt);
  Ok b.

(** [validateOption(option, questionId, index)] *)
Definition validateOption (h : heap) (option : value) (questionId : string)
    (index : nat) : result value :=
  if is_string option then Ok option
  else if truthy option && is_object option then
    let o := option in
    check negb (is_string (get h o "label"))
      orelse "Question " +:+ quoted questionId +:+ ": option at index "
             +:+ nat_to_string index +:+ " must have a " +:+ quoted "label"
             +:+ " string";
    do _ <- (if negb (is_undefined (get h o "code")) then
               validateCodeBlock h (get h o "code")
                 ("Question " +:+ quoted questionId +:+ " option "
                  +:+ quoted (template h (get h o "label")))
             else Ok o);
    Ok option
  else
    throw ("Question " +:+ quoted questionId +:+ ": option at index "
           +:+ nat_to_string index
           +:+ " must be a string or object with label").

(** [for (let j = start; j < xs.length; j++) body(xs[j], j)] *)
Fixpoint for_indexed {A} (body : value -> nat -> result A) (start : nat)
    (xs : list value) : result unit :=
  match xs with
  | [] => Ok tt
  | x :: xs' => do _ <- body x start; for_indexed body (S start) xs'
  end.

Definition validTypes : list string :=
  ["single"; "multi"; "text"; "image"; "info"].

(** The body of the loop over [obj.questions] in [validateBasicStructure]. *)
Definition validateQuestionStructure (h : heap) (q : value) (i : nat)
  : result unit :=
  check negb (truthy q) || negb (is_object q)
    orelse "Invalid question at index " +:+ nat_to_string i
           +:+ ": must be an object";
  check negb (is_string (get h q "id"))
    orelse "Invalid question at index " +:+ nat_to_string i
           +:+ ": id must be a string";
  let id := template h (get h q "id") in
  check negb (is_string (get h q "type"))
        || negb (includes_lit validTypes (get h q "type"))
    orelse
      (let hint := if bool_decide (get h q "type" = VString "select")
                   then " (use " +:+ quoted "single" +:+ " instead of "
                        +:+ quoted "select" +:+ ")"
                   else EmptyString in
       "Question " +:+ quoted id +:+ ": type must be one of: "
       +:+ String.concat ", " validTypes +:+ hint);
  check negb (is_string (get h q "question"))
    orelse
      (let hint := if has h "label" q || has h "description" q
                   then " (use " +:+ quoted "question" +:+ " field, not "
                        +:+ quoted "label" +:+ " or " +:+ quoted "description"
                        +:+ ")"
                   else EmptyString in
       "Question " +:+ quoted id +:+ ": " +:+ quoted "question"
       +:+ " field must be a string" +:+ hint);
  do _ <- (if negb (is_undefined (get h q "options")) then
             match as_array h (get h q "options") with
             | Some (o :: os) =>
                 for_indexed (fun opt j => validateOption h opt id j) 0 (o :: os)
             | _ => throw ("Question " +:+ quoted id
                           +:+ ": options must be a non-empty array")
             end
           else Ok tt);
  check negb (is_undefined (get h q "context"))
        && negb (is_string (get h q "context"))
    orelse "Question " +:+ quoted id +:+ ": context must be a string";
  do _ <- (if negb (is_undefined (get h q "codeBlock")) then
             validateCodeBlock h (get h q "codeBlock")
               ("Question " +:+ quoted id)
           else Ok q);
  do _ <- (if negb (is_undefined (get h q "conviction")) then
             let validConvictions := ["strong"; "slight"] in
             check negb (is_string (get h q "conviction"))
                   || negb (includes_lit validConvictions (get h q "conviction"))
               orelse "Question " +:+ quoted id +:+ ": conviction must be "
                      +:+ quoted "strong" +:+ " or " +:+ quoted "slight";
             Ok tt
           else Ok tt);
  do _ <- (if negb (is_undefined (get h q "weight")) then
             let validWeights := ["critical"; "minor"] in
             check negb (is_string (get h q "weight"))
                   || negb (includes_lit validWeights (get h q "weight"))
               orelse "Question " +:+ quoted id +:+ ": weight must be "
                      +:+ quoted "critical" +:+ " or " +:+ quoted "minor";
             Ok tt
           else Ok tt);
  if negb (is_undefined (get h q "media")) then
    let mediaItems := match as_array h (get h q "media") with
                      | Some items => items
                      | None => [get h q "media"]
                      end in
    for_indexed (fun item m =>
                   validateMediaBlock h item
                     ("Question " +:+ quoted id +:+ " media["
                      +:+ nat_to_string m +:+ "]"))
      0 mediaItems
  else Ok tt.

(** [validateBasicStructure(data)] *)
Definition validateBasicStructure (h : heap) (data : value) : result value :=
  let nl2 := String (ascii_of_nat 10) (String (ascii_of_nat 10) EmptyString) in
  check isArray h data
    orelse "Invalid questions file: root must be an object, not an array."
           +:+ nl2 +:+ SCHEMA_EXAMPLE;
  check negb (truthy data) || negb (is_object data)
    orelse "Invalid questions file: must be an object." +:+ nl2
           +:+ SCHEMA_EXAMPLE;
  let obj := data in
  check (has h "label" obj || has h "description" obj)
        && negb (has h "questions" obj)
    orelse "Invalid questions file: missing " +:+ quoted "questions"
           +:+ " array. Did you mean to wrap your questions?" +:+ nl2
           +:+ SCHEMA_EXAMPLE;
  check negb (is_undefined (get h obj "title"))
        && negb (is_string (get h obj "title"))
    orelse "Invalid questions file: title must be a string";
  check negb (is_undefined (get h obj "description"))
        && negb (is_string (get h obj "description"))
    orelse "Invalid questions file: description must be a string";
  match as_array h (get h obj "questions") with
  | Some (q :: qs) =>
      do _ <- for_indexed (validateQuestionStructure h) 0 (q :: qs);
      Ok obj
  | _ =>
      throw ("Invalid questions file: " +:+ quoted "questions"
             +:+ " must be a non-empty array." +:+ nl2 +:+ SCHEMA_EXAMPLE)
  end.

(** The first loop of [validateQuestions]: [ids] is the [Set] of the ids
    seen so far. *)
Fixpoint checkDuplicateIds (h : heap) (ids : list value) (qs : list value)
  : result unit :=
  match qs with
  | [] => Ok tt
  | q :: qs' =>
      check includes ids (get h q "id")
        orelse "Duplicate question id: " +:+ quoted (template h (get h q "id"));
      checkDuplicateIds h (ids ++ [get h q "id"]) qs'
  end.

(** [for (const rec of recs) if (!optionLabels.includes(rec)) throw ...] *)
Fixpoint checkRecommendedIn (h : heap) (id : string) (optionLabels : list value)
    (recs : list value) : result unit :=
  match recs with
  | [] => Ok tt
  | rec :: recs' =>
      check negb (includes optionLabels rec)
        orelse "Question " +:+ quoted id +:+ ": recommended "
               +:+ quoted (template h rec) +:+ " not in options";
      checkRecommendedIn h id optionLabels recs'
  end.

(** The body of the second loop of [validateQuestions].  It reads the
    question [q] in the store it is entered with; its one assignment,
    [q.recommended = recs], comes last.  [q.options] is an array or
    undefined here, since [validateBasicStructure] has passed. *)
Definition validateQuestionSemantics (q : value) : M unit := fun h =>
  let type := get h q "type" in
  let id := template h (get h q "id") in
  let options := get h q "options" in
  let recommended := get h q "recommended" in
  let type_is (t : string) := bool_decide (type = VString t) in
  let no_choice := type_is "text" || type_is "image" || type_is "info" in
  (run _ <- lift (
      do _ <- (if type_is "single" || type_is "multi" then
                 check negb (truthy options)
                       || bool_decide (get h options "length" = VNumber 0 0)
                   orelse "Question " +:+ quoted id
                          +:+ ": options required for type "
                          +:+ quoted (template h type);
                 Ok tt
               else if no_choice then
                 check truthy options
                   orelse "Question " +:+ quoted id
                          +:+ ": options not allowed for type "
                          +:+ quoted (template h type);
                 Ok tt
               else Ok tt);
      check negb (is_undefined (get h q "conviction"))
            && is_undefined recommended
        orelse "Question " +:+ quoted id +:+ ": conviction requires recommended";
      Ok tt);
   if is_undefined recommended then ret tt
   else
     run _ <- lift (
         check no_choice
           orelse "Question " +:+ quoted id
                  +:+ ": recommended not allowed for type "
                  +:+ quoted (template h type);
         Ok tt);
     let optionLabels :=
       match as_array h options with
       | Some os => map (getOptionLabel h) os
       | None => []
       end in
     run _ <- lift (
         if type_is "single" then
           check negb (is_string recommended)
             orelse "Question " +:+ quoted id
                    +:+ ": recommended must be string for single-select";
           check negb (includes optionLabels recommended)
             orelse "Question " +:+ quoted id +:+ ": recommended "
                    +:+ quoted (template h recommended) +:+ " not in options";
           Ok tt
         else Ok tt);
     if type_is "multi" then
       run recs <- (if isArray h recommended then ret recommended
                    else alloc (CArr [recommended]));
       run _ <- lift (
           checkRecommendedIn h id optionLabels
             (match as_array h recommended with
              | Some rs => rs
              | None => [recommended]
              end));
       if negb (isArray h recommended) then set q "recommended" recs
       else ret tt
     else ret tt) h.

(** [for (const x of xs) body(x)] *)
Fixpoint for_of (body : value -> M unit) (xs : list value) : M unit :=
  match xs with
  | [] => ret tt
  | x :: xs' => run _ <- body x; for_of body xs'
  end.

(** [validateQuestions(data)] *)
Definition validateQuestions (data : value) : M value := fun h =>
  match validateBasicStructure h data with
  | Throw e => (h, Throw e)
  | Ok parsed =>
      let questions := default [] (as_array h (get h parsed "questions")) in
      match checkDuplicateIds h [] questions with
      | Throw e => (h, Throw e)
      | Ok _ =>
          (run _ <- for_of validateQuestionSemantics questions;
           ret parsed) h
      end
  end.

End schema.

(* ===================================================================== *)
(** ** [JSON.parse] and [JSON.stringify] *)
(* ===================================================================== *)

Module JSON.

Definition is_ws (c : ascii) : bool :=
  let n := nat_of_ascii c in
  (n =? 32)%nat || (n =? 9)%nat || (n =? 10)%nat || (n =? 13)%nat.

Fixpoint skip_ws (s : string) : string :=
  match s with
  | String c s' => if is_ws c then skip_ws s' else s
  | EmptyString => s
  end.

Definition digit (c : ascii) : option Z :=
  let n := nat_of_ascii c in
  if (48 <=? n)%nat && (n <=? 57)%nat then Some (Z.of_nat (n - 48)) else None.

Definition hex (c : ascii) : option nat :=
  let n := nat_of_ascii c in
  if (48 <=? n)%nat && (n <=? 57)%nat then Some (n - 48)%nat
  else if (97 <=? n)%nat && (n <=? 102)%nat then Some (n - 87)%nat
  else if (65 <=? n)%nat && (n <=? 70)%nat then Some (n - 55)%nat
  else None.

(** The bytes (UTF-8) of one UTF-16 code unit. *)
Definition code_unit (n : nat) : string :=
  if (n <? 128)%nat then String (ascii_of_nat n) EmptyString
  else if (n <? 2048)%nat then
    String (ascii_of_nat (192 + n / 64))
      (String (ascii_of_nat (128 + n mod 64)) EmptyString)
  else
    String (ascii_of_nat (224 + n / 4096))
      (String (ascii_of_nat (128 + (n / 64) mod 64))
         (String (ascii_of_nat (128 + n mod 64)) EmptyString)).

(** The characters of a string literal after its opening quote, up to and
    including the closing one. *)
Fixpoint parse_string (s : string) : option (string * string) :=
  match s with
  | EmptyString => None
  | String c s' =>
      let n := nat_of_ascii c in
      if (n =? 34)%nat then Some (EmptyString, s')
      else if (n =? 92)%nat then
        match s' with
        | String e s'' =>
            let k := nat_of_ascii e in
            let simple (x : nat) :=
              match parse_string s'' with
              | Some (str, rest) => Some (String (ascii_of_nat x) str, rest)
              | None => None
              end in
            if (k =? 34)%nat then simple 34%nat
            else if (k =? 92)%nat then simple 92%nat
            else if (k =? 47)%nat then simple 47%nat
            else if (k =? 98)%nat then simple 8%nat
            else if (k =? 102)%nat then simple 12%nat
            else if (k =? 110)%nat then simple 10%nat
            else if (k =? 114)%nat then simple 13%nat
            else if (k =? 116)%nat then simple 9%nat
            else if (k =? 117)%nat then
              match s'' with
              | String a (String b (String c' (String d rest))) =>
                  match hex a, hex b, hex c', hex d with
                  | Some x3, Some x2, Some x1, Some x0 =>
                      match parse_string rest with
                      | Some (str, rest') =>
                          Some (code_unit (((x3 * 16 + x2) * 16 + x1) * 16 + x0)
                                +:+ str, rest')
                      | None => None
                      end
                  | _, _, _, _ => None
                  end
              | _ => None
              end
            else None
        | EmptyString => None
        end
      else if (n <? 32)%nat then None
      else
        match parse_string s' with
        | Some (str, rest) => Some (String c str, rest)
        | None => None
        end
  end.

(** A run of digits: its value appended to [acc], how many there were, and
    the rest. *)
Fixpoint parse_digits (acc : Z) (count : nat) (s : string) : Z * nat * string :=
  match s with
  | String c s' =>
      match digit c with
      | Some d => parse_digits (acc * 10 + d) (S count) s'
      | None => (acc, count, s)
      end
  | EmptyString => (acc, count, s)
  end.

(** number = [-] int [frac] [exp], with no leading zero in int *)
Definition parse_number (s : string) : option (value * string) :=
  let '(neg, s1) := match s with
                    | String "-" s' => (true, s')
                    | _ => (false, s)
                    end in
  let int_part :=
    match s1 with
    | String "0" s' => Some (0%Z, s')
    | _ => match parse_digits 0 0 s1 with
           | (_, O, _) => None
           | (m, _, rest) => Some (m, rest)
           end
    end in
  match int_part with
  | None => None
  | Some (m, s2) =>
      let frac :=
        match s2 with
        | String "." s' =>
            match parse_digits m 0 s' with
            | (_, O, _) => None
            | (m', k, rest) => Some (m', Z.of_nat k, rest)
            end
        | _ => Some (m, 0%Z, s2)
        end in
      match frac with
      | None => None
      | Some (m', k, s3) =>
          let with_exp (s' : string) :=
            let '(eneg, s4) := match s' with
                               | String "-" t => (true, t)
                               | String "+" t => (false, t)
                               | _ => (false, s')
                               end in
            match parse_digits 0 0 s4 with
            | (_, O, _) => None
            | (x, _, rest) =>
                Some (VNumber (if neg then - m' else m')
                        ((if eneg then - x else x) - k), rest)
            end in
          match s3 with
          | String "e" s' => with_exp s'
          | String "E" s' => with_exp s'
          | _ => Some (VNumber (if neg then - m' else m') (- k), s3)
          end
      end
  end.

Definition expect (lit : string) (v : value) (s : string)
  : option (value * string) :=
  if String.prefix lit s then Some (v, Str.slice (String.length lit) s)
  else None.

(** One JSON value, after leading white space.  Objects and arrays are
    allocated in the store as they are completed; a key given twice keeps
    its last value. *)
Fixpoint parse_value (fuel : nat) (s : string) (h : heap)
  : option (value * string * heap) :=
  match fuel with
  | O => None
  | S fuel' =>
      match skip_ws s with
      | String "n" _ =>
          '(v, rest) ← expect "null" VNull (skip_ws s); Some (v, rest, h)
      | String "t" _ =>
          '(v, rest) ← expect "true" (VBool true) (skip_ws s); Some (v, rest, h)
      | String "f" _ =>
          '(v, rest) ← expect "false" (VBool false) (skip_ws s);
          Some (v, rest, h)
      | String "[" s' =>
          match skip_ws s' with
          | String "]" rest => Some (VRef (length h), rest, h ++ [CArr []])
          | _ => parse_elems fuel' [] s' h
          end
      | String "{" s' =>
          match skip_ws s' with
          | String "}" rest => Some (VRef (length h), rest, h ++ [CObj ∅])
          | _ => parse_members fuel' ∅ s' h
          end
      | String c s' =>
          if (nat_of_ascii c =? 34)%nat then
            '(str, rest) ← parse_string s'; Some (VString str, rest, h)
          else
            '(v, rest) ← parse_number (skip_ws s); Some (v, rest, h)
      | EmptyString => None
      end
  end
with parse_elems (fuel : nat) (acc : list value) (s : string) (h : heap)
  : option (value * string * heap) :=
  match fuel with
  | O => None
  | S fuel' =>
      '(v, rest, h') ← parse_value fuel' s h;
      match skip_ws rest with
      | String "," rest' => parse_elems fuel' (acc ++ [v]) rest' h'
      | String "]" rest' =>
          Some (VRef (length h'), rest', h' ++ [CArr (acc ++ [v])])
      | _ => None
      end
  end
with parse_members (fuel : nat) (acc : gmap string value) (s : string)
    (h : heap) : option (value * string * heap) :=
  match fuel with
  | O => None
  | S fuel' =>
      match skip_ws s with
      | String c s' =>
          if (nat_of_ascii c =? 34)%nat then
            '(key, rest) ← parse_string s';
            match skip_ws rest with
            | String ":" rest' =>
                '(v, rest'', h') ← parse_value fuel' rest' h;
                match skip_ws rest'' with
                | String "," r => parse_members fuel' (<[key := v]> acc) r h'
                | String "}" r =>
                    Some (VRef (length h'), r,
                          h' ++ [CObj (<[key := v]> acc)])
                | _ => None
                end
            | _ => None
            end
          else None
      | EmptyString => None
      end
  end.

(** [JSON.parse(text)] *)
Definition parse (text : string) : M value := fun h =>
  match parse_value (2 * String.length text + 2) text h with
  | Some (v, rest, h') =>
      match skip_ws rest with
      | EmptyString => (h', Ok v)
      | _ => (h, Throw (SyntaxError "Unexpected non-whitespace character after JSON"))
      end
  | None => (h, Throw (SyntaxError "Unexpected token in JSON"))
  end.

Definition hex_digit (n : nat) : ascii :=
  ascii_of_nat (if (n <? 10)%nat then 48 + n else 87 + n).

(** One character of a string, as [JSON.stringify] writes it. *)
Definition escape_char (c : ascii) : string :=
  let n := nat_of_ascii c in
  let bs := String (ascii_of_nat 92) EmptyString in
  if (n =? 34)%nat then bs +:+ String c EmptyString
  else if (n =? 92)%nat then bs +:+ bs
  else if (n =? 8)%nat then bs +:+ "b"
  else if (n =? 12)%nat then bs +:+ "f"
  else if (n =? 10)%nat then bs +:+ "n"
  else if (n =? 13)%nat then bs +:+ "r"
  else if (n =? 9)%nat then bs +:+ "t"
  else if (n <? 32)%nat then
    bs +:+ "u00" +:+ String (hex_digit (n / 16))
                      (String (hex_digit (n mod 16)) EmptyString)
  else String c EmptyString.

Fixpoint escape (s : string) : string :=
  match s with
  | EmptyString => EmptyString
  | String c s' => escape_char c +:+ escape s'
  end.

Definition quote (s : string) : string :=
  String (ascii_of_nat 34) (escape s +:+ String (ascii_of_nat 34) EmptyString).

(** [JSON.stringify(v)]: [None] is [undefined], or a structure nested deeper
    than [fuel] (a cycle).  A property whose value is undefined is left
    out; in an array it is written as null. *)
Fixpoint stringify_value (fuel : nat) (h : heap) (v : value) : option string :=
  match v with
  | VUndefined => None
  | VNull => Some "null"
  | VBool true => Some "true"
  | VBool false => Some "false"
  | VNumber m e =>
      Some (if (e =? 0)%Z then Z_to_string m
            else Z_to_string m +:+ "e" +:+ Z_to_string e)
  | VString s => Some (quote s)
  | VRef l =>
      match fuel with
      | O => None
      | S fuel' =>
          match h !! l with
          | Some (CArr xs) =>
              Some ("[" +:+ String.concat ","
                              (map (fun x => default "null"
                                               (stringify_value fuel' h x)) xs)
                    +:+ "]")
          | Some (CObj m) =>
              Some ("{" +:+ String.concat ","
                              (omap (fun kv =>
                                       t ← stringify_value fuel' h (snd kv);
                                       Some (quote (fst kv) +:+ ":" +:+ t))
                                    (map_to_list m))
                    +:+ "}")
          | None => None
          end
      end
  end.

Definition stringify (h : heap) (v : value) : option string :=
  stringify_value (S (length h)) h v.

End JSON.

(** JSON text for examples, written with single quotes in place of double
    ones. *)
Fixpoint json_text (s : string) : string :=
  match s with
  | EmptyString => EmptyString
  | String c s' =>
      String (if Ascii.eqb c "'" then ascii_of_nat 34 else c) (json_text s')
  end.


(* ===================================================================== *)
(** ** src/loader.ts *)
(* ===================================================================== *)

Module loader.

(** *** The regular expression of [loadSavedInterview]

    [/<script[^>]+id=[QUOTE]pi-interview-data[QUOTE][^>]*>([\s\S]*?)<\/script>/i]
    where QUOTE is a single or a double quote.  The flag [i] folds the case
    of the ASCII letters. *)

Definition lower (c : ascii) : ascii :=
  let n := nat_of_ascii c in
  if (65 <=? n)%nat && (n <=? 90)%nat then ascii_of_nat (n + 32) else c.

(** [s] without the prefix [pat], compared without case. *)
Fixpoint strip_ci (pat s : string) : option string :=
  match pat, s with
  | EmptyString, _ => Some s
  | String p pat', String c s' =>
      if Ascii.eqb (lower p) (lower c) then strip_ci pat' s' else None
  | String _ _, EmptyString => None
  end.

(** The text before and after the first occurrence of [pat] in [s]. *)
Fixpoint find_ci (pat s : string) : option (string * string) :=
  match strip_ci pat s with
  | Some rest => Some (EmptyString, rest)
  | None =>
      match s with
      | String c s' =>
          '(before, after) ← find_ci pat s'; Some (String c before, after)
      | EmptyString => None
      end
  end.

(** The text before and after the first [>]. *)
Fixpoint split_gt (s : string) : option (string * string) :=
  match s with
  | EmptyString => None
  | String c s' =>
      if Ascii.eqb c ">" then Some (EmptyString, s')
      else '(before, after) ← split_gt s'; Some (String c before, after)
  end.

Definition is_quote (c : ascii) : bool :=
  (nat_of_ascii c =? 34)%nat || (nat_of_ascii c =? 39)%nat.

(** [id=QUOTE pi-interview-data QUOTE] at the head of [s] *)
Definition id_attr_here (s : string) : bool :=
  match strip_ci "id=" s with
  | Some (String q1 s1) =>
      is_quote q1 &&
      match strip_ci "pi-interview-data" s1 with
      | Some (String q2 _) => is_quote q2
      | _ => false
      end
  | _ => false
  end.

(** The attribute somewhere in [s]. *)
Fixpoint id_attr_in (s : string) : bool :=
  id_attr_here s
  || match s with
     | String _ s' => id_attr_in s'
     | EmptyString => false
     end.

(** The match attempted at the head of [s]: the tag text runs to the first
    [>], holds the attribute after at least one other character, and the
    group is the text up to the first closing tag. *)
Definition match_here (s : string) : option string :=
  tag_rest ← strip_ci "<script" s;
  '(tag, body) ← split_gt tag_rest;
  match tag with
  | String _ tag' =>
      if id_attr_in tag' then
        '(group, _) ← find_ci "</script>" body; Some group
      else None
  | EmptyString => None
  end.

(** [html.match(re)]: the leftmost match; the result is its group 1. *)
Fixpoint match_data (html : string) : option string :=
  match match_here html with
  | Some group => Some group
  | None =>
      match html with
      | String _ html' => match_data html'
      | EmptyString => None
      end
  end.

(** [pat] occurs in [s], case folded. *)
Definition occurs_ci (pat s : string) : Prop :=
  exists before rest, s = before +:+ rest /\ is_Some (strip_ci pat rest).

Section Environment.

(** [os.homedir()] *)
Variable homedir : string.

(** The file system as [fs.existsSync] and [fs.readFileSync] see it. *)
Variable readFile : string -> option string.

(** [expandHome(value)] *)
Definition expandHome (value : string) : string :=
  if String.eqb value "~" then homedir
  else if Str.startsWith value "~/" || Str.startsWith value "~\"
  then path.join [homedir; Str.slice 2 value]
  else value.

(** [resolveOptionalPath(value, cwd)] *)
Definition resolveOptionalPath (value : option string) (cwd : string)
  : option string :=
  match value with
  | None => None
  | Some v =>
      if String.eqb v EmptyString then None
      else
        let expanded := expandHome v in
        Some (if path.isAbsolute expanded then expanded
              else path.join [cwd; expanded])
  end.

Definition DEFAULT_THEME_HOTKEY : string := "mod+shift+l".

Record ThemeInput := {
  mode : option string;
  name : option string;
  lightPath : option string;
  darkPath : option string;
  toggleHotkey : option string;
}.

(** [mergeThemeConfig(theme, cwd)] *)
Definition mergeThemeConfig (theme : option ThemeInput) (cwd : string)
  : ThemeInput :=
  let merged := default {| mode := None; name := None; lightPath := None;
                           darkPath := None; toggleHotkey := None |} theme in
  {| mode := mode merged;
     name := name merged;
     toggleHotkey := Some (default DEFAULT_THEME_HOTKEY (toggleHotkey merged));
     lightPath := resolveOptionalPath (lightPath merged) cwd;
     darkPath := resolveOptionalPath (darkPath merged) cwd |}.

(** [resolveImagePath(p, baseDir)], at its declared type. *)
Definition resolveImagePath (p baseDir : string) : string :=
  if String.eqb p EmptyString then p
  else if Str.includes p "://" then p
  else
    let expanded := expandHome p in
    if path.isAbsolute expanded then expanded
    else path.join [baseDir; p].

(** A path that [expandHome] rewrites: the tilde alone, or a tilde followed
    by a slash or a backslash. *)
Definition tilde_path (p : string) : bool :=
  String.eqb p "~" || Str.startsWith p "~/" || Str.startsWith p "~\".






(** [resolveImagePath] on whatever value the parsed document holds in the
    place of a path: a value that is not a string is returned when falsy,
    and otherwise fails at [p.includes] or, for an array, at
    [value.startsWith] in [expandHome]. *)
Definition resolveImagePathValue (h : heap) (p : value) (baseDir : string)
  : result value :=
  match p with
  | VString s => Ok (VString (resolveImagePath s baseDir))
  | VRef _ =>
      match as_array h p with
      | Some xs =>
          if includes xs (VString "://") then Ok p
          else Throw (TypeError "value.startsWith is not a function")
      | None => Throw (TypeError "p.includes is not a function")
      end
  | _ =>
      if truthy p then Throw (TypeError "p.includes is not a function")
      else Ok p
  end.

(** [xs.map((v) => resolveImagePath(v, baseDir))] *)
Fixpoint resolveImagePaths (h : heap) (xs : list value) (baseDir : string)
  : result (list value) :=
  match xs with
  | [] => Ok []
  | x :: xs' =>
      do y <- resolveImagePathValue h x baseDir;
      do ys <- resolveImagePaths h xs' baseDir;
      Ok (y :: ys)
  end.

(** [resolvePathValue(value, baseDir)] *)
Definition resolvePathValue (value : value) (baseDir : string) : M JS.value :=
  fun h =>
    match as_array h value with
    | Some xs =>
        (run ys <- lift (resolveImagePaths h xs baseDir); alloc (CArr ys)) h
    | None =>
        if is_string value && truthy value
        then lift (resolveImagePathValue h value baseDir) h
        else ret value h
    end.

(** The own enumerable properties that [{...v}] copies. *)
Fixpoint index_props (i : nat) (xs : list value) : gmap string value :=
  match xs with
  | [] => ∅
  | x :: xs' => <[nat_to_string i := x]> (index_props (S i) xs')
  end.

Fixpoint chars (s : string) : list value :=
  match s with
  | EmptyString => []
  | String c s' => VString (String c EmptyString) :: chars s'
  end.

Definition spread (h : heap) (v : value) : gmap string value :=
  match v with
  | VRef l =>
      match h !! l with
      | Some (CObj m) => m
      | Some (CArr xs) => index_props 0 xs
      | None => ∅
      end
  | VString s => index_props 0 (chars s)
  | _ => ∅
  end.

(** The function mapped by [resolveAnswerPaths]:
    [{...ans, value: ..., attachments: ans.attachments?.map(...)}] *)
Definition resolveAnswer (ans : value) (baseDir : string) : M value :=
  fun h =>
    match ans with
    | VUndefined | VNull =>
        (h, Throw (TypeError "Cannot read properties of null or undefined"))
    | _ =>
        (run value <- resolvePathValue (get h ans "value") baseDir;
         run attachments <-
           (match get h ans "attachments" with
            | VUndefined | VNull => ret VUndefined
            | att =>
                match as_array h att with
                | Some ps =>
                    run qs <- lift (resolveImagePaths h ps baseDir);
                    alloc (CArr qs)
                | None =>
                    fail (TypeError "ans.attachments?.map is not a function")
                end
            end);
         alloc (CObj (<["attachments" := attachments]>
                        (<["value" := value]> (spread h ans))))) h
    end.

Fixpoint mapM (f : value -> M value) (xs : list value) : M (list value) :=
  match xs with
  | [] => ret []
  | x :: xs' => run y <- f x; run ys <- mapM f xs'; ret (y :: ys)
  end.

(** [resolveAnswerPaths(answers, baseDir)] *)
Definition resolveAnswerPaths (answers : list value) (baseDir : string)
  : M value :=
  run items <- mapM (fun ans => resolveAnswer ans baseDir) answers;
  alloc (CArr items).

Definition MISSING_DATA : string :=
  "Invalid saved interview: missing embedded data".
Definition MALFORMED_JSON : string :=
  "Invalid saved interview: malformed JSON".

(** [typeof v === "string" ? v : undefined] and the like *)
Definition if_type (t : jstype) (v : value) (otherwise : value) : value :=
  if bool_decide (typeof v = t) then v else otherwise.

(** [loadSavedInterview(html, filePath)] *)
Definition loadSavedInterview (html filePath : string) : M value :=
  match match_data html with
  | None => fail (Error MISSING_DATA)
  | Some group =>
      fun h0 =>
        match JSON.parse group h0 with
        | (h1, Throw _) => (h1, Throw (Error MALFORMED_JSON))
        | (h1, Ok data) =>
            (let raw := data in
             run validated <- schema.validateQuestions data;
             let snapshotDir := path.dirname filePath in
             run savedAnswers <-
               (fun h =>
                  match as_array h (get h raw "savedAnswers") with
                  | Some answers => resolveAnswerPaths answers snapshotDir h
                  | None => ret VUndefined h
                  end);
             run savedFrom <-
               (fun h =>
                  let sf := get h raw "savedFrom" in
                  if truthy sf && is_object sf
                     && is_string (get h sf "cwd")
                     && is_string (get h sf "sessionId")
                  then
                    alloc (CObj (<["cwd" := get h sf "cwd"]>
                                 (<["branch" := if_type TString
                                                  (get h sf "branch") VNull]>
                                  (<["sessionId" := get h sf "sessionId"]> ∅))))
                      h
                  else ret VUndefined h);
             fun h =>
               alloc (CObj (<["savedAnswers" := savedAnswers]>
                            (<["savedAt" := if_type TString
                                              (get h raw "savedAt") VUndefined]>
                             (<["wasSubmitted" := if_type TBoolean
                                                    (get h raw "wasSubmitted")
                                                    VUndefined]>
                              (<["savedFrom" := savedFrom]>
                               (spread h validated)))))) h) h1
        end
  end.

(** [loadQuestions(questionsPath, cwd)] *)
Definition loadQuestions (questionsPath cwd : string) : M value :=
  let expanded := expandHome questionsPath in
  let absolutePath := if path.isAbsolute expanded then expanded
                      else path.join [cwd; questionsPath] in
  match readFile absolutePath with
  | None => fail (Error ("Questions file not found: " +:+ absolutePath))
  | Some content =>
      if Str.endsWith absolutePath ".html" || Str.endsWith absolutePath ".htm"
      then loadSavedInterview content absolutePath
      else
        fun h0 =>
          match JSON.parse content h0 with
          | (h1, Throw (SyntaxError message))
          | (h1, Throw (Error message))
          | (h1, Throw (TypeError message)) =>
              (h1, Throw (Error ("Invalid JSON in questions file: "
                                 +:+ message)))
          | (h1, Ok data) => schema.validateQuestions data h1
          end
  end.

End Environment.

(** [formatTimeAgo(timestamp)], for times in whole milliseconds;
    [now] is [Date.now()]. *)
Definition formatTimeAgo (now timestamp : Z) : string :=
  let seconds := ((now - timestamp) / 1000)%Z in
  if (seconds <? 0)%Z then "just now"
  else if (seconds <? 60)%Z then Z_to_string seconds +:+ " seconds ago"
  else
    let minutes := (seconds / 60)%Z in
    if (minutes <? 60)%Z then
      (if (minutes =? 1)%Z then "1 minute ago"
       else Z_to_string minutes +:+ " minutes ago")
    else
      let hours := (minutes / 60)%Z in
      if (hours =? 1)%Z then "1 hour ago"
      else Z_to_string hours +:+ " hours ago".

End loader.

(* ===================================================================== *)
(** ** src/lib.ts *)
(* ===================================================================== *)

Module lib.

Inductive InterviewStatus := completed | cancelled | timeout | aborted.

#[global] Instance InterviewStatus_eq_dec : EqDecision InterviewStatus.
Proof. solve_decision. Defined.

(** [ResponseItem], as the server hands it to the callbacks: the answer to
    one question is a string or a list of strings, with optional
    attachments. *)
Record ResponseItem := {
  item_id : string;
  item_value : string + list string;
  item_attachments : option (list string);
}.

Record InterviewResult := {
  status : InterviewStatus;
  responses : list ResponseItem;
  url : string;
}.

(** An entry of [getActiveSessions()]: the fields [interview] reads, and
    the URL the tests read. *)
Record ActiveSession := {
  as_id : string;
  as_title : string;
  as_cwd : string;
  as_gitBranch : option string;
  as_startedAt : Z;
  as_url : string;
}.

(** [QueuedInfo["existingSession"]] *)
Record ExistingSession := {
  es_id : string;
  es_title : string;
  es_cwd : string;
  es_gitBranch : option string;
  es_startedAt : Z;
}.

Record QueuedInfo := {
  existingSession : ExistingSession;
  queued_url : string;
}.

Record AbortSignal := { signal_aborted : bool }.

(** [InterviewOptions].  A field that holds data of the store is a value
    ([VUndefined] when absent); a callback is present or not. *)
Record InterviewOptions := {
  questions : value;
  questionsPath : option string;
  opt_timeout : option Z;
  theme : option loader.ThemeInput;
  port : option Z;
  open : option bool;
  browser : option string;
  snapshotDir : option string;
  autoSave : option bool;
  savedAnswers : value;
  opt_cwd : option string;
  signal : option AbortSignal;
  verbose : option bool;
  onReady : bool;
  onQueued : bool;
}.

(** [InterviewServerOptions], the first argument of [startInterviewServer] *)
Record InterviewServerOptions := {
  srv_questions : value;
  srv_sessionToken : string;
  srv_sessionId : string;
  srv_cwd : string;
  srv_timeout : Z;
  srv_port : option Z;
  srv_verbose : option bool;
  srv_theme : loader.ThemeInput;
  srv_snapshotDir : option string;
  srv_autoSaveOnSubmit : bool;
  srv_savedAnswers : value;
}.

(** [InterviewServerHandle]: [close()] and [url] *)
Record InterviewServerHandle := { handle_url : string }.

(** What the code does to the outside, in the order it does it. *)
Inductive Effect :=
| AddAbortListener
| RemoveAbortListener
| StartInterviewServer (o : InterviewServerOptions)
| Close (handle : InterviewServerHandle)
| Resolve (r : InterviewResult)
| Reject (message : string)
| OnReady (u : string)
| OnQueued (info : QueuedInfo)
| OpenUrl (u : string) (browser : option string).

(** The variables the promise executor closes over, and the effects so far
    (oldest first). *)
Record State := {
  server : option InterviewServerHandle;
  resolved : bool;
  st_url : string;
  effects : list Effect;
}.

Definition emit (e : Effect) (s : State) : State :=
  {| server := server s; resolved := resolved s; st_url := st_url s;
     effects := effects s ++ [e] |}.

(** What reaches the code once the promise is pending. *)
Inductive Event :=
| Abort
| Submit (responses : list ResponseItem)
| Cancel (reason : option string)
         (partialResponses : option (list ResponseItem))
| ServerStarted (handle : InterviewServerHandle)
                (activeSessions : list ActiveSession)
| OpenFailed (message : string)
| ServerFailed (message : string).

(** The events that ask for a terminal transition, and the status and the
    responses each of them asks for. *)
Definition is_trigger (ev : Event) : bool :=
  match ev with
  | Abort | Submit _ | Cancel _ _ => true
  | ServerStarted _ _ | OpenFailed _ | ServerFailed _ => false
  end.

Definition status_of (ev : Event) : InterviewStatus :=
  match ev with
  | Submit _ => completed
  | Cancel reason _ =>
      if bool_decide (reason = Some "timeout") then timeout else cancelled
  | _ => aborted
  end.

Definition responses_of (ev : Event) : list ResponseItem :=
  match ev with
  | Submit rs => rs
  | Cancel _ partialResponses => default [] partialResponses
  | _ => []
  end.

(** The results the promise was resolved with, oldest first. *)
Definition resolutions (s : State) : list InterviewResult :=
  omap (fun e => match e with Resolve r => Some r | _ => None end) (effects s).

(** The outcome carries the answers [recorded] in the session. *)
Definition outcome_carries (recorded : list ResponseItem) (s : State) : Prop :=
  exists r, last (resolutions s) = Some r /\ responses r = recorded.

(** How the call [interview(options)] itself ends: the promise it returns
    is rejected, is fulfilled at once, or stays pending. *)
Inductive Started :=
| Rejected (e : error)
| Fulfilled (r : InterviewResult)
| Pending (s : State).

(** The call ended in an error. *)
Definition is_rejected (r : Started) : Prop := exists e, r = Rejected e.

(** The outcome of a call made with a signal that is already aborted. *)
Definition aborted_at_start : InterviewResult :=
  {| status := aborted; responses := []; url := EmptyString |}.

Section Interview.

Variable options : InterviewOptions.

(** [randomUUID()], twice *)
Variable sessionId sessionToken : string.

(** [cleanup()] *)
Definition cleanup (s : State) : State :=
  match server s with
  | Some handle =>
      emit (Close handle)
        {| server := None; resolved := resolved s; st_url := st_url s;
           effects := effects s |}
  | None => s
  end.

(** [options.signal?.removeEventListener("abort", handleAbort)] *)
Definition removeAbortListener (s : State) : State :=
  match signal options with
  | Some _ => emit RemoveAbortListener s
  | None => s
  end.

(** [finish(status, responses = [])] *)
Definition finish (st : InterviewStatus)
    (rs : option (list ResponseItem)) (s : State) : State :=
  let responses := default [] rs in
  if resolved s then s
  else
    let s1 := {| server := server s; resolved := true; st_url := st_url s;
                 effects := effects s |} in
    let s2 := removeAbortListener s1 in
    let s3 := cleanup s2 in
    emit (Resolve {| status := st; responses := responses;
                     url := st_url s3 |}) s3.

(** [handleAbort()] *)
Definition handleAbort (s : State) : State := finish aborted None s.

(** [onSubmit(responses)] *)
Definition onSubmit (rs : list ResponseItem) (s : State) : State :=
  finish completed (Some rs) s.

(** [onCancel(reason, partialResponses)] *)
Definition onCancel (reason : option string)
    (partialResponses : option (list ResponseItem)) (s : State) : State :=
  if bool_decide (reason = Some "timeout")
  then finish timeout (Some (default [] partialResponses)) s
  else finish cancelled (Some (default [] partialResponses)) s.

Definition shouldOpen : bool := negb (bool_decide (open options = Some false)).

(** The handler given to [.then], up to its [await openUrl(...)]. *)
Definition onStarted (handle : InterviewServerHandle)
    (activeSessions : list ActiveSession) (s : State) : State :=
  if resolved s then emit (Close handle) s
  else
    let s1 := {| server := Some handle; resolved := resolved s;
                 st_url := handle_url handle; effects := effects s |} in
    let s2 := if onReady options then emit (OnReady (st_url s1)) s1 else s1 in
    let otherActive :=
      filter (fun a => as_id a <> sessionId) activeSessions in
    match otherActive with
    | active :: _ =>
        if onQueued options then
          emit (OnQueued {| existingSession :=
                              {| es_id := as_id active;
                                 es_title := as_title active;
                                 es_cwd := as_cwd active;
                                 es_gitBranch := as_gitBranch active;
                                 es_startedAt := as_startedAt active |};
                            queued_url := st_url s2 |}) s2
        else s2
    | [] =>
        if shouldOpen then emit (OpenUrl (st_url s2) (browser options)) s2
        else s2
    end.

(** The [catch] around [await openUrl(...)] *)
Definition onOpenFailed (message : string) (s : State) : State :=
  emit (Reject ("Failed to open browser: " +:+ message)) (cleanup s).

(** The handler given to [.catch] *)
Definition onServerFailed (message : string) (s : State) : State :=
  emit (Reject message) (cleanup s).

Definition step (s : State) (ev : Event) : State :=
  match ev with
  | Abort => handleAbort s
  | Submit rs => onSubmit rs s
  | Cancel reason partialResponses => onCancel reason partialResponses s
  | ServerStarted handle activeSessions => onStarted handle activeSessions s
  | OpenFailed message => onOpenFailed message s
  | ServerFailed message => onServerFailed message s
  end.

Definition steps (s : State) (evs : list Event) : State :=
  fold_left step evs s.

(** The state in which [new Promise(...)] leaves its executor:
    the abort listener is added and [startInterviewServer] is called. *)
Definition pending (o : InterviewServerOptions) : State :=
  {| server := None; resolved := false; st_url := EmptyString;
     effects := (match signal options with
                 | Some _ => [AddAbortListener]
                 | None => []
                 end) ++ [StartInterviewServer o] |}.

(** [os.homedir()], the files, and [process.cwd()] *)
Variable homedir : string.
Variable readFile : string -> option string.
Variable processCwd : string.

(** [interview(options)] up to the promise it returns. *)
Definition interview : heap -> heap * Started := fun h =>
  let cwd := default processCwd (opt_cwd options) in
  let timeoutSeconds := default 600%Z (opt_timeout options) in
  let loaded : heap * result (value * value) :=
    if truthy (questions options) then
      match schema.validateQuestions (questions options) h with
      | (h', Ok questionsData) => (h', Ok (questionsData, VUndefined))
      | (h', Throw e) => (h', Throw e)
      end
    else
      match questionsPath options with
      | Some p =>
          if String.eqb p EmptyString
          then (h, throw "Either questions or questionsPath is required")
          else
            match loader.loadQuestions homedir readFile p cwd h with
            | (h', Ok loaded) =>
                (h', Ok (loaded, get h' loaded "savedAnswers"))
            | (h', Throw e) => (h', Throw e)
            end
      | None => (h, throw "Either questions or questionsPath is required")
      end in
  match loaded with
  | (h', Throw e) => (h', Rejected e)
  | (h', Ok (questionsData, loadedSavedAnswers)) =>
      let themeConfig := loader.mergeThemeConfig homedir (theme options) cwd in
      let snapshotDir :=
        match snapshotDir options with
        | Some d => if String.eqb d EmptyString then None
                    else Some (loader.expandHome homedir d)
        | None => None
        end in
      if bool_decide (signal_aborted <$> signal options = Some true)
      then (h', Fulfilled {| status := aborted; responses := [];
                             url := EmptyString |})
      else
        (h', Pending (pending
           {| srv_questions := questionsData;
              srv_sessionToken := sessionToken;
              srv_sessionId := sessionId;
              srv_cwd := cwd;
              srv_timeout := timeoutSeconds;
              srv_port := port options;
              srv_verbose := verbose options;
              srv_theme := themeConfig;
              srv_snapshotDir := snapshotDir;
              srv_autoSaveOnSubmit := default true (autoSave options);
              srv_savedAnswers :=
                match savedAnswers options with
                | VUndefined | VNull => loadedSavedAnswers
                | v => v
                end |}))
  end.

End Interview.

End lib.

(* ===================================================================== *)
(** ** The session server (server.ts) *)
(* ===================================================================== *)

Module server.

(** Modelled from the spec: the lifecycle states of a session (4.1);
    server.ts, which holds the session record, is not among the sources. *)
Inductive Lifecycle :=
| created | listening | active | completed | cancelled | timedOut | aborted.

#[global] Instance Lifecycle_eq_dec : EqDecision Lifecycle.
Proof. solve_decision. Defined.

(** Modelled from the spec: the four terminal states (4.1). *)
Definition terminal (l : Lifecycle) : bool :=
  match l with
  | completed | cancelled | timedOut | aborted => true
  | created | listening | active => false
  end.

(** Modelled from the spec: the session record (3): its id and capability
    token, the ids of the questions that need an answer, the answers
    recorded, the last heartbeat, the configured timeout in seconds and the
    lifecycle state. *)
Record Session := {
  sessionId : string;
  token : string;
  required : list string;
  answers : list lib.ResponseItem;
  lastHeartbeat : Z;
  timeoutSeconds : Z;
  state : Lifecycle;
}.

(** Modelled from the spec: the reason a cancel request may carry (4.2). *)
Inductive CancelReason := user | timeout.

(** Modelled from the spec: the routes of the protocol layer (4.2). *)
Inductive Route :=
| Form
| Health
| Heartbeat
| Submit (payload : list lib.ResponseItem)
| Cancel (reason : option CancelReason)
| Upload (content : string)
| SnapshotSave.

(** Modelled from the spec: a request and the token of its query (4.2). *)
Record Request := {
  req_token : option string;
  route : Route;
}.

(** Modelled from the spec: the outcomes of a request (4.2, 7). *)
Inductive Response :=
| AccessDenied
| Document
| Alive
| Accepted
| Recorded (outcome : Lifecycle) (answers : list lib.ResponseItem)
| Invalid (reason : string)
| Reference (path : string).

(** Modelled from the spec: a session moved to another lifecycle state. *)
Definition with_state (s : Session) (l : Lifecycle) : Session :=
  {| sessionId := sessionId s; token := token s; required := required s;
     answers := answers s; lastHeartbeat := lastHeartbeat s;
     timeoutSeconds := timeoutSeconds s; state := l |}.

(** Modelled from the spec: a submit payload is valid when every question
    that needs an answer has one (4.1). *)
Definition complete (s : Session) (payload : list lib.ResponseItem) : bool :=
  forallb (fun q => existsb (fun r => String.eqb (lib.item_id r) q) payload)
    (required s).

(** Modelled from the spec: the protocol layer (4.2).  The token check comes
    first on every route; once the session is terminal a mutating route
    answers with the recorded outcome; a heartbeat stamps the session and
    makes it active; submit and cancel make the terminal transitions. *)
Definition handle (now : Z) (s : Session) (r : Request) : Session * Response :=
  if negb (bool_decide (req_token r = Some (token s))) then (s, AccessDenied)
  else
    match route r with
    | Form => (s, Document)
    | Health => (s, Alive)
    | Upload content => (s, Reference content)
    | SnapshotSave => (s, Accepted)
    | Heartbeat =>
        if terminal (state s) then (s, Recorded (state s) (answers s))
        else
          ({| sessionId := sessionId s; token := token s;
              required := required s; answers := answers s;
              lastHeartbeat := now; timeoutSeconds := timeoutSeconds s;
              state := active |}, Accepted)
    | Submit payload =>
        if terminal (state s) then (s, Recorded (state s) (answers s))
        else if complete s payload then
          ({| sessionId := sessionId s; token := token s;
              required := required s; answers := payload;
              lastHeartbeat := lastHeartbeat s;
              timeoutSeconds := timeoutSeconds s;
              state := completed |}, Recorded completed payload)
        else (with_state s active, Invalid "missing required answers")
    | Cancel reason =>
        if terminal (state s) then (s, Recorded (state s) (answers s))
        else
          let l := match reason with
                   | Some timeout => timedOut
                   | _ => cancelled
                   end in
          (with_state s l, Recorded l (answers s))
    end.

(** Modelled from the spec: the grace window of the watchdog, in
    milliseconds (4.4). *)
Definition GRACE : Z := 60000.

(** Modelled from the spec: what happens to a session besides requests:
    the clock advances, or the owning process withdraws the session. *)
Inductive Event :=
| Tick (now : Z)
| Incoming (now : Z) (r : Request)
| OwnerAbort.

(** Modelled from the spec: the watchdog fires only in [active], when the
    last heartbeat is older than the grace window (4.4); the listener runs
    no clock for the configured timeout (4.1); the owner's withdrawal takes
    any state that is not terminal to [aborted] (4.1). *)
Definition step (s : Session) (ev : Event) : Session :=
  match ev with
  | Tick now =>
      if bool_decide (state s = active)
         && (lastHeartbeat s + GRACE <? now)%Z
      then with_state s cancelled
      else s
  | Incoming now r => fst (handle now s r)
  | OwnerAbort =>
      if terminal (state s) then s else with_state s aborted
  end.

(** Modelled from the spec: a run of events, in the order they occur. *)
Definition steps (s : Session) (evs : list Event) : Session :=
  fold_left step evs s.

(** Modelled from the spec: the state once the listener is bound and
    registered (4.1). *)
Definition listen (id tok : string) (required : list string)
    (saved : list lib.ResponseItem) (now timeoutSeconds : Z) : Session :=
  {| sessionId := id; token := tok; required := required; answers := saved;
     lastHeartbeat := now; timeoutSeconds := timeoutSeconds;
     state := listening |}.

(** Modelled from the spec: the snapshot encoder (4.5).  The document
    carries one data block, a script element tagged [pi-interview-data],
    holding the question document together with the answers, the saved-at
    time, the submitted flag and the provenance, as JSON in which [<] is
    written as an escape so that the block ends at its own closing tag. *)
Fixpoint escape_lt (s : string) : string :=
  match s with
  | EmptyString => EmptyString
  | String c s' =>
      (if Ascii.eqb c "<" then String (ascii_of_nat 92) "u003c"
       else String c EmptyString) +:+ escape_lt s'
  end.

(** Modelled from the spec: see [escape_lt]. *)
Definition encodeSnapshot (questions savedAnswers : value) (savedAt : string)
    (wasSubmitted : bool) (cwd : string) (branch : option string)
    (sessionId : string) : M string :=
  run savedFrom <-
    alloc (CObj (<["cwd" := VString cwd]>
                 (<["branch" := from_option VString VNull branch]>
                  (<["sessionId" := VString sessionId]> ∅))));
  fun h =>
    (run data <-
       alloc (CObj (<["savedAnswers" := savedAnswers]>
                    (<["savedAt" := VString savedAt]>
                     (<["wasSubmitted" := VBool wasSubmitted]>
                      (<["savedFrom" := savedFrom]>
                       (loader.spread h questions))))));
     fun h' =>
       match JSON.stringify h' data with
       | Some text =>
           ret ("<!DOCTYPE html><html><head><title>Interview</title>"
                +:+ "<script type=" +:+ schema.quoted "application/json"
                +:+ " id=" +:+ schema.quoted "pi-interview-data" +:+ ">"
                +:+ escape_lt text
                +:+ "</script></head><body></body></html>") h'
       | None =>
           fail (TypeError "Converting circular structure to JSON") h'
       end) h.

End server.

(* ===================================================================== *)
(** ** Example data *)
(* ===================================================================== *)

Module examples.

Definition no_files : string -> option string := fun _ => None.

(** The snapshot of a session with one text question, answered hello,
    encoded and then loaded again from /snap/index.html: the store at the
    end, with the answers that were encoded and the document that was
    loaded. *)
Definition text_snapshot_roundtrip : heap * result (value * value) :=
  (run doc <- JSON.parse
       (json_text
          "{'title':'T','questions':[{'id':'q1','type':'text','question':'Name?'}]}");
   run questions <- schema.validateQuestions doc;
   run answers <- JSON.parse (json_text "[{'id':'q1','value':'hello'}]");
   run html <- server.encodeSnapshot questions answers "2026-02-16T10:00:00Z"
                 true "/work" (Some "main") "sid";
   run loaded <- loader.loadSavedInterview "/home/u" html "/snap/index.html";
   ret (answers, loaded)) [].

(** A document as in tests/schema.test.ts: a multi question that recommends
    the single string X and one that recommends a list.  Parsed into an
    empty store, the first question is cell 1, the list of questions cell 5
    and the document cell 6. *)
Definition multi_document : heap :=
  fst (JSON.parse
         (json_text
            "{'questions':[{'id':'q1','type':'multi','question':'Pick?','options':['X','Y','Z'],'recommended':'X'},{'id':'q2','type':'multi','question':'More?','options':['A','B'],'recommended':['A','B']}]}")
         []).

Definition plain_options : lib.InterviewOptions :=
  {| lib.questions := VUndefined; lib.questionsPath := None;
     lib.opt_timeout := None; lib.theme := None; lib.port := None;
     lib.open := None; lib.browser := None; lib.snapshotDir := None;
     lib.autoSave := None; lib.savedAnswers := VUndefined;
     lib.opt_cwd := None; lib.signal := None; lib.verbose := None;
     lib.onReady := true; lib.onQueued := true |}.

Definition with_signal (o : lib.InterviewOptions) (aborted : bool)
  : lib.InterviewOptions :=
  {| lib.questions := lib.questions o;
     lib.questionsPath := lib.questionsPath o;
     lib.opt_timeout := lib.opt_timeout o; lib.theme := lib.theme o;
     lib.port := lib.port o; lib.open := lib.open o;
     lib.browser := lib.browser o; lib.snapshotDir := lib.snapshotDir o;
     lib.autoSave := lib.autoSave o; lib.savedAnswers := lib.savedAnswers o;
     lib.opt_cwd := lib.opt_cwd o;
     lib.signal := Some {| lib.signal_aborted := aborted |};
     lib.verbose := lib.verbose o;
     lib.onReady := lib.onReady o; lib.onQueued := lib.onQueued o |}.

Definition with_questions (o : lib.InterviewOptions) (q : value)
  : lib.InterviewOptions :=
  {| lib.questions := q;
     lib.questionsPath := lib.questionsPath o;
     lib.opt_timeout := lib.opt_timeout o; lib.theme := lib.theme o;
     lib.port := lib.port o; lib.open := lib.open o;
     lib.browser := lib.browser o; lib.snapshotDir := lib.snapshotDir o;
     lib.autoSave := lib.autoSave o; lib.savedAnswers := lib.savedAnswers o;
     lib.opt_cwd := lib.opt_cwd o; lib.signal := lib.signal o;
     lib.verbose := lib.verbose o;
     lib.onReady := lib.onReady o; lib.onQueued := lib.onQueued o |}.

(** The options of a caller that passes a signal, not aborted. *)
Definition signalled_options : lib.InterviewOptions :=
  with_signal plain_options false.

(** [{ questions: [{ id: "q1", type: "text", question: "Test?" }] }], the
    document of tests/lib.test.ts, in an empty store. *)
Definition MINIMAL_QUESTIONS : heap * result value :=
  JSON.parse
    (json_text "{'questions':[{'id':'q1','type':'text','question':'Test?'}]}")
    [].

Definition answer_A : lib.ResponseItem :=
  {| lib.item_id := "q1"; lib.item_value := inl "A";
     lib.item_attachments := None |}.

Definition answer_B : lib.ResponseItem :=
  {| lib.item_id := "q2"; lib.item_value := inr ["X"; "Y"];
     lib.item_attachments := None |}.

Definition a_handle : lib.InterviewServerHandle :=
  {| lib.handle_url := "http://localhost:4000/?session=tok" |}.

Definition first_session : lib.ActiveSession :=
  {| lib.as_id := "first"; lib.as_title := "Project Setup";
     lib.as_cwd := "/work/a"; lib.as_gitBranch := Some "main";
     lib.as_startedAt := 1700000000000;
     lib.as_url := "http://localhost:3999/?session=first-token" |}.

Definition own_session : lib.ActiveSession :=
  {| lib.as_id := "second"; lib.as_title := "Review";
     lib.as_cwd := "/work/b"; lib.as_gitBranch := None;
     lib.as_startedAt := 1700000005000;
     lib.as_url := "http://localhost:4000/?session=tok" |}.

Definition server_options : lib.InterviewServerOptions :=
  {| lib.srv_questions := VRef 2; lib.srv_sessionToken := "tok";
     lib.srv_sessionId := "second"; lib.srv_cwd := "/work/b";
     lib.srv_timeout := 600; lib.srv_port := None; lib.srv_verbose := None;
     lib.srv_theme := loader.mergeThemeConfig "/home/u" None "/work/b";
     lib.srv_snapshotDir := None; lib.srv_autoSaveOnSubmit := true;
     lib.srv_savedAnswers := VUndefined |}.

Definition a_session : server.Session :=
  server.listen "second" "tok" ["q1"] [] 1700000005000 1.

End examples.

(* ===================================================================== *)
(** ** The browser launcher (src/unnamed/part_000) *)
(* ===================================================================== *)

Module browser.

(** The command [execFile] is given. *)
Record Spawn := {
  cmd : string;
  args : list string;
}.

(** [browser ? a : b]: a browser that is given and not the empty string *)
Definition given (browser : option string) : option string :=
  match browser with
  | Some b => if String.eqb b EmptyString then None else Some b
  | None => None
  end.

(** The command and arguments [openUrl(url, browser)] builds, on the
    platform [os.platform()] names. *)
Definition openUrl (platform url : string) (browser : option string) : Spawn :=
  if String.eqb platform "darwin" then
    {| cmd := "open";
       args := match given browser with
               | Some b => ["-a"; b; url]
               | None => [url]
               end |}
  else if String.eqb platform "win32" then
    {| cmd := "cmd";
       args := match given browser with
               | Some b => ["/c"; "start"; EmptyString; b; url]
               | None => ["/c"; "start"; EmptyString; url]
               end |}
  else
    {| cmd := default "xdg-open" browser;
       args := [url] |}.

(** The callback of [execFile]: [err] is the message of the error, if the
    command failed; the result is the message the promise is rejected
    with, if it is. *)
Definition settle (cmd : string) (err : option string) : option string :=
  match err with
  | Some message =>
      Some (if String.eqb message EmptyString
            then "Failed to open browser (" +:+ cmd +:+ ")"
            else message)
  | None => None
  end.

End browser.

(* ===================================================================== *)
(** ** src/config.ts *)
(* ===================================================================== *)

Module config.

(** [InterviewConfig]: every field is optional, and the file that fills it
    holds whatever JSON its author wrote, so a field is a value. *)
Record InterviewConfig := {
  timeout : value;
  theme : value;
  mode : value;
  port : value;
  browser : value;
  snapshotDir : value;
  autoSave : value;
  toggleHotkey : value;
  lightPath : value;
  darkPath : value;
}.

(** [v === undefined || v === null], the test of [??] *)
Definition nullish (v : value) : bool :=
  match v with
  | VUndefined | VNull => true
  | _ => false
  end.

(** A string or undefined, as a value *)
Definition of_string (s : option string) : value :=
  from_option VString VUndefined s.

Section Process.

(** [process.env], [os.homedir()], the files, and [parseInt(s, 10)] with
    [None] for NaN. *)
Variable env : string -> option string.
Variable homedir : string.
Variable readFile : string -> option string.
Variable parseInt : string -> option Z.

(** [process.env.NAME || otherwise] *)
Definition env_or (name otherwise : string) : string :=
  match env name with
  | Some s => if String.eqb s EmptyString then otherwise else s
  | None => otherwise
  end.

Definition xdgConfig : string :=
  env_or "XDG_CONFIG_HOME" (path.join [homedir; ".config"]).

Definition xdgData : string :=
  env_or "XDG_DATA_HOME" (path.join [homedir; ".local"; "share"]).

Definition xdgState : string :=
  env_or "XDG_STATE_HOME" (path.join [homedir; ".local"; "state"]).

Definition sessionsPath : string :=
  path.join [xdgState; "interview"; "sessions.json"].

Definition recoveryDir : string :=
  path.join [xdgState; "interview"; "recovery"].

Definition snapshotsDir : string :=
  path.join [xdgData; "interview"; "snapshots"].

Definition configPath : string :=
  env_or "INTERVIEW_CONFIG" (path.join [xdgConfig; "interview"; "config.json"]).

(** [loadConfig()]: whatever goes wrong, the result is [{}]. *)
Definition loadConfig : M value := fun h =>
  match readFile configPath with
  | None => alloc (CObj ∅) h
  | Some content =>
      match JSON.parse content h with
      | (h1, Ok data) => (h1, Ok data)
      | (h1, Throw _) => alloc (CObj ∅) h1
      end
  end.

(** [parseEnvInt(value)] *)
Definition parseEnvInt (v : option string) : value :=
  match v with
  | None => VUndefined
  | Some s =>
      if String.eqb s EmptyString then VUndefined
      else match parseInt s with
           | Some n => VNumber n 0
           | None => VUndefined
           end
  end.

(** [a ?? file.key]: the file is read only when [a] is nullish, and reading
    a property of [null] or [undefined] is a TypeError. *)
Definition or_file (h : heap) (a : value) (file : value) (key : string)
  : result value :=
  if nullish a then
    if nullish file
    then Throw (TypeError ("Cannot read properties of null or undefined"))
    else Ok (get h file key)
  else Ok a.

(** [a ?? b] *)
Definition coalesce (a b : value) : value := if nullish a then b else a.

(** [resolveConfig(cliFlags, fileConfig)] *)
Definition resolveConfig (cliFlags : InterviewConfig) (fileConfig : value)
  : M InterviewConfig :=
  run file <- (if nullish fileConfig then loadConfig else ret fileConfig);
  let envTimeout := parseEnvInt (env "INTERVIEW_TIMEOUT") in
  let envPort := parseEnvInt (env "INTERVIEW_PORT") in
  fun h =>
    (h,
     do timeout <- or_file h (coalesce (timeout cliFlags) envTimeout)
                     file "timeout";
     do theme <- or_file h (coalesce (theme cliFlags)
                              (of_string (env "INTERVIEW_THEME")))
                   file "theme";
     do mode <- or_file h (coalesce (mode cliFlags)
                             (of_string (env "INTERVIEW_MODE")))
                  file "mode";
     do port <- or_file h (coalesce (port cliFlags) envPort) file "port";
     do browser <- or_file h (browser cliFlags) file "browser";
     do snapshotDir <- or_file h (snapshotDir cliFlags) file "snapshotDir";
     do autoSave <- or_file h (autoSave cliFlags) file "autoSave";
     do toggleHotkey <- or_file h (toggleHotkey cliFlags) file "toggleHotkey";
     do lightPath <- or_file h (lightPath cliFlags) file "lightPath";
     do darkPath <- or_file h (darkPath cliFlags) file "darkPath";
     Ok {| timeout := timeout; theme := theme; mode := mode; port := port;
           browser := browser; snapshotDir := snapshotDir;
           autoSave := autoSave; toggleHotkey := toggleHotkey;
           lightPath := lightPath; darkPath := darkPath |}).

End Process.

End config.

(* ===================================================================== *)
(** ** The command line (the program that calls [interview]) *)
(* ===================================================================== *)

Module cli.

Definition nl : string := String (ascii_of_nat 10) EmptyString.

Definition HELP : string :=
  String.concat nl
    [ "Usage: interview [options] <questions>";
      EmptyString;
      "Open a web form to gather responses, output JSON to stdout.";
      EmptyString;
      "Arguments:";
      "  questions              Path to questions JSON or saved interview HTML";
      EmptyString;
      "Options:";
      "  -t, --timeout <sec>    Timeout in seconds (default: 600)";
      "  --theme <name>         Theme: default, tufte (default: "
        +:+ schema.quoted "default" +:+ ")";
      "  --mode <mode>          Theme mode: auto, light, dark (default: "
        +:+ schema.quoted "dark" +:+ ")";
      "  --port <port>          Fixed port number";
      "  --no-open              Print URL to stderr, don't open browser";
      "  --browser <cmd>        Browser command (e.g., "
        +:+ schema.quoted "firefox" +:+ ", " +:+ schema.quoted "google-chrome"
        +:+ ")";
      "  --snapshot-dir <dir>   Save snapshot directory";
      "  --no-save              Don't auto-save on submit";
      "  --stdin                Read questions JSON from stdin";
      "  --pretty               Pretty-print JSON output";
      "  -q, --quiet            Suppress status messages on stderr";
      "  -v, --verbose          Debug logging to stderr";
      "  -V, --version          Show version";
      "  -h, --help             Show help";
      EmptyString;
      "Environment:";
      "  INTERVIEW_TIMEOUT      Default timeout";
      "  INTERVIEW_THEME        Default theme name";
      "  INTERVIEW_MODE         Default theme mode";
      "  INTERVIEW_PORT         Default port";
      "  INTERVIEW_CONFIG       Config file path override" ].

(** The [values] of [parseArgs]: a string option is given or not, a
    boolean option has its default. *)
Record Values := {
  timeout : option string;
  theme : option string;
  mode : option string;
  port : option string;
  open : bool;
  browser : option string;
  snapshot_dir : option string;
  save : bool;
  stdin : bool;
  pretty : bool;
  quiet : bool;
  verbose : bool;
  version : bool;
  help : bool;
}.

(** The values of the same command line without [--timeout], and without
    [--port]. *)
Definition without_timeout (v : Values) : Values :=
  {| timeout := None; theme := theme v; mode := mode v; port := port v;
     open := open v; browser := browser v; snapshot_dir := snapshot_dir v;
     save := save v; stdin := stdin v; pretty := pretty v; quiet := quiet v;
     verbose := verbose v; version := version v; help := help v |}.

Definition without_port (v : Values) : Values :=
  {| timeout := timeout v; theme := theme v; mode := mode v; port := None;
     open := open v; browser := browser v; snapshot_dir := snapshot_dir v;
     save := save v; stdin := stdin v; pretty := pretty v; quiet := quiet v;
     verbose := verbose v; version := version v; help := help v |}.

(** What is written to stdout: a text, [console.log] of a value, or the
    JSON text of [{ status, responses }], pretty-printed or not, followed
    by a newline. *)
Inductive Out :=
| Text (s : string)
| Log (v : value)
| Result (status : lib.InterviewStatus) (responses : list lib.ResponseItem)
         (pretty : bool).

(** The object [main] passes to [interview], but for the signal and the
    callbacks. *)
Record Call := {
  questions : value;
  questionsPath : option string;
  call_timeout : value;
  theme_name : value;
  theme_mode : value;
  theme_lightPath : value;
  theme_darkPath : value;
  theme_toggleHotkey : value;
  call_port : value;
  call_open : bool;
  call_browser : value;
  call_snapshotDir : value;
  call_autoSave : value;
  call_verbose : bool;
}.

(** How [main] goes up to its call of [interview]: the process exits, or
    an exception escapes [main], or the call is made. *)
Inductive Checked :=
| Exit (code : Z) (stdout : list Out) (stderr : list string)
| Crash (e : error)
| Proceed (call : Call).

(** [s ? parseInt(s, 10) : undefined]: [None] is undefined, [Some None]
    is NaN. *)
Definition parse_flag (parseInt : string -> option Z) (s : option string)
  : option (option Z) :=
  match s with
  | Some t => if String.eqb t EmptyString then None else Some (parseInt t)
  | None => None
  end.

(** A number or undefined, as a value; NaN has no other use than the
    checks that refuse it. *)
Definition of_flag (n : option (option Z)) : value :=
  match n with
  | Some (Some z) => VNumber z 0
  | _ => VUndefined
  end.

(** [x || undefined] for a string *)
Definition nonempty (s : option string) : option string :=
  match s with
  | Some t => if String.eqb t EmptyString then None else Some t
  | None => None
  end.

Section Main.

Variable env : string -> option string.
Variable homedir : string.
Variable readFile : string -> option string.
Variable parseInt : string -> option Z.

(** The path of package.json beside the program *)
Variable pkgPath : string.

(** [getVersion()] *)
Definition getVersion : M value := fun h =>
  match readFile pkgPath with
  | None => (h, Ok (VString "0.0.0"))
  | Some content =>
      match JSON.parse content h with
      | (h1, Ok data) =>
          if config.nullish data then (h1, Ok (VString "0.0.0"))
          else (h1, Ok (get h1 data "version"))
      | (h1, Throw _) => (h1, Ok (VString "0.0.0"))
      end
  end.

(** [main()] from its start to its call of [interview]: [parsed] is what
    [parseArgs] returns, or the message of what it throws, and [input] is
    what stdin holds. *)
Definition main (parsed : string + Values * list string) (input : string)
  : heap -> heap * Checked := fun h =>
  match parsed with
  | inl message => (h, Exit 2 [] ["Error: " +:+ message +:+ nl])
  | inr (values, positionals) =>
      if help values then (h, Exit 0 [Log (VString HELP)] [])
      else if version values then
        match getVersion h with
        | (h1, Ok v) => (h1, Exit 0 [Log v] [])
        | (h1, Throw e) => (h1, Crash e)
        end
      else
        let useStdin := stdin values in
        let questionsPath := nonempty (head positionals) in
        if useStdin && bool_decide (is_Some questionsPath) then
          (h, Exit 2 []
                ["Error: Cannot use both --stdin and a file path argument"
                 +:+ nl])
        else if negb useStdin && negb (bool_decide (is_Some questionsPath)) then
          (h, Exit 2 []
                ["Error: Missing questions file argument. Use --help for usage."
                 +:+ nl])
        else
          let timeout := parse_flag parseInt (timeout values) in
          let port := parse_flag parseInt (port values) in
          if match timeout with
             | Some None => true
             | Some (Some t) => (t <=? 0)%Z
             | None => false
             end
          then (h, Exit 2 [] ["Error: --timeout must be a positive number"
                              +:+ nl])
          else if match port with
                  | Some None => true
                  | Some (Some p) => (p <=? 0)%Z || (65535 <? p)%Z
                  | None => false
                  end
          then (h, Exit 2 [] ["Error: --port must be between 1 and 65535"
                              +:+ nl])
          else
            match config.resolveConfig env homedir readFile parseInt
                    {| config.timeout := of_flag timeout;
                       config.theme := config.of_string (theme values);
                       config.mode := config.of_string (mode values);
                       config.port := of_flag port;
                       config.browser := config.of_string (browser values);
                       config.snapshotDir :=
                         config.of_string (snapshot_dir values);
                       config.autoSave :=
                         if save values then VUndefined else VBool false;
                       config.toggleHotkey := VUndefined;
                       config.lightPath := VUndefined;
                       config.darkPath := VUndefined |}
                    VUndefined h with
            | (h1, Throw e) => (h1, Crash e)
            | (h1, Ok cfg) =>
                let proceed (h2 : heap) (questionsData : value) :=
                  (h2,
                   Proceed
                     {| questions := questionsData;
                        questionsPath := questionsPath;
                        call_timeout :=
                          config.coalesce (config.timeout cfg) (VNumber 600 0);
                        theme_name := config.theme cfg;
                        theme_mode := config.mode cfg;
                        theme_lightPath := config.lightPath cfg;
                        theme_darkPath := config.darkPath cfg;
                        theme_toggleHotkey := config.toggleHotkey cfg;
                        call_port := config.port cfg;
                        call_open := open values;
                        call_browser := config.browser cfg;
                        call_snapshotDir := config.snapshotDir cfg;
                        call_autoSave :=
                          config.coalesce (config.autoSave cfg) (VBool true);
                        call_verbose := verbose values |}) in
                if useStdin then
                  match JSON.parse input h1 with
                  | (h2, Ok data) => proceed h2 data
                  | (h2, Throw _) =>
                      (h2, Exit 2 [] ["Error: Invalid JSON from stdin" +:+ nl])
                  end
                else proceed h1 VUndefined
            end
  end.

(** *** From the call of [interview] to the end of the process *)

Variable values : Values.

(** [outputWritten], what was written, and the exit code once the process
    has exited. *)
Record Run := {
  outputWritten : bool;
  stdout : list Out;
  stderr : list string;
  exited : option Z;
}.

Definition started : Run :=
  {| outputWritten := false; stdout := []; stderr := []; exited := None |}.

(** What happens after the call: a signal arrives, the promise of
    [interview] is fulfilled or rejected, or [interview] calls [onReady] or
    [onQueued] (at the time [now]). *)
Inductive Event :=
| Signal
| Settled (result : lib.InterviewResult)
| Failed (message : string)
| Ready (url : string)
| Queued (now : Z) (info : lib.QueuedInfo).

(** [stderr(msg, quiet)] *)
Definition say (msg : string) (r : Run) : Run :=
  if quiet values then r
  else {| outputWritten := outputWritten r; stdout := stdout r;
          stderr := stderr r ++ [msg +:+ nl]; exited := exited r |}.

(** [writeResult(result)] *)
Definition writeResult (st : lib.InterviewStatus)
    (responses : list lib.ResponseItem) (r : Run) : Run :=
  if outputWritten r then r
  else {| outputWritten := true;
          stdout := stdout r ++ [Result st responses (pretty values)];
          stderr := stderr r; exited := exited r |}.

(** [process.exit(code)] *)
Definition exit (code : Z) (r : Run) : Run :=
  {| outputWritten := outputWritten r; stdout := stdout r;
     stderr := stderr r; exited := Some code |}.

(** [handleSignal()] *)
Definition handleSignal (r : Run) : Run :=
  exit 1 (if outputWritten r then r else writeResult lib.aborted [] r).

(** The continuation of [await interview(...)] *)
Definition onSettled (result : lib.InterviewResult) (r : Run) : Run :=
  exit (if bool_decide (lib.status result = lib.completed) then 0 else 1)
    (writeResult (lib.status result) (lib.responses result) r).

(** The [catch] around [await interview(...)] *)
Definition onFailed (message : string) (r : Run) : Run :=
  let r1 := {| outputWritten := outputWritten r; stdout := stdout r;
               stderr := stderr r ++ ["Error: " +:+ message +:+ nl];
               exited := exited r |} in
  exit 2 (if outputWritten r1 then r1 else writeResult lib.aborted [] r1).

(** The callback [onReady] *)
Definition onReady (url : string) (r : Run) : Run :=
  if open values then r else say ("Interview URL: " +:+ url) r.

(** The callback [onQueued] *)
Definition onQueued (now : Z) (info : lib.QueuedInfo) (r : Run) : Run :=
  let existing := lib.existingSession info in
  say ("  " +:+ lib.queued_url info)
    (say "New interview queued. Open when ready:"
       (say EmptyString
          (say ("  Started: "
                +:+ loader.formatTimeAgo now (lib.es_startedAt existing))
             (say ("  Project: " +:+ lib.es_cwd existing)
                (say ("  Title: " +:+ lib.es_title existing)
                   (say "Interview already active:" r)))))).

(** One event; a process that has exited does nothing more. *)
Definition step (r : Run) (ev : Event) : Run :=
  match exited r with
  | Some _ => r
  | None =>
      match ev with
      | Signal => handleSignal r
      | Settled result => onSettled result r
      | Failed message => onFailed message r
      | Ready url => onReady url r
      | Queued now info => onQueued now info r
      end
  end.

Definition steps (r : Run) (evs : list Event) : Run := fold_left step evs r.

(** The events that end the process. *)
Definition ends (ev : Event) : bool :=
  match ev with
  | Signal | Settled _ | Failed _ => true
  | Ready _ | Queued _ _ => false
  end.

(** What the first ending event writes and the status it exits with. *)
Definition verdict (ev : Event) : Out * Z :=
  match ev with
  | Settled result =>
      (Result (lib.status result) (lib.responses result) (pretty values),
       if bool_decide (lib.status result = lib.completed) then 0%Z else 1%Z)
  | Failed _ => (Result lib.aborted [] (pretty values), 2%Z)
  | _ => (Result lib.aborted [] (pretty values), 1%Z)
  end.

End Main.

End cli.

(* ===================================================================== *)
(** ** What a run of [interview] shows *)
(* ===================================================================== *)

Module trace.

(** The listeners that were closed, oldest first. *)
Definition closes (s : lib.State) : list lib.InterviewServerHandle :=
  omap (fun e => match e with lib.Close h => Some h | _ => None end)
    (lib.effects s).

(** The URLs the browser was opened on, each with the browser asked for. *)
Definition opens (s : lib.State) : list (string * option string) :=
  omap (fun e => match e with lib.OpenUrl u b => Some (u, b) | _ => None end)
    (lib.effects s).

(** The errors the promise was rejected with, oldest first. *)
Definition rejections (s : lib.State) : list string :=
  omap (fun e => match e with lib.Reject m => Some m | _ => None end)
    (lib.effects s).

(** The URLs [onReady] and [onQueued] were called with, oldest first. *)
Definition announced (s : lib.State) : list string :=
  omap (fun e => match e with
                 | lib.OnReady u => Some u
                 | lib.OnQueued info => Some (lib.queued_url info)
                 | _ => None
                 end)
    (lib.effects s).

(** The calls of [resolve] and [reject], oldest first.  A promise keeps
    the first of them and ignores the others. *)
Definition settlements (s : lib.State) : list (lib.InterviewResult + string) :=
  omap (fun e => match e with
                 | lib.Resolve r => Some (inl r)
                 | lib.Reject m => Some (inr m)
                 | _ => None
                 end)
    (lib.effects s).

(** The events that report a failure, of the server or of the browser. *)
Definition is_failure (ev : lib.Event) : bool :=
  match ev with
  | lib.OpenFailed _ | lib.ServerFailed _ => true
  | _ => false
  end.

(** The event by which [startInterviewServer] hands over its listener. *)
Definition is_start (ev : lib.Event) : bool :=
  match ev with
  | lib.ServerStarted _ _ => true
  | _ => false
  end.

(** The listener is held or it has been closed, never both and never
    twice; and a resolved session holds none. *)
Definition tidy (handle : option lib.InterviewServerHandle) (s : lib.State) : Prop :=
  (lib.resolved s = true -> lib.server s = None)
  /\ match handle with
     | None => lib.server s = None /\ closes s = []
     | Some h =>
         (lib.server s = Some h /\ closes s = [])
         \/ (lib.server s = None /\ closes s = [h])
     end.


(** Every outcome so far carries [u], and so will the next one. *)
Definition url_is (u : string) (s : lib.State) : Prop :=
  (forall r, r ∈ lib.resolutions s -> lib.url r = u)
  /\ (lib.resolved s = false -> lib.st_url s = u).

End trace.

(* ===================================================================== *)
(** ** What a questions document holds *)
(* ===================================================================== *)

Module document.

(** The labels of the options of the question [q], as
    [question.options.map(getOptionLabel)] reads them; none without
    options. *)
Definition optionLabels (h : heap) (q : value) : list value :=
  match as_array h (get h q "options") with
  | Some os => map (schema.getOptionLabel h) os
  | None => []
  end.

(** The store [h'] has grown from [h] and differs from it at most in the
    property [recommended] of its objects. *)
Definition extends (h h' : heap) : Prop :=
  length h <= length h'
  /\ forall l, l < length h ->
       as_array h' (VRef l) = as_array h (VRef l)
       /\ forall k, k <> "recommended" ->
            get h' (VRef l) k = get h (VRef l) k.

(** A value that is no reference, or refers to a cell of the store. *)
Definition live (h : heap) (v : value) : Prop :=
  match v with
  | VRef l => l < length h
  | _ => True
  end.


(** The media blocks of the question [q]:
    [Array.isArray(q.media) ? q.media : [q.media]], and none without
    [media]. *)
Definition mediaItems (h : heap) (q : value) : list value :=
  if is_undefined (get h q "media") then []
  else match as_array h (get h q "media") with
       | Some items => items
       | None => [get h q "media"]
       end.

(** The code blocks of the question [q]: its own, and those of its
    options. *)
Definition codeBlocks (h : heap) (q : value) : list value :=
  filter (fun b => b <> VUndefined)
    (get h q "codeBlock"
     :: match as_array h (get h q "options") with
        | Some os => map (fun o => get h o "code") os
        | None => []
        end).

End document.

(* ===================================================================== *)
(** ** Sample environments, files and command lines *)
(* ===================================================================== *)

Module samples.

(** [parseInt(s, 10)] on ASCII text: white space, a sign, then digits as
    far as they go; [None] is NaN. *)
Fixpoint digits (acc : option Z) (s : string) : option Z :=
  match s with
  | String c s' =>
      match JSON.digit c with
      | Some d => digits (Some (10 * default 0 acc + d))%Z s'
      | None => acc
      end
  | EmptyString => acc
  end.

Definition parseInt (s : string) : option Z :=
  match JSON.skip_ws s with
  | String c s' =>
      if Ascii.eqb c "-" then Z.opp <$> digits None s'
      else if Ascii.eqb c "+" then digits None s'
      else digits None (String c s')
  | EmptyString => None
  end.

Definition home : string := "/home/u".

Definition no_env : string -> option string := fun _ => None.

(** An environment that sets a timeout, and leaves a variable empty. *)
Definition timeout_env : string -> option string := fun name =>
  if String.eqb name "INTERVIEW_TIMEOUT" then Some "120"
  else if String.eqb name "XDG_STATE_HOME" then Some EmptyString
  else None.

(** A file system that holds the configuration file and nothing else. *)
Definition config_only (content : string) : string -> option string :=
  fun p =>
    if String.eqb p "/home/u/.config/interview/config.json" then Some content
    else None.

(** The values of a command line that gives no option. *)
Definition no_flags : cli.Values :=
  {| cli.timeout := None; cli.theme := None; cli.mode := None;
     cli.port := None; cli.open := true; cli.browser := None;
     cli.snapshot_dir := None; cli.save := true; cli.stdin := false;
     cli.pretty := false; cli.quiet := false; cli.verbose := false;
     cli.version := false; cli.help := false |}.

(** [interview --timeout 30 --port 8080 --no-save questions.json] *)
Definition some_flags : cli.Values :=
  {| cli.timeout := Some "30"; cli.theme := None; cli.mode := None;
     cli.port := Some "8080"; cli.open := true; cli.browser := None;
     cli.snapshot_dir := None; cli.save := false; cli.stdin := false;
     cli.pretty := false; cli.quiet := false; cli.verbose := false;
     cli.version := false; cli.help := false |}.

(** [interview --port 70000 q.json] *)
Definition bad_port : cli.Values :=
  {| cli.timeout := None; cli.theme := None; cli.mode := None;
     cli.port := Some "70000"; cli.open := true; cli.browser := None;
     cli.snapshot_dir := None; cli.save := true; cli.stdin := false;
     cli.pretty := false; cli.quiet := false; cli.verbose := false;
     cli.version := false; cli.help := false |}.

(** A file system that holds the document of tests/lib.test.ts as
    /work/questions.json and nothing else. *)
Definition questions_file : string -> option string := fun p =>
  if String.eqb p "/work/questions.json"
  then Some (json_text
               "{'questions':[{'id':'q1','type':'text','question':'Test?'}]}")
  else None.

(** The options of a caller that names this file and passes a signal that
    is already aborted. *)
Definition aborted_path_options : lib.InterviewOptions :=
  {| lib.questions := VUndefined; lib.questionsPath := Some "questions.json";
     lib.opt_timeout := None; lib.theme := None; lib.port := None;
     lib.open := None; lib.browser := None; lib.snapshotDir := None;
     lib.autoSave := None; lib.savedAnswers := VUndefined;
     lib.opt_cwd := None;
     lib.signal := Some {| lib.signal_aborted := true |};
     lib.verbose := None; lib.onReady := true; lib.onQueued := true |}.

(** [interview --timeout '' questions.json] *)
Definition empty_timeout : cli.Values :=
  {| cli.timeout := Some EmptyString; cli.theme := None; cli.mode := None;
     cli.port := None; cli.open := true; cli.browser := None;
     cli.snapshot_dir := None; cli.save := true; cli.stdin := false;
     cli.pretty := false; cli.quiet := false; cli.verbose := false;
     cli.version := false; cli.help := false |}.

(** What [main] passes to [interview] for a path alone, in an environment
    that sets the timeout to 120 seconds. *)
Definition call_from_env : cli.Call :=
  {| cli.questions := VUndefined;
     cli.questionsPath := Some "questions.json";
     cli.call_timeout := VNumber 120 0;
     cli.theme_name := VUndefined; cli.theme_mode := VUndefined;
     cli.theme_lightPath := VUndefined; cli.theme_darkPath := VUndefined;
     cli.theme_toggleHotkey := VUndefined;
     cli.call_port := VUndefined; cli.call_open := true;
     cli.call_browser := VUndefined; cli.call_snapshotDir := VUndefined;
     cli.call_autoSave := VBool true; cli.call_verbose := false |}.

(** No flag of the configuration is given. *)
Definition no_config : config.InterviewConfig :=
  {| config.timeout := VUndefined; config.theme := VUndefined;
     config.mode := VUndefined; config.port := VUndefined;
     config.browser := VUndefined; config.snapshotDir := VUndefined;
     config.autoSave := VUndefined; config.toggleHotkey := VUndefined;
     config.lightPath := VUndefined; config.darkPath := VUndefined |}.

(** A saved interview: one text question, one answer that names an image
    beside the snapshot, and where it was saved from. *)
Definition snapshot : string :=
  json_text
    ("<html><script type='application/json' id='pi-interview-data'>"
     +:+ "{'title':'T',"
     +:+ "'questions':[{'id':'q1','type':'text','question':'Name?'}],"
     +:+ "'savedAnswers':[{'id':'q1','value':'a.png'}],"
     +:+ "'savedAt':'2026-02-16T10:00:00Z','wasSubmitted':true,"
     +:+ "'savedFrom':{'cwd':'/work','branch':null,'sessionId':'sid'}}"
     +:+ "</script></html>").


(** The answers of a session, parsed into an empty store: the list is the
    last cell. *)
Definition answers : heap :=
  fst (JSON.parse
         (json_text
            ("[{'id':'q1','value':'a.png'},"
             +:+ "{'id':'q2','value':['b.png','/c.png']}]"))
         []).

(** A document with a chart, a code block and a conviction, parsed into an
    empty store. *)
Definition rich_document : heap * result value :=
  JSON.parse
    (json_text
       ("{'questions':[{'id':'q1','type':'single','question':'Pick?',"
        +:+ "'options':['A',{'label':'B',"
        +:+ "'code':{'code':'x','highlights':[1,2]}}],"
        +:+ "'recommended':'B','conviction':'strong','weight':'minor',"
        +:+ "'media':{'type':'table','table':{'headers':['h'],'rows':[]},"
        +:+ "'position':'side'}}]}"))
    [].

End samples.

(* ===================================================================== *)
(** ** Facts about src/schema.ts *)
(* ===================================================================== *)

Section SchemaFacts.

Import schema.

(** *** Inversion of the checks *)

Lemma bind_Ok {A B} (m : result A) (k : A -> result B) b :
  JS.bind m k = Ok b -> exists a, m = Ok a /\ k a = Ok b.
Proof. destruct m as [a|e]; [eauto | discriminate]. Qed.

Lemma check_Ok {B} c msg (k : unit -> result B) b :
  JS.bind (throw_if c msg) k = Ok b -> c = false /\ k tt = Ok b.
Proof. destruct c; [discriminate | auto]. Qed.

Lemma for_indexed_Ok {A} (body : value -> nat -> result A) start xs x :
  for_indexed body start xs = Ok tt -> x ∈ xs ->
  exists j a, body x j = Ok a.
Proof.
  revert start. induction xs as [|y xs IH]; intros start H Hin.
  - inversion Hin.
  - simpl in H. apply bind_Ok in H as (a & Ha & H).
    apply elem_of_cons in Hin as [-> | Hin]; [eauto | eapply IH; eauto].
Qed.

(** *** What the store says about a value with a string property *)

Lemma string_property_is_object h v k :
  is_string (get h v k) = true ->
  exists l m, v = VRef l /\ h !! l = Some (CObj m).
Proof.
  unfold get. destruct v as [| | | | |l]; try discriminate.
  destruct (h !! l) as [[m|xs]|] eqn:E; try discriminate.
  - eauto.
  - destruct (String.eqb k "length"); discriminate.
Qed.

(** *** [validateBasicStructure] *)

Lemma validateQuestionStructure_id h q i :
  validateQuestionStructure h q i = Ok tt -> is_string (get h q "id") = true.
Proof.
  unfold validateQuestionStructure. intros H.
  apply check_Ok in H as [_ H]. apply check_Ok in H as [H _].
  apply negb_false_iff, H.
Qed.

Lemma validateBasicStructure_Ok h data parsed :
  validateBasicStructure h data = Ok parsed ->
  parsed = data
  /\ exists qs, as_array h (get h data "questions") = Some qs
                /\ qs <> []
                /\ forall q, q ∈ qs -> is_string (get h q "id") = true.
Proof.
  unfold validateBasicStructure. intros H.
  do 5 (apply check_Ok in H as [_ H]).
  destruct (as_array h (get h data "questions")) as [[|q qs]|]; try discriminate.
  apply bind_Ok in H as ([] & Hloop & H). injection H as <-.
  split; [reflexivity|]. exists (q :: qs). repeat split; [discriminate|].
  intros q' Hin.
  destruct (for_indexed_Ok _ _ _ _ Hloop Hin) as (j & [] & Hq).
  eapply validateQuestionStructure_id, Hq.
Qed.

(** *** The first loop: the ids differ *)

Lemma same_value_zero_refl v : same_value_zero v v = true.
Proof.
  destruct v; simpl; rewrite ?bool_decide_eq_true_2 by reflexivity;
    rewrite ?orb_true_r; reflexivity.
Qed.

Lemma includes_elem xs x : x ∈ xs -> includes xs x = true.
Proof.
  unfold includes. induction 1 as [x xs | x y xs _ IH]; simpl.
  - rewrite same_value_zero_refl. reflexivity.
  - rewrite IH. apply orb_true_r.
Qed.

Lemma checkDuplicateIds_NoDup h ids qs :
  checkDuplicateIds h ids qs = Ok tt ->
  NoDup ((fun q => get h q "id") <$> qs)
  /\ forall q, q ∈ qs -> get h q "id" ∉ ids.
Proof.
  revert ids. induction qs as [|q qs IH]; intros ids H.
  - split; [constructor | inversion 1].
  - simpl in H. apply check_Ok in H as [Hq H].
    destruct (IH _ H) as [ND Hout]. split.
    + rewrite fmap_cons. constructor; [|exact ND].
      intros Hin. apply list_elem_of_fmap in Hin as (q' & E & Hin).
      apply (Hout q' Hin). rewrite <- E. apply elem_of_app. right. left.
    + intros q' Hin Hids. apply elem_of_cons in Hin as [-> | Hin].
      * rewrite (includes_elem _ _ Hids) in Hq. discriminate.
      * apply (Hout q' Hin). apply elem_of_app. left. exact Hids.
Qed.

(** *** The body of the second loop *)

(** What the body can do to the store: nothing, or append the array
    [[q.recommended]], or append it and assign it to [q.recommended]. *)
Lemma validateQuestionSemantics_store q h :
  let c := CArr [get h q "recommended"] in
  fst (validateQuestionSemantics q h) = h
  \/ fst (validateQuestionSemantics q h) = h ++ [c]
  \/ fst (validateQuestionSemantics q h)
     = fst (set q "recommended" (VRef (length h)) (h ++ [c])).
Proof.
  intros c. unfold validateQuestionSemantics, bindM, lift, ret, alloc.
  repeat match goal with
         | |- context [match ?x with _ => _ end] =>
             lazymatch x with
             | context [match _ with _ => _ end] => fail
             | _ => destruct x eqn:?
             end
         end; simpl in *; try discriminate; auto.
Qed.

Lemma bindM_lift_Ok {A B} (r : result A) (k : A -> M B) h h' b :
  bindM (lift r) k h = (h', Ok b) -> exists a, r = Ok a /\ k a h = (h', Ok b).
Proof.
  unfold bindM, lift. destruct r as [a|e]; [eauto | discriminate].
Qed.

Lemma set_length v k x h : length (fst (set v k x h)) = length h.
Proof.
  unfold set. destruct v; try reflexivity.
  destruct (h !! l) as [[m|xs]|]; try reflexivity.
  simpl. apply length_insert.
Qed.

Lemma set_lookup_other v k x h l :
  v <> VRef l -> fst (set v k x h) !! l = h !! l.
Proof.
  intros Hne. unfold set. destruct v as [| | | | |l']; try reflexivity.
  destruct (h !! l') as [[m|xs]|]; try reflexivity.
  simpl. apply list_lookup_insert_ne. congruence.
Qed.

(** The body grows the store and leaves every cell but that of [q] as it
    was. *)
Lemma validateQuestionSemantics_frame q h :
  length h <= length (fst (validateQuestionSemantics q h))
  /\ forall l, l < length h -> q <> VRef l ->
               fst (validateQuestionSemantics q h) !! l = h !! l.
Proof.
  destruct (validateQuestionSemantics_store q h) as [-> | [-> | ->]].
  - auto.
  - rewrite length_app. split; [lia|].
    intros l Hl _. apply lookup_app_l, Hl.
  - rewrite set_length, length_app. split; [lia|].
    intros l Hl Hne. rewrite set_lookup_other by assumption.
    apply lookup_app_l, Hl.
Qed.

(** On a multi question whose [recommended] is a string, a body that
    returns has replaced the string by a new one-element array. *)
Lemma validateQuestionSemantics_wraps q h h' s :
  validateQuestionSemantics q h = (h', Ok tt) ->
  get h q "type" = VString "multi" ->
  get h q "recommended" = VString s ->
  get h' q "recommended" = VRef (length h)
  /\ h' !! length h = Some (CArr [VString s]).
Proof.
  intros H T R.
  destruct (string_property_is_object h q "type") as (l & m & -> & Hl).
  { rewrite T. reflexivity. }
  assert (Hlt : l < length h) by (eapply lookup_lt_Some, Hl).
  unfold validateQuestionSemantics in H. rewrite T, R in H.
  rewrite (bool_decide_eq_false_2 (VString "multi" = VString "single")) in H
    by discriminate.
  rewrite (bool_decide_eq_false_2 (VString "multi" = VString "text")) in H
    by discriminate.
  rewrite (bool_decide_eq_false_2 (VString "multi" = VString "image")) in H
    by discriminate.
  rewrite (bool_decide_eq_false_2 (VString "multi" = VString "info")) in H
    by discriminate.
  rewrite (bool_decide_eq_true_2 (VString "multi" = VString "multi")) in H
    by reflexivity.
  apply bindM_lift_Ok in H as ([] & _ & H).
  change (is_undefined (VString s)) with false in H. cbv iota in H.
  apply bindM_lift_Ok in H as ([] & _ & H).
  cbv zeta in H.
  apply bindM_lift_Ok in H as ([] & _ & H).
  change (isArray h (VString s)) with false in H.
  cbv iota in H. unfold bindM at 1 in H. unfold alloc at 1 in H.
  apply bindM_lift_Ok in H as ([] & _ & H).
  change (negb false) with true in H. cbv iota in H.
  unfold set in H. rewrite lookup_app_l in H by exact Hlt. rewrite Hl in H.
  injection H as <-. split.
  - unfold get. rewrite list_lookup_insert_eq
      by (rewrite length_app; simpl; lia).
    rewrite lookup_insert_eq. reflexivity.
  - rewrite list_lookup_insert_ne by lia.
    rewrite lookup_app_r by lia. rewrite Nat.sub_diag. reflexivity.
Qed.

(** *** The second loop *)

Lemma for_of_frame qs h :
  length h <= length (fst (for_of validateQuestionSemantics qs h))
  /\ forall l, l < length h -> VRef l ∉ qs ->
               fst (for_of validateQuestionSemantics qs h) !! l = h !! l.
Proof.
  revert h. induction qs as [|q qs IH]; intros h; [auto|].
  simpl. unfold bindM.
  destruct (validateQuestionSemantics_frame q h) as [Hlen Hframe].
  destruct (validateQuestionSemantics q h) as [h1 [[]|e]] eqn:E; simpl in *.
  - destruct (IH h1) as [Hlen' Hframe']. split; [lia|].
    intros l Hl Hnot. rewrite Hframe' by
      (first [lia | intros Hin; apply Hnot; right; exact Hin]).
    apply Hframe; [exact Hl|]. intros ->. apply Hnot. left.
  - split; [exact Hlen|]. intros l Hl Hnot. apply Hframe; [exact Hl|].
    intros ->. apply Hnot. left.
Qed.

Lemma get_same_cell h h' l k :
  h' !! l = h !! l -> get h' (VRef l) k = get h (VRef l) k.
Proof. unfold get. intros ->. reflexivity. Qed.

Lemma for_of_wraps qs h h' :
  for_of validateQuestionSemantics qs h = (h', Ok tt) ->
  NoDup qs ->
  (forall q, q ∈ qs -> exists l, q = VRef l /\ l < length h) ->
  forall q s,
    q ∈ qs ->
    get h q "type" = VString "multi" ->
    get h q "recommended" = VString s ->
    as_array h' (get h' q "recommended") = Some [VString s].
Proof.
  revert h. induction qs as [|q0 qs IH]; intros h H ND Hrefs q s Hin T R.
  - inversion Hin.
  - simpl in H. unfold bindM in H.
    destruct (validateQuestionSemantics_frame q0 h) as [Hlen Hframe].
    destruct (validateQuestionSemantics q0 h) as [h1 [[]|e]] eqn:E;
      [|discriminate].
    simpl in Hlen, Hframe.
    apply NoDup_cons in ND as [Hq0 ND].
    destruct (for_of_frame qs h1) as [Hlen' Hframe']. rewrite H in *.
    simpl in Hlen', Hframe'.
    apply elem_of_cons in Hin as [-> | Hin].
    + (* the question of this iteration: its cell and the new array, which
         is no question, stay as they are to the end of the loop *)
      destruct (validateQuestionSemantics_wraps _ _ _ _ E T R) as [G A].
      destruct (Hrefs q0) as (l & -> & Hl); [left|].
      assert (Hnew : length h < length h1) by (eapply lookup_lt_Some, A).
      rewrite (get_same_cell h1 h') by (apply Hframe'; [lia | exact Hq0]).
      rewrite G. unfold as_array. rewrite Hframe', A; [reflexivity | lia |].
      intros Hnot. destruct (Hrefs (VRef (length h))) as (a & [= <-] & Ha);
        [right; exact Hnot | lia].
    + (* a later question *)
      destruct (Hrefs q) as (l & -> & Hl); [right; exact Hin|].
      assert (Hne : q0 <> VRef l) by (intros ->; apply Hq0, Hin).
      assert (C : h1 !! l = h !! l) by (apply Hframe; assumption).
      apply (IH h1 H ND); try assumption.
      * intros q' Hq'. destruct (Hrefs q') as (l' & -> & Hl');
          [right; exact Hq'|]. exists l'. split; [reflexivity | lia].
      * rewrite (get_same_cell _ _ _ _ C). exact T.
      * rewrite (get_same_cell _ _ _ _ C). exact R.
Qed.

(** [v.k = x] changes no array and no property but [k]. *)
Lemma set_keeps v k x h l :
  as_array (fst (set v k x h)) (VRef l) = as_array h (VRef l)
  /\ forall k', k' <> k ->
       get (fst (set v k x h)) (VRef l) k' = get h (VRef l) k'.
Proof.
  unfold set. destruct v as [| | | | |l0]; auto.
  destruct (h !! l0) as [[m|xs]|] eqn:E; auto. simpl.
  destruct (decide (l0 = l)) as [-> | Hne].
  - assert (l < length h) by (eapply lookup_lt_Some, E).
    unfold as_array, get. rewrite list_lookup_insert_eq, E by assumption.
    split; [reflexivity|]. intros k' Hk. rewrite lookup_insert_ne by congruence.
    reflexivity.
  - unfold as_array, get. rewrite list_lookup_insert_ne by assumption. auto.
Qed.

Lemma app_keeps (h : heap) c l :
  l < length h ->
  as_array (h ++ [c]) (VRef l) = as_array h (VRef l)
  /\ forall k, get (h ++ [c]) (VRef l) k = get h (VRef l) k.
Proof.
  intros Hl. unfold as_array, get. rewrite lookup_app_l by assumption. auto.
Qed.

(** The body changes no array of the store it was entered with, and no
    property of its objects but [recommended]. *)
Lemma validateQuestionSemantics_keeps q h l :
  l < length h ->
  as_array (fst (validateQuestionSemantics q h)) (VRef l) = as_array h (VRef l)
  /\ forall k, k <> "recommended" ->
       get (fst (validateQuestionSemantics q h)) (VRef l) k = get h (VRef l) k.
Proof.
  intros Hl.
  destruct (validateQuestionSemantics_store q h) as [-> | [-> | ->]].
  - auto.
  - destruct (app_keeps h (CArr [get h q "recommended"]) l Hl) as [A G].
    split; [exact A | intros k _; apply G].
  - destruct (set_keeps q "recommended" (VRef (length h))
                (h ++ [CArr [get h q "recommended"]]) l) as [A G].
    destruct (app_keeps h (CArr [get h q "recommended"]) l Hl) as [A' G'].
    split; [congruence|]. intros k Hk. rewrite G by assumption. apply G'.
Qed.

Lemma for_of_keeps qs h l :
  l < length h ->
  as_array (fst (for_of validateQuestionSemantics qs h)) (VRef l)
  = as_array h (VRef l)
  /\ forall k, k <> "recommended" ->
       get (fst (for_of validateQuestionSemantics qs h)) (VRef l) k
       = get h (VRef l) k.
Proof.
  revert h. induction qs as [|q qs IH]; intros h Hl; [auto|].
  simpl. unfold bindM.
  destruct (validateQuestionSemantics_keeps q h l Hl) as [A G].
  destruct (validateQuestionSemantics_frame q h) as [Hlen _].
  destruct (validateQuestionSemantics q h) as [h1 [[]|e]]; simpl in *.
  - destruct (IH h1) as [A' G']; [lia|].
    split; [congruence|]. intros k Hk. rewrite G', G by assumption. reflexivity.
  - auto.
Qed.

(** C10.  When [validateQuestions] accepts a document, what it returns is
    the reference it was given, an object of the store: the document is
    normalized in place and not copied.  In the store it leaves, every
    question of type multi whose [recommended] was a single string has for
    [recommended] an array holding exactly that string.  Nothing else of
    the document has changed: every array of the store and every property
    other than [recommended] is as before, so the document still has the
    same list of question objects. *)
Theorem validateQuestions_normalizes_in_place (data r : value) (h h' : heap)
    (Haccepted : validateQuestions data h = (h', Ok r)) :
  r = data
  /\ (exists l, data = VRef l /\ l < length h)
  /\ (forall qs q s,
        as_array h (get h data "questions") = Some qs ->
        q ∈ qs ->
        get h q "type" = VString "multi" ->
        get h q "recommended" = VString s ->
        as_array h' (get h' q "recommended") = Some [VString s])
  /\ (forall l, l < length h ->
        as_array h' (VRef l) = as_array h (VRef l)
        /\ forall k, k <> "recommended" ->
             get h' (VRef l) k = get h (VRef l) k).
Proof.
  unfold validateQuestions in Haccepted.
  destruct (validateBasicStructure h data) as [parsed|e] eqn:B; [|discriminate].
  destruct (validateBasicStructure_Ok _ _ _ B) as (-> & qs & Hqs & Hne & Hids).
  rewrite Hqs in Haccepted. simpl in Haccepted.
  destruct (checkDuplicateIds h [] qs) as [[]|e] eqn:D; [|discriminate].
  unfold bindM, ret in Haccepted.
  destruct (for_of validateQuestionSemantics qs h) as [h1 [[]|e]] eqn:L;
    [|discriminate].
  injection Haccepted as <- <-.
  assert (Hrefs : forall q, q ∈ qs -> exists l, q = VRef l /\ l < length h).
  { intros q Hin.
    destruct (string_property_is_object h q "id" (Hids q Hin))
      as (l & m & -> & Hl).
    exists l. split; [reflexivity|]. eapply lookup_lt_Some, Hl. }
  split; [reflexivity|]. split; [|split].
  - destruct qs as [|q qs]; [congruence|].
    unfold as_array, get in Hqs.
    destruct data as [| | | | |l]; try discriminate.
    exists l. split; [reflexivity|].
    destruct (h !! l) eqn:E; [eapply lookup_lt_Some, E | discriminate].
  - intros qs' q s Hqs' Hin T R.
    rewrite Hqs in Hqs'. injection Hqs' as <-.
    eapply for_of_wraps; eauto.
    destruct (checkDuplicateIds_NoDup _ _ _ D) as [ND _].
    eapply NoDup_fmap_1, ND.
  - intros l Hl. pose proof (for_of_keeps qs h l Hl) as K.
    rewrite L in K. exact K.
Qed.

End SchemaFacts.

Lemma validateQuestions_normalizes_in_place_witness :
  snd (schema.validateQuestions (VRef 6) examples.multi_document) = Ok (VRef 6)
  /\ as_array (fst (schema.validateQuestions (VRef 6) examples.multi_document))
       (get (fst (schema.validateQuestions (VRef 6) examples.multi_document))
          (VRef 1) "recommended")
     = Some [VString "X"].
Proof.
  assert (Haccepted :
            schema.validateQuestions (VRef 6) examples.multi_document
            = (fst (schema.validateQuestions (VRef 6) examples.multi_document),
               Ok (VRef 6))).
  { vm_compute. reflexivity. }
  split.
  - vm_compute. reflexivity.
  - refine (proj1 (proj2 (proj2
              (validateQuestions_normalizes_in_place _ _ _ _ Haccepted)))
              [VRef 1; VRef 4] (VRef 1) "X" _ _ _ _).
    + vm_compute. reflexivity.
    + left.
    + vm_compute. reflexivity.
    + vm_compute. reflexivity.
Defined.
(* ===================================================================== *)
(** ** Facts about src/loader.ts *)
(* ===================================================================== *)

Section PathRule.

Import loader.

Variable homedir : string.

Lemma includes_empty needle :
  needle <> EmptyString -> Str.includes EmptyString needle = false.
Proof. destruct needle; [congruence | reflexivity]. Qed.

(** Node's [path.normalize] and [path.join] keep a path absolute. *)
Lemma normalize_absolute p :
  path.isAbsolute p = true -> path.isAbsolute (path.normalize p) = true.
Proof.
  intros A. unfold path.normalize. rewrite A.
  destruct (String.eqb p EmptyString) eqn:E.
  - apply String.eqb_eq in E. subst p. discriminate A.
  - destruct (String.eqb (path.normalizeString p (negb true)) EmptyString);
      reflexivity.
Qed.

Lemma join_absolute baseDir p :
  path.isAbsolute baseDir = true ->
  path.isAbsolute (path.join [baseDir; p]) = true.
Proof.
  intros A. destruct baseDir as [|c b]; [discriminate|].
  unfold path.join. rewrite filter_cons, decide_True by discriminate.
  apply normalize_absolute.
  destruct (filter _ [p]) as [|x xs]; exact A.
Qed.

Lemma expandHome_plain p : tilde_path p = false -> expandHome homedir p = p.
Proof.
  unfold tilde_path, expandHome. intros H.
  apply orb_false_elim in H as [H H3].
  apply orb_false_elim in H as [H1 H2].
  rewrite H1, H2, H3. reflexivity.
Qed.

Lemma absolute_not_tilde p : path.isAbsolute p = true -> tilde_path p = false.
Proof.
  destruct p as [|c p]; [discriminate|]. simpl. intros H.
  apply Ascii.eqb_eq in H. subst c. reflexivity.
Qed.



(** A string answer that is no path at all, neither empty nor absolute nor
    starting with a tilde and holding no [://], is rewritten by the decoder
    into a path under the snapshot's directory. *)
Lemma plain_text_answer_is_rewritten (s baseDir : string) (h : heap) :
  s <> EmptyString -> Str.includes s "://" = false ->
  path.isAbsolute s = false -> tilde_path s = false ->
  resolvePathValue homedir (VString s) baseDir h
  = (h, Ok (VString (path.join [baseDir; s]))).
Proof.
  intros N I A T. unfold resolvePathValue. simpl.
  rewrite (proj2 (String.eqb_neq s EmptyString) N). simpl.
  unfold lift, resolveImagePath.
  rewrite (proj2 (String.eqb_neq s EmptyString) N), I,
    (expandHome_plain _ T), A.
  reflexivity.
Qed.

End PathRule.

Section Decoding.

Import loader.

Variable homedir : string.

(** *** The delimiter *)

Lemma strip_ci_app pat a r b :
  strip_ci pat a = Some r -> strip_ci pat (a +:+ b) = Some (r +:+ b).
Proof.
  revert a. induction pat as [|c pat IH]; intros a H.
  - simpl in *. congruence.
  - destruct a as [|d a]; [discriminate|]. simpl in *.
    destruct (Ascii.eqb (lower c) (lower d)); [|discriminate].
    apply IH, H.
Qed.

Lemma occurs_find pat s : occurs_ci pat s -> is_Some (find_ci pat s).
Proof.
  intros (before & rest & -> & [r Hr]).
  induction before as [|c before IH].
  - simpl. destruct rest; simpl; rewrite Hr; eauto.
  - simpl. destruct (strip_ci pat (String c (before +:+ rest))); [eauto|].
    destruct IH as [[x y] ->]. simpl. eauto.
Qed.

Lemma occurs_later pat c s : occurs_ci pat s -> occurs_ci pat (String c s).
Proof.
  intros (before & rest & -> & H). exists (String c before), rest. auto.
Qed.

Lemma occurs_app_l pat a b : occurs_ci pat a -> occurs_ci pat (a +:+ b).
Proof.
  intros (before & rest & -> & [r Hr]).
  exists before, (rest +:+ b). split.
  - clear. induction before as [|c before IH]; [reflexivity|].
    change (String c ((before +:+ rest) +:+ b)
            = String c (before +:+ (rest +:+ b))).
    f_equal. exact IH.
  - rewrite (strip_ci_app _ _ _ b Hr). eauto.
Qed.

Lemma occurs_stripped pat0 pat s r :
  strip_ci pat0 s = Some r -> occurs_ci pat r -> occurs_ci pat s.
Proof.
  revert s. induction pat0 as [|c pat0 IH]; intros s H O.
  - simpl in H. congruence.
  - destruct s as [|d s]; [discriminate|]. simpl in H.
    destruct (Ascii.eqb (lower c) (lower d)); [|discriminate].
    apply occurs_later, (IH _ H O).
Qed.

Lemma split_gt_app s tag body :
  split_gt s = Some (tag, body) -> s = tag +:+ String ">" body.
Proof.
  revert tag body. induction s as [|c s IH]; intros tag body H; [discriminate|].
  simpl in H. destruct (Ascii.eqb c ">") eqn:E.
  - apply Ascii.eqb_eq in E. subst c. injection H as <- <-. reflexivity.
  - destruct (split_gt s) as [[b a]|]; [|discriminate].
    simpl in H. injection H as <- <-.
    change (String c s = String c (b +:+ String ">" a)).
    f_equal. apply IH. reflexivity.
Qed.

Lemma id_attr_in_occurs s :
  id_attr_in s = true -> occurs_ci "pi-interview-data" s.
Proof.
  induction s as [|c s IH].
  - simpl. unfold id_attr_here. simpl. discriminate.
  - intros H. unfold id_attr_in in H; fold id_attr_in in H.
    apply orb_true_iff in H as [H | H].
    + unfold id_attr_here in H.
      destruct (strip_ci "id=" (String c s)) as [[|q1 s1]|] eqn:E;
        try discriminate.
      apply andb_true_iff in H as [_ H].
      destruct (strip_ci "pi-interview-data" s1) eqn:E1; [|discriminate].
      eapply occurs_stripped; [exact E|].
      apply occurs_later. exists EmptyString, s1. split; [reflexivity|eauto].
    + apply occurs_later, IH, H.
Qed.

Lemma match_here_occurs s group :
  match_here s = Some group -> occurs_ci "pi-interview-data" s.
Proof.
  unfold match_here. intros H.
  destruct (strip_ci "<script" s) as [tag_rest|] eqn:E; [|discriminate].
  simpl in H.
  destruct (split_gt tag_rest) as [[tag body]|] eqn:G; [|discriminate].
  simpl in H. destruct tag as [|c tag']; [discriminate|].
  destruct (id_attr_in tag') eqn:I; [|discriminate].
  eapply occurs_stripped; [exact E|].
  rewrite (split_gt_app _ _ _ G).
  apply occurs_app_l, occurs_later, id_attr_in_occurs, I.
Qed.

(** A document that nowhere holds the tag of the data block has no match. *)
Lemma match_data_needs_tag html :
  find_ci "pi-interview-data" html = None -> match_data html = None.
Proof.
  intros F. destruct (match_data html) as [group|] eqn:M; [|reflexivity].
  exfalso.
  assert (O : occurs_ci "pi-interview-data" html).
  { clear F. induction html as [|c html IH].
    - simpl in M. discriminate.
    - unfold match_data in M; fold match_data in M.
      destruct (match_here (String c html)) eqn:H.
      + eapply match_here_occurs, H.
      + apply occurs_later, IH, M. }
  apply occurs_find in O. rewrite F in O. destruct O; discriminate.
Qed.

(** C6.  Decoding a document in which the data block is not found fails
    with the error for missing embedded data, leaving the store as it was;
    that is so in particular for every document that nowhere holds the tag
    of the block.  Decoding a document whose block is found but is not
    parseable as JSON fails with the error for malformed JSON.  The two
    errors differ. *)
Theorem decoding_failures_are_distinguished (html filePath : string) (h : heap) :
  (match_data html = None ->
   loadSavedInterview homedir html filePath h = (h, Throw (Error MISSING_DATA)))
  /\ (find_ci "pi-interview-data" html = None ->
      loadSavedInterview homedir html filePath h
      = (h, Throw (Error MISSING_DATA)))
  /\ (forall block e,
        match_data html = Some block ->
        snd (JSON.parse block h) = Throw e ->
        snd (loadSavedInterview homedir html filePath h)
        = Throw (Error MALFORMED_JSON))
  /\ MISSING_DATA <> MALFORMED_JSON.
Proof.
  assert (A : match_data html = None ->
              loadSavedInterview homedir html filePath h
              = (h, Throw (Error MISSING_DATA))).
  { intros M. unfold loadSavedInterview. rewrite M. reflexivity. }
  repeat split.
  - exact A.
  - intros F. apply A, match_data_needs_tag, F.
  - intros block e M P. unfold loadSavedInterview. rewrite M.
    destruct (JSON.parse block h) as [h1 [v|e']]; simpl in P;
      [discriminate | reflexivity].
  - discriminate.
Qed.

End Decoding.

Lemma decoding_failures_are_distinguished_witness :
  loader.loadSavedInterview "/home/u" "<html><body>Hello</body></html>"
    "/snap/index.html" []
  = ([], Throw (Error loader.MISSING_DATA))
  /\ snd (loader.loadSavedInterview "/home/u"
            "<script type='application/json' id='pi-interview-data'>{oops</script>"
            "/snap/index.html" [])
     = Throw (Error loader.MALFORMED_JSON).
Proof.
  split.
  - refine (proj1 (decoding_failures_are_distinguished "/home/u"
                     "<html><body>Hello</body></html>" "/snap/index.html" [])
              _).
    vm_compute. reflexivity.
  - refine (proj1 (proj2 (proj2
              (decoding_failures_are_distinguished "/home/u"
                 "<script type='application/json' id='pi-interview-data'>{oops</script>"
                 "/snap/index.html" [])))
              "{oops" (SyntaxError "Unexpected token in JSON") _ _).
    + vm_compute. reflexivity.
    + vm_compute. reflexivity.
Defined.

(** C4 at a failing input.  A session with one text question, answered
    hello, is encoded as a snapshot and the snapshot is loaded from
    /snap/index.html.  The question list comes back the same; the answer
    does not: the text hello has become the path /snap/hello. *)
Theorem roundtrip_rewrites_text_answer :
  match examples.text_snapshot_roundtrip with
  | (h, Ok (answers, loaded)) =>
      JSON.stringify h answers
      = Some (json_text "[{'id':'q1','value':'hello'}]")
      /\ JSON.stringify h (get h loaded "savedAnswers")
         = Some (json_text "[{'id':'q1','value':'/snap/hello'}]")
      /\ JSON.stringify h (get h loaded "questions")
         = Some (json_text "[{'id':'q1','question':'Name?','type':'text'}]")
      /\ get h loaded "title" = VString "T"
  | _ => False
  end.
Proof. vm_compute. repeat split; reflexivity. Qed.
(* ===================================================================== *)
(** ** Facts about src/lib.ts *)
(* ===================================================================== *)

Section LibFacts.

Import lib.

Variable options : InterviewOptions.
Variable sessionId : string.

Local Abbreviation step := (lib.step options sessionId).
Local Abbreviation steps := (lib.steps options sessionId).

Lemma resolutions_emit e s :
  resolutions (emit e s)
  = resolutions s ++ match e with Resolve r => [r] | _ => [] end.
Proof.
  unfold resolutions, emit; simpl. rewrite omap_app. simpl.
  destruct e; reflexivity.
Qed.

Lemma cleanup_resolved s : resolved (cleanup s) = resolved s.
Proof. unfold cleanup. destruct (server s); reflexivity. Qed.

Lemma cleanup_url s : st_url (cleanup s) = st_url s.
Proof. unfold cleanup. destruct (server s); reflexivity. Qed.

Lemma cleanup_resolutions s : resolutions (cleanup s) = resolutions s.
Proof.
  unfold cleanup. destruct (server s); [|reflexivity].
  rewrite resolutions_emit. apply app_nil_r.
Qed.

Lemma cleanup_server s : server (cleanup s) = None.
Proof. unfold cleanup. destruct (server s) eqn:E; [reflexivity | exact E]. Qed.

Lemma removeAbortListener_resolutions s :
  resolutions (removeAbortListener options s) = resolutions s.
Proof.
  unfold removeAbortListener. destruct (signal options); [|reflexivity].
  rewrite resolutions_emit. apply app_nil_r.
Qed.

Lemma removeAbortListener_url s :
  st_url (removeAbortListener options s) = st_url s.
Proof. unfold removeAbortListener. destruct (signal options); reflexivity. Qed.

Lemma removeAbortListener_resolved s :
  resolved (removeAbortListener options s) = resolved s.
Proof. unfold removeAbortListener. destruct (signal options); reflexivity. Qed.

(** [finish] on a session that is already resolved changes nothing. *)
Lemma finish_resolved st rs s :
  resolved s = true -> finish options st rs s = s.
Proof. intros H. unfold finish. rewrite H. reflexivity. Qed.

(** [finish] on a pending session resolves it, once, with the status and
    the responses it was given and the URL of that moment. *)
Lemma finish_pending st rs s :
  resolved s = false ->
  resolved (finish options st rs s) = true
  /\ server (finish options st rs s) = None
  /\ resolutions (finish options st rs s)
     = resolutions s ++ [{| status := st; responses := default [] rs;
                            url := st_url s |}].
Proof.
  intros H. unfold finish. rewrite H.
  set (s1 := {| server := server s; resolved := true; st_url := st_url s;
                effects := effects s |}).
  repeat split.
  - simpl. rewrite cleanup_resolved, removeAbortListener_resolved. reflexivity.
  - simpl. apply cleanup_server.
  - rewrite resolutions_emit, cleanup_resolutions,
      removeAbortListener_resolutions, cleanup_url, removeAbortListener_url.
    reflexivity.
Qed.

Lemma step_trigger_is_finish s ev :
  is_trigger ev = true ->
  step s ev = finish options (status_of ev) (Some (responses_of ev)) s.
Proof.
  destruct ev; simpl; try discriminate; intros _.
  - unfold handleAbort, finish. reflexivity.
  - reflexivity.
  - unfold onCancel. destruct (bool_decide (reason = Some "timeout")); reflexivity.
Qed.

(** An event that asks for no terminal transition leaves [resolved] and the
    resolutions as they are. *)
Lemma step_other s ev :
  is_trigger ev = false ->
  resolved (step s ev) = resolved s
  /\ resolutions (step s ev) = resolutions s.
Proof.
  destruct ev; simpl; try discriminate; intros _.
  - unfold onStarted. destruct (resolved s) eqn:R.
    + rewrite resolutions_emit, app_nil_r. auto.
    + destruct (onReady options);
        destruct (filter _ activeSessions);
        destruct (onQueued options); destruct (shouldOpen options);
        rewrite ?resolutions_emit, ?app_nil_r; simpl; auto.
  - unfold onOpenFailed. simpl.
    rewrite cleanup_resolved, resolutions_emit, cleanup_resolutions, app_nil_r.
    auto.
  - unfold onServerFailed. simpl.
    rewrite cleanup_resolved, resolutions_emit, cleanup_resolutions, app_nil_r.
    auto.
Qed.

Lemma steps_cons s ev evs : steps s (ev :: evs) = steps (step s ev) evs.
Proof. reflexivity. Qed.

Lemma steps_resolved s evs :
  resolved s = true ->
  resolved (steps s evs) = true /\ resolutions (steps s evs) = resolutions s.
Proof.
  revert s. induction evs as [|ev evs IH]; intros s R; [auto|].
  rewrite steps_cons. destruct (is_trigger ev) eqn:T.
  - rewrite step_trigger_is_finish, finish_resolved by assumption. auto.
  - destruct (step_other s ev T) as [R' Q'].
    destruct (IH (step s ev)) as [R'' Q'']; [congruence|].
    split; congruence.
Qed.

(** C1.  However many terminal-triggering events (submit, cancel, timeout,
    abort) reach a session and in whatever order, mixed with whatever else
    happens, the promise is resolved exactly once: with the status and the
    responses of the first of them.  Every later one is a no-op that
    leaves the whole state, and so the recorded outcome and responses, as
    they are.  With no such event nothing is recorded. *)
Theorem first_terminal_transition_wins (o : InterviewServerOptions)
    (evs : list Event) :
  match filter (fun ev => is_trigger ev = true) evs with
  | first :: _ =>
      resolved (steps (pending options o) evs) = true
      /\ exists u,
        resolutions (steps (pending options o) evs)
        = [{| status := status_of first; responses := responses_of first;
              url := u |}]
  | [] =>
      resolved (steps (pending options o) evs) = false
      /\ resolutions (steps (pending options o) evs) = []
  end
  /\ (forall s ev,
        resolved s = true -> is_trigger ev = true -> step s ev = s).
Proof.
  split.
  - assert (G : forall s,
              resolved s = false -> resolutions s = [] ->
              match filter (fun ev => is_trigger ev = true) evs with
              | first :: _ =>
                  resolved (steps s evs) = true
                  /\ exists u,
                    resolutions (steps s evs)
                    = [{| status := status_of first;
                          responses := responses_of first; url := u |}]
              | [] => resolved (steps s evs) = false
                      /\ resolutions (steps s evs) = []
              end).
    { induction evs as [|ev evs IH]; intros s R Q; [split; assumption|].
      rewrite filter_cons, steps_cons. destruct (is_trigger ev) eqn:T.
      - rewrite decide_True by reflexivity.
        rewrite step_trigger_is_finish by assumption.
        destruct (finish_pending (status_of ev) (Some (responses_of ev)) s R)
          as (R' & _ & Q').
        destruct (steps_resolved _ evs R') as [R'' Q''].
        split; [exact R''|]. exists (st_url s).
        rewrite Q'', Q', Q. reflexivity.
      - rewrite decide_False by discriminate.
        destruct (step_other s ev T) as [R' Q'].
        apply IH; congruence. }
    apply G; [reflexivity|].
    unfold pending, resolutions. simpl. rewrite omap_app.
    destruct (signal options); reflexivity.
  - intros s ev R T. rewrite step_trigger_is_finish by assumption.
    apply finish_resolved, R.
Qed.

End LibFacts.

Lemma first_terminal_transition_wins_witness :
  let s := lib.steps examples.signalled_options "second"
             (lib.pending examples.signalled_options examples.server_options)
             [lib.ServerStarted examples.a_handle [];
              lib.Submit [examples.answer_A];
              lib.Cancel (Some "timeout") None;
              lib.Abort] in
  lib.resolved s = true
  /\ exists u,
       lib.resolutions s
       = [{| lib.status := lib.completed;
             lib.responses := [examples.answer_A]; lib.url := u |}].
Proof.
  exact (proj1 (first_terminal_transition_wins examples.signalled_options "second"
                  examples.server_options
                  [lib.ServerStarted examples.a_handle [];
                   lib.Submit [examples.answer_A];
                   lib.Cancel (Some "timeout") None;
                   lib.Abort])).
Defined.

Section LibOutcomes.

Import lib.

Variable options : InterviewOptions.
Variable sessionId : string.

(** C3, as the code has it.  When a terminal transition fires on a pending
    session, the outcome carries what the handler was handed: [completed]
    the responses the server passed to [onSubmit]; [timeout] and
    [cancelled] the partial responses the server passed to [onCancel], or
    the empty list when it passed none; [aborted] the empty list. *)
Theorem terminal_outcome_responses (s : State) (Hpending : resolved s = false) :
  (forall rs,
     last (resolutions (onSubmit options rs s))
     = Some {| status := completed; responses := rs; url := st_url s |})
  /\ (forall partialResponses,
        last (resolutions (onCancel options (Some "timeout") partialResponses s))
        = Some {| status := timeout;
                  responses := default [] partialResponses;
                  url := st_url s |})
  /\ (forall reason partialResponses,
        reason <> Some "timeout" ->
        last (resolutions (onCancel options reason partialResponses s))
        = Some {| status := cancelled;
                  responses := default [] partialResponses;
                  url := st_url s |})
  /\ last (resolutions (handleAbort options s))
     = Some {| status := aborted; responses := []; url := st_url s |}.
Proof.
  split; [|split; [|split]]; unfold onSubmit, onCancel, handleAbort.
  - intros rs.
    destruct (finish_pending options completed (Some rs) s Hpending)
      as (_ & _ & ->).
    apply last_snoc.
  - intros partialResponses. rewrite bool_decide_eq_true_2 by reflexivity.
    destruct (finish_pending options timeout
                (Some (default [] partialResponses)) s Hpending) as (_ & _ & ->).
    apply last_snoc.
  - intros reason partialResponses Hreason.
    rewrite bool_decide_eq_false_2 by exact Hreason.
    destruct (finish_pending options cancelled
                (Some (default [] partialResponses)) s Hpending) as (_ & _ & ->).
    apply last_snoc.
  - destruct (finish_pending options aborted None s Hpending) as (_ & _ & ->).
    apply last_snoc.
Qed.

(** C7.  When the listener comes up on a pending session and the registry
    holds an entry of another session, [other] being the first such entry:
    nothing is opened and nothing is closed, the new session keeps its own
    handle and stays pending, and a caller that gave [onQueued] is told, as
    the last thing done, the id, title, working directory, branch and start
    time of [other] together with the new session's own URL.  The registry
    is only read. *)
Theorem queued_behind_first_other_session (s : State)
    (handle : InterviewServerHandle)
    (before after : list ActiveSession) (other : ActiveSession)
    (Hpending : resolved s = false)
    (Hbefore : Forall (fun a => as_id a = sessionId) before)
    (Hother : as_id other <> sessionId) :
  let s' := onStarted options sessionId handle (before ++ other :: after) s in
  let info := {| existingSession :=
                   {| es_id := as_id other; es_title := as_title other;
                      es_cwd := as_cwd other;
                      es_gitBranch := as_gitBranch other;
                      es_startedAt := as_startedAt other |};
                 queued_url := handle_url handle |} in
  effects s'
  = effects s
    ++ (if onReady options then [OnReady (handle_url handle)] else [])
    ++ (if onQueued options then [OnQueued info] else [])
  /\ (forall u b, OpenUrl u b ∉ drop (length (effects s)) (effects s'))
  /\ (forall h, Close h ∉ drop (length (effects s)) (effects s'))
  /\ server s' = Some handle
  /\ st_url s' = handle_url handle
  /\ resolved s' = false.
Proof.
  intros s' info.
  assert (F : filter (fun a => as_id a <> sessionId) (before ++ other :: after)
              = other :: filter (fun a => as_id a <> sessionId) after).
  { rewrite filter_app, filter_cons, decide_True by assumption.
    replace (filter _ before) with (@nil ActiveSession); [reflexivity|].
    symmetry. clear -Hbefore. induction Hbefore as [|a l Ha _ IH]; [reflexivity|].
    rewrite filter_cons, decide_False by (intros Hne; apply Hne, Ha). exact IH. }
  assert (E : effects s'
              = effects s
                ++ (if onReady options then [OnReady (handle_url handle)] else [])
                ++ (if onQueued options then [OnQueued info] else [])).
  { subst s' info. unfold onStarted. rewrite Hpending, F.
    destruct (onReady options), (onQueued options); simpl;
      rewrite <- ?app_assoc, ?app_nil_r; reflexivity. }
  split; [exact E|].
  assert (D : drop (length (effects s)) (effects s')
              = (if onReady options then [OnReady (handle_url handle)] else [])
                ++ (if onQueued options then [OnQueued info] else [])).
  { rewrite E, drop_app_length. reflexivity. }
  split; [|split; [|split; [|split]]].
  - intros u b. rewrite D.
    destruct (onReady options), (onQueued options); simpl;
      rewrite ?elem_of_cons, ?elem_of_nil; intuition discriminate.
  - intros h. rewrite D.
    destruct (onReady options), (onQueued options); simpl;
      rewrite ?elem_of_cons, ?elem_of_nil; intuition discriminate.
  - subst s'. unfold onStarted. rewrite Hpending, F.
    destruct (onReady options), (onQueued options); reflexivity.
  - subst s'. unfold onStarted. rewrite Hpending, F.
    destruct (onReady options), (onQueued options); reflexivity.
  - subst s'. unfold onStarted. rewrite Hpending, F.
    destruct (onReady options), (onQueued options); reflexivity.
Qed.

End LibOutcomes.

(** A session resumed with one saved answer is aborted by its owner: the
    outcome is [aborted] with no responses, not with the answer the session
    holds. *)
Lemma abort_drops_recorded_answers :
  let session := server.listen "second" "tok" ["q1"; "q2"] [examples.answer_A]
                   1700000005000 600 in
  let s := lib.steps examples.signalled_options "second"
             (lib.pending examples.signalled_options examples.server_options)
             [lib.ServerStarted examples.a_handle []; lib.Abort] in
  server.answers session = [examples.answer_A]
  /\ lib.resolutions s
     = [{| lib.status := lib.aborted; lib.responses := [];
           lib.url := "http://localhost:4000/?session=tok" |}]
  /\ ~ lib.outcome_carries (server.answers session) s.
Proof.
  cbv zeta. split; [reflexivity|]. split; [reflexivity|].
  intros [r [Hlast Hresp]]. vm_compute in Hlast.
  injection Hlast as <-. discriminate Hresp.
Qed.

Lemma terminal_outcome_responses_witness :
  last (lib.resolutions
          (lib.onCancel examples.plain_options (Some "timeout")
             (Some [examples.answer_A; examples.answer_B])
             (lib.pending examples.plain_options examples.server_options)))
  = Some {| lib.status := lib.timeout;
            lib.responses := [examples.answer_A; examples.answer_B];
            lib.url := EmptyString |}.
Proof.
  exact (proj1 (proj2 (terminal_outcome_responses examples.plain_options
                         (lib.pending examples.plain_options
                            examples.server_options) eq_refl))
           (Some [examples.answer_A; examples.answer_B])).
Defined.

Lemma queued_behind_first_other_session_witness :
  lib.effects
    (lib.onStarted examples.plain_options "second" examples.a_handle
       ([examples.own_session] ++ examples.first_session :: [])
       (lib.pending examples.plain_options examples.server_options))
  = [lib.StartInterviewServer examples.server_options;
     lib.OnReady "http://localhost:4000/?session=tok";
     lib.OnQueued
       {| lib.existingSession :=
            {| lib.es_id := "first"; lib.es_title := "Project Setup";
               lib.es_cwd := "/work/a"; lib.es_gitBranch := Some "main";
               lib.es_startedAt := 1700000000000 |};
          lib.queued_url := "http://localhost:4000/?session=tok" |}].
Proof.
  refine (proj1 (queued_behind_first_other_session examples.plain_options
                   "second"
                   (lib.pending examples.plain_options examples.server_options)
                   examples.a_handle [examples.own_session] []
                   examples.first_session eq_refl _ _)).
  - repeat constructor.
  - discriminate.
Defined.

Section StartContract.

Import lib.

Variable options : InterviewOptions.
Variable sessionId sessionToken : string.
Variable homedir : string.
Variable readFile : string -> option string.
Variable processCwd : string.

Local Abbreviation interview :=
  (lib.interview options sessionId sessionToken homedir readFile processCwd).

(** C8, as the code has it.  Without a question source the call is rejected
    with an error and the store is untouched.  With a signal that is
    already aborted the call never reaches [startInterviewServer], whatever
    the question source.  When the source is valid, be it the caller's own
    questions that [validateQuestions] accepts or a path that
    [loadQuestions] loads, the call is fulfilled at once with the outcome
    [aborted], no responses and an empty URL, which is a result and not an
    error.  When the source is invalid the call is rejected with the error
    of the validation or of the loading, aborted signal or not. *)
Theorem start_contract (h : heap) :
  (truthy (questions options) = false ->
   questionsPath options = None \/ questionsPath options = Some EmptyString ->
   interview h
   = (h, Rejected (Error "Either questions or questionsPath is required")))
  /\ (signal_aborted <$> signal options = Some true ->
      forall s, snd (interview h) <> Pending s)
  /\ (signal_aborted <$> signal options = Some true ->
      forall h' questionsData,
        truthy (questions options) = true ->
        schema.validateQuestions (questions options) h = (h', Ok questionsData) ->
        interview h = (h', Fulfilled aborted_at_start))
  /\ (signal_aborted <$> signal options = Some true ->
      forall h' p loaded,
        truthy (questions options) = false ->
        questionsPath options = Some p -> p <> EmptyString ->
        loader.loadQuestions homedir readFile p
          (default processCwd (opt_cwd options)) h = (h', Ok loaded) ->
        interview h = (h', Fulfilled aborted_at_start))
  /\ (forall h' e,
        truthy (questions options) = true ->
        schema.validateQuestions (questions options) h = (h', Throw e) ->
        interview h = (h', Rejected e))
  /\ (forall h' p e,
        truthy (questions options) = false ->
        questionsPath options = Some p -> p <> EmptyString ->
        loader.loadQuestions homedir readFile p
          (default processCwd (opt_cwd options)) h = (h', Throw e) ->
        interview h = (h', Rejected e)).
Proof.
  split; [|split; [|split; [|split; [|split]]]].
  - intros Hq Hp. unfold lib.interview. rewrite Hq.
    destruct Hp as [-> | ->]; reflexivity.
  - intros Hs s. unfold lib.interview.
    rewrite (bool_decide_eq_true_2 _ Hs).
    destruct (truthy (questions options)).
    + destruct (schema.validateQuestions _ h) as [h' [q|e]]; discriminate.
    + destruct (questionsPath options) as [p|]; [|discriminate].
      destruct (String.eqb p EmptyString); [discriminate|].
      destruct (loader.loadQuestions _ _ _ _ h) as [h' [q|e]]; discriminate.
  - intros Hs h' q Hq Hv. unfold lib.interview.
    rewrite Hq, Hv, (bool_decide_eq_true_2 _ Hs). reflexivity.
  - intros Hs h' p loaded Hq Hp Hne Hl. unfold lib.interview.
    rewrite Hq, Hp, (proj2 (String.eqb_neq p EmptyString) Hne), Hl,
      (bool_decide_eq_true_2 _ Hs).
    reflexivity.
  - intros h' e Hq Hv. unfold lib.interview. rewrite Hq, Hv. reflexivity.
  - intros h' p e Hq Hp Hne Hl. unfold lib.interview.
    rewrite Hq, Hp, (proj2 (String.eqb_neq p EmptyString) Hne), Hl.
    reflexivity.
Qed.

End StartContract.

(** The call of tests/lib.test.ts with valid questions and a signal that is
    already aborted: the promise is fulfilled with the outcome [aborted];
    it is not rejected. *)
Lemma aborted_signal_is_not_an_error :
  let options := examples.with_signal
                   (examples.with_questions examples.plain_options (VRef 2))
                   true in
  let started := snd (lib.interview options "second" "tok" "/home/u"
                        examples.no_files "/work"
                        (fst examples.MINIMAL_QUESTIONS)) in
  snd examples.MINIMAL_QUESTIONS = Ok (VRef 2)
  /\ started = lib.Fulfilled {| lib.status := lib.aborted; lib.responses := [];
                                lib.url := EmptyString |}
  /\ ~ lib.is_rejected started.
Proof.
  cbv zeta. split; [vm_compute; reflexivity|].
  assert (E : snd (lib.interview
                (examples.with_signal
                   (examples.with_questions examples.plain_options (VRef 2)) true)
                "second" "tok" "/home/u" examples.no_files "/work"
                (fst examples.MINIMAL_QUESTIONS))
              = lib.Fulfilled {| lib.status := lib.aborted; lib.responses := [];
                                 lib.url := EmptyString |}).
  { vm_compute. reflexivity. }
  split; [exact E|]. rewrite E. intros [e He]. discriminate He.
Qed.

Lemma start_contract_witness :
  lib.interview
    (examples.with_signal
       (examples.with_questions examples.plain_options (VRef 2)) true)
    "second" "tok" "/home/u" examples.no_files "/work"
    (fst examples.MINIMAL_QUESTIONS)
  = (fst examples.MINIMAL_QUESTIONS, lib.Fulfilled lib.aborted_at_start)
  /\ lib.interview samples.aborted_path_options "second" "tok" "/home/u"
       samples.questions_file "/work" []
     = (fst (loader.loadQuestions "/home/u" samples.questions_file
               "questions.json" "/work" []),
        lib.Fulfilled lib.aborted_at_start).
Proof.
  split.
  - refine (proj1 (proj2 (proj2 (start_contract
              (examples.with_signal
                 (examples.with_questions examples.plain_options (VRef 2)) true)
              "second" "tok" "/home/u" examples.no_files "/work"
              (fst examples.MINIMAL_QUESTIONS))))
              _ (fst examples.MINIMAL_QUESTIONS) (VRef 2) _ _).
    + reflexivity.
    + reflexivity.
    + vm_compute. reflexivity.
  - refine (proj1 (proj2 (proj2 (proj2 (start_contract
              samples.aborted_path_options
              "second" "tok" "/home/u" samples.questions_file "/work" []))))
              _ _ "questions.json" (VRef 2) _ _ _ _).
    + reflexivity.
    + reflexivity.
    + reflexivity.
    + discriminate.
    + vm_compute. reflexivity.
Defined.

Section ServerFacts.

Import server.

(** C2.  A request whose token is missing or is not the session's is
    answered [AccessDenied] and leaves the session as it is: its state, its
    answers and its heartbeat stamp.  This holds on every route and for
    every payload, so also where the request would fail another check: a
    submit that lacks required answers is denied, not called invalid. *)
Theorem bad_token_is_denied (now : Z) (s : Session) (r : Request)
    (Htoken : req_token r <> Some (token s)) :
  handle now s r = (s, AccessDenied)
  /\ state (fst (handle now s r)) = state s
  /\ answers (fst (handle now s r)) = answers s
  /\ lastHeartbeat (fst (handle now s r)) = lastHeartbeat s
  /\ (forall payload,
        route r = Submit payload -> complete s payload = false ->
        snd (handle now s r) = AccessDenied).
Proof.
  assert (E : handle now s r = (s, AccessDenied)).
  { unfold handle. rewrite bool_decide_eq_false_2 by assumption. reflexivity. }
  rewrite E. auto.
Qed.

Lemma ticks_while_listening (s : Session) (times : list Z) :
  state s = listening -> steps s (Tick <$> times) = s.
Proof.
  intros L. induction times as [|t times IH]; [reflexivity|].
  simpl. unfold steps in *. simpl.
  rewrite L. simpl. exact IH.
Qed.

End ServerFacts.

(** C9.  In the session server: while no request arrives, a listening
    session stays exactly as it is however far the clock advances, whatever
    its configured timeout, and the owner's withdrawal then makes it
    [aborted]; and a session that is not terminal becomes [timedOut] only
    through a request that carries the session's token on the cancel route
    with the reason timeout.  In [interview]: the status [timeout] is
    resolved only from the server's [onCancel] callback with the reason
    timeout, there being no timer of the library's own. *)
Theorem no_server_side_timeout :
  (forall (s : server.Session) (times : list Z),
     server.state s = server.listening ->
     server.steps s (server.Tick <$> times) = s
     /\ server.state (server.steps s ((server.Tick <$> times)
                                      ++ [server.OwnerAbort]))
        = server.aborted)
  /\ (forall (s : server.Session) (ev : server.Event),
        server.terminal (server.state s) = false ->
        server.state (server.step s ev) = server.timedOut ->
        exists now r,
          ev = server.Incoming now r
          /\ server.req_token r = Some (server.token s)
          /\ server.route r = server.Cancel (Some server.timeout))
  /\ (forall options sessionId (s : lib.State) (ev : lib.Event) r,
        lib.resolved s = false ->
        lib.resolutions (lib.step options sessionId s ev)
        = lib.resolutions s ++ [r] ->
        lib.status r = lib.timeout ->
        exists partialResponses,
          ev = lib.Cancel (Some "timeout") partialResponses).
Proof.
  split; [|split].
  - intros s times L. split; [apply ticks_while_listening, L|].
    unfold server.steps. rewrite fold_left_app.
    change (fold_left server.step (server.Tick <$> times) s)
      with (server.steps s (server.Tick <$> times)).
    rewrite ticks_while_listening by exact L.
    simpl. rewrite L. reflexivity.
  - intros s ev T. destruct ev as [now | now r |]; simpl.
    + destruct (bool_decide _ && _); simpl; intros E;
        [discriminate | rewrite E in T; discriminate].
    + unfold server.handle.
      destruct (bool_decide (server.req_token r = Some (server.token s))) eqn:B;
        simpl.
      * apply bool_decide_eq_true_1 in B.
        destruct (server.route r) as [| | |payload|reason|content|] eqn:R;
          simpl; rewrite ?T; simpl; try discriminate;
          try (intros E; rewrite E in T; discriminate).
        -- destruct (server.complete s payload); simpl; discriminate.
        -- destruct reason as [[|]|]; simpl; try discriminate.
           intros _. exists now, r. auto.
      * intros E; rewrite E in T; discriminate.
    + rewrite T. simpl. discriminate.
  - intros options sessionId s ev r R Q St.
    destruct (lib.is_trigger ev) eqn:T.
    + rewrite step_trigger_is_finish in Q by assumption.
      destruct (finish_pending options (lib.status_of ev)
                  (Some (lib.responses_of ev)) s R) as (_ & _ & Q').
      rewrite Q' in Q. apply app_inv_head in Q. injection Q as <-.
      simpl in St. destruct ev as [|rs|reason p| | |]; try discriminate.
      simpl in St. destruct (bool_decide (reason = Some "timeout")) eqn:B;
        [|discriminate].
      apply bool_decide_eq_true_1 in B. subst reason. exists p. reflexivity.
    + destruct (step_other options sessionId s ev T) as [_ Q'].
      rewrite Q' in Q. rewrite <- (app_nil_r (lib.resolutions s)) in Q at 1.
      apply app_inv_head in Q. discriminate.
Qed.

Lemma bad_token_is_denied_witness :
  server.handle 1700000009000 examples.a_session
    {| server.req_token := Some "bad-token";
       server.route := server.Submit [] |}
  = (examples.a_session, server.AccessDenied).
Proof.
  refine (proj1 (bad_token_is_denied 1700000009000 examples.a_session
                   {| server.req_token := Some "bad-token";
                      server.route := server.Submit [] |} _)).
  discriminate.
Defined.

Lemma no_server_side_timeout_witness :
  server.steps examples.a_session
    (server.Tick <$> [1700000006000; 1700000070000; 1700009999000]%Z)
  = examples.a_session
  /\ server.state
       (server.steps examples.a_session
          ((server.Tick <$> [1700000006000; 1700000070000; 1700009999000]%Z)
           ++ [server.OwnerAbort]))
     = server.aborted.
Proof.
  refine (proj1 no_server_side_timeout examples.a_session
            [1700000006000; 1700000070000; 1700009999000]%Z _).
  reflexivity.
Defined.

Import trace document.

(* ===================================================================== *)
(** ** What an accepted document looks like (src/schema.ts) *)
(* ===================================================================== *)

Section AcceptedDocuments.

Import schema.

Lemma is_string_inv v : is_string v = true -> exists s, v = VString s.
Proof. destruct v; try discriminate. eauto. Qed.

Lemma includes_string xs s : includes xs (VString s) = true -> VString s ∈ xs.
Proof.
  unfold includes. induction xs as [|y xs IH]; simpl; [discriminate|].
  intros H. apply orb_true_iff in H as [H | H].
  - assert (E : y = VString s).
    { destruct y; simpl in H; try discriminate H;
        apply bool_decide_eq_true_1 in H; exact H. }
    rewrite E. left.
  - right. apply IH, H.
Qed.

Lemma includes_lit_inv lits v :
  is_string v = true -> includes_lit lits v = true ->
  exists s, v = VString s /\ s ∈ lits.
Proof.
  intros S I. destruct (is_string_inv v S) as [s ->].
  exists s. split; [reflexivity|].
  apply includes_string in I. apply list_elem_of_fmap in I as (s' & [= ->] & I).
  exact I.
Qed.

(** An optional string: what [x !== undefined && typeof x !== "string"]
    lets through. *)
Lemma optional_string_inv v :
  negb (is_undefined v) && negb (is_string v) = false ->
  v = VUndefined \/ exists s, v = VString s.
Proof.
  destruct v; simpl; try discriminate; eauto.
Qed.

Lemma validateOption_Ok h o id j a :
  validateOption h o id j = Ok a ->
  exists label, getOptionLabel h o = VString label.
Proof.
  unfold validateOption, getOptionLabel.
  destruct (is_string o) eqn:S.
  - intros _. apply is_string_inv, S.
  - destruct (truthy o && is_object o); [|discriminate].
    intros H. apply check_Ok in H as [L _].
    apply negb_false_iff in L. apply is_string_inv, L.
Qed.

(** What the first pass has checked of a question. *)
Lemma validateQuestionStructure_Ok h q i :
  validateQuestionStructure h q i = Ok tt ->
  (exists id, get h q "id" = VString id)
  /\ (exists t, get h q "type" = VString t /\ t ∈ validTypes)
  /\ (exists text, get h q "question" = VString text)
  /\ (get h q "options" = VUndefined
      \/ exists o os,
           as_array h (get h q "options") = Some (o :: os)
           /\ forall x, x ∈ o :: os ->
                exists label, getOptionLabel h x = VString label).
Proof.
  unfold validateQuestionStructure. intros H.
  apply check_Ok in H as [_ H].
  apply check_Ok in H as [Hid H].
  apply check_Ok in H as [Ht H].
  apply check_Ok in H as [Hq H].
  apply bind_Ok in H as (u & Ho & _).
  apply negb_false_iff in Hid, Hq.
  apply orb_false_iff in Ht as [Ht1 Ht2]. apply negb_false_iff in Ht1, Ht2.
  split; [apply is_string_inv, Hid|].
  split; [apply includes_lit_inv; assumption|].
  split; [apply is_string_inv, Hq|].
  destruct (is_undefined (get h q "options")) eqn:U.
  - left. apply bool_decide_eq_true_1 in U. exact U.
  - right. change (negb false) with true in Ho.
    cbv iota in Ho. destruct u.
    destruct (as_array h (get h q "options")) as [[|o os]|]; try discriminate.
    exists o, os. split; [reflexivity|]. intros x Hx.
    destruct (for_indexed_Ok _ _ _ _ Ho Hx) as (j & a & Hj).
    eapply validateOption_Ok, Hj.
Qed.

Lemma checkRecommendedIn_Ok h id labels recs :
  checkRecommendedIn h id labels recs = Ok tt ->
  forall r, r ∈ recs -> includes labels r = true.
Proof.
  induction recs as [|r0 recs IH]; intros H r Hr; [inversion Hr|].
  simpl in H. apply check_Ok in H as [H0 H]. apply negb_false_iff in H0.
  apply elem_of_cons in Hr as [-> | Hr]; [exact H0 | apply IH; assumption].
Qed.


End AcceptedDocuments.

Section AcceptedDocuments2.

Import schema.

Ltac settle_types H :=
  repeat match type of H with
         | context [bool_decide (VString ?a = VString ?b)] =>
             first [ rewrite (bool_decide_eq_true_2 (VString a = VString b)) in H
                       by reflexivity
                   | rewrite (bool_decide_eq_false_2 (VString a = VString b)) in H
                       by discriminate ]
         end.

(** What the second pass has checked of a question, and what it has done
    to it. *)
Lemma validateQuestionSemantics_Ok q h h' :
  validateQuestionSemantics q h = (h', Ok tt) ->
  (get h q "type" = VString "single" \/ get h q "type" = VString "multi" ->
   truthy (get h q "options") = true)
  /\ (get h q "type" = VString "text" \/ get h q "type" = VString "image"
      \/ get h q "type" = VString "info" ->
      truthy (get h q "options") = false
      /\ get h q "recommended" = VUndefined)
  /\ (get h q "recommended" = VUndefined ->
      get h q "conviction" = VUndefined /\ h' = h)
  /\ (get h q "type" = VString "single" ->
      get h q "recommended" <> VUndefined ->
      is_string (get h q "recommended") = true
      /\ includes (optionLabels h q) (get h q "recommended") = true
      /\ h' = h)
  /\ (get h q "type" = VString "multi" ->
      get h q "recommended" <> VUndefined ->
      exists rs,
        as_array h' (get h' q "recommended") = Some rs
        /\ forall r, r ∈ rs -> includes (optionLabels h q) r = true).
Proof.
  intros H. unfold validateQuestionSemantics in H.
  apply bindM_lift_Ok in H as ([] & H1 & H).
  apply bind_Ok in H1 as ([] & Ha & H1). apply check_Ok in H1 as [Hconv _].
  fold (optionLabels h q) in H.
  split; [|split; [|split; [|split]]].
  - intros [T | T]; rewrite T in Ha; settle_types Ha; simpl in Ha;
      apply check_Ok in Ha as [Ha _]; apply orb_false_iff in Ha as [Ha _];
      apply negb_false_iff, Ha.
  - intros T.
    assert (N : truthy (get h q "options") = false).
    { destruct T as [T | [T | T]]; rewrite T in Ha; settle_types Ha;
        simpl in Ha; apply check_Ok in Ha as [Ha _]; exact Ha. }
    split; [exact N|].
    destruct (is_undefined (get h q "recommended")) eqn:U.
    { apply bool_decide_eq_true_1 in U. exact U. }
    apply bindM_lift_Ok in H as ([] & H2 & _).
    apply check_Ok in H2 as [H2 _].
    destruct T as [T | [T | T]]; rewrite T in H2; settle_types H2;
      discriminate H2.
  - intros R. rewrite R in H, Hconv. simpl in H. injection H as <-.
    split; [|reflexivity].
    rewrite andb_true_r in Hconv. apply negb_false_iff in Hconv.
    apply bool_decide_eq_true_1 in Hconv. exact Hconv.
  - intros T R.
    assert (U : is_undefined (get h q "recommended") = false)
      by (apply bool_decide_eq_false_2, R).
    rewrite U in H.
    apply bindM_lift_Ok in H as ([] & _ & H).
    apply bindM_lift_Ok in H as ([] & H3 & H).
    rewrite T in H3, H. settle_types H3. settle_types H.
    apply check_Ok in H3 as [S H3]. apply check_Ok in H3 as [I _].
    apply negb_false_iff in S, I. injection H as <-. auto.
  - intros T R.
    assert (U : is_undefined (get h q "recommended") = false)
      by (apply bool_decide_eq_false_2, R).
    rewrite U in H.
    destruct (string_property_is_object h q "type") as (l & m & -> & Hl).
    { rewrite T. reflexivity. }
    assert (Hlt : l < length h) by (eapply lookup_lt_Some, Hl).
    apply bindM_lift_Ok in H as ([] & _ & H).
    apply bindM_lift_Ok in H as ([] & _ & H).
    rewrite T in H. settle_types H.
    destruct (as_array h (get h (VRef l) "recommended")) as [rs|] eqn:A.
    + assert (IA : isArray h (get h (VRef l) "recommended") = true).
      { unfold isArray. rewrite A. apply bool_decide_eq_true_2. eauto. }
      rewrite IA in H. unfold bindM at 1, ret at 1 in H.
      apply bindM_lift_Ok in H as ([] & C & H).
      simpl in H. injection H as <-.
      exists rs. split; [exact A|].
      apply (checkRecommendedIn_Ok _ _ _ _ C).
    + assert (IA : isArray h (get h (VRef l) "recommended") = false).
      { unfold isArray. rewrite A. apply bool_decide_eq_false_2.
        intros [x Hx]. discriminate. }
      rewrite IA in H. unfold bindM at 1, alloc at 1 in H.
      apply bindM_lift_Ok in H as ([] & C & H).
      change (negb false) with true in H. cbv iota in H.
      unfold set in H. rewrite lookup_app_l in H by exact Hlt.
      rewrite Hl in H. injection H as <-.
      exists [get h (VRef l) "recommended"]. split.
      * unfold get at 1. rewrite list_lookup_insert_eq
          by (rewrite length_app; simpl; lia).
        rewrite lookup_insert_eq. simpl. unfold as_array.
        rewrite list_lookup_insert_ne by lia.
        rewrite lookup_app_r by lia. rewrite Nat.sub_diag. reflexivity.
      * apply (checkRecommendedIn_Ok _ _ _ _ C).
Qed.

End AcceptedDocuments2.

Section AcceptedDocuments3.

Import schema.

Lemma extends_refl h : extends h h.
Proof. split; [lia | auto]. Qed.

Lemma extends_trans h1 h2 h3 : extends h1 h2 -> extends h2 h3 -> extends h1 h3.
Proof.
  intros [L1 K1] [L2 K2]. split; [lia|]. intros l Hl.
  destruct (K1 l Hl) as [A1 G1]. destruct (K2 l ltac:(lia)) as [A2 G2].
  split; [congruence|]. intros k Hk. rewrite G2, G1 by assumption. reflexivity.
Qed.

Lemma validateQuestionSemantics_extends q h :
  extends h (fst (validateQuestionSemantics q h)).
Proof.
  split; [apply validateQuestionSemantics_frame|].
  intros l Hl. apply validateQuestionSemantics_keeps, Hl.
Qed.

Lemma for_of_extends qs h :
  extends h (fst (for_of validateQuestionSemantics qs h)).
Proof.
  split; [apply for_of_frame|]. intros l Hl. apply for_of_keeps, Hl.
Qed.

(** Every question of an accepted list has passed the second pass, in a
    store that has grown from the first one and holds the question as the
    first one did; and what the pass left of the question is what the last
    store holds. *)
Lemma for_of_each qs h h' :
  for_of validateQuestionSemantics qs h = (h', Ok tt) ->
  NoDup qs ->
  (forall q, q ∈ qs -> exists l, q = VRef l /\ l < length h) ->
  forall l, VRef l ∈ qs ->
    exists hi hi',
      validateQuestionSemantics (VRef l) hi = (hi', Ok tt)
      /\ extends h hi /\ extends hi' h'
      /\ hi !! l = h !! l /\ h' !! l = hi' !! l.
Proof.
  revert h. induction qs as [|q0 qs IH]; intros h H ND Hrefs l Hin.
  - inversion Hin.
  - simpl in H. unfold bindM in H.
    pose proof (validateQuestionSemantics_extends q0 h) as E01.
    destruct (validateQuestionSemantics_frame q0 h) as [Hlen Hframe].
    destruct (validateQuestionSemantics q0 h) as [h1 [[]|e]] eqn:E;
      [|discriminate].
    simpl in E01, Hlen, Hframe.
    apply NoDup_cons in ND as [Hq0 ND].
    pose proof (for_of_extends qs h1) as E1'.
    destruct (for_of_frame qs h1) as [Hlen' Hframe']. rewrite H in *.
    simpl in E1', Hlen', Hframe'.
    destruct (Hrefs (VRef l) Hin) as (l' & [= <-] & Hl).
    apply elem_of_cons in Hin as [<- | Hin].
    + exists h, h1. split; [exact E|]. split; [apply extends_refl|].
      split; [exact E1'|]. split; [reflexivity|].
      apply Hframe'; [lia | exact Hq0].
    + destruct (IH h1 H ND) with (l := l) as (hi & hi' & B & Ei & Ei' & C & C').
      * intros q' Hq'. destruct (Hrefs q') as (l' & -> & Hl');
          [right; exact Hq'|]. exists l'. split; [reflexivity | lia].
      * exact Hin.
      * exists hi, hi'. split; [exact B|].
        split; [eapply extends_trans; eassumption|].
        split; [exact Ei'|]. split; [|exact C'].
        rewrite C. apply Hframe; [exact Hl|].
        intros ->. apply Hq0, Hin.
Qed.

Lemma validateBasicStructure_each h data parsed :
  validateBasicStructure h data = Ok parsed ->
  exists qs, as_array h (get h data "questions") = Some qs
             /\ qs <> []
             /\ forall q, q ∈ qs ->
                  exists j, validateQuestionStructure h q j = Ok tt.
Proof.
  unfold validateBasicStructure. intros H.
  do 5 (apply check_Ok in H as [_ H]).
  destruct (as_array h (get h data "questions")) as [[|q qs]|]; try discriminate.
  apply bind_Ok in H as ([] & Hloop & H).
  exists (q :: qs). repeat split; [discriminate|].
  intros q' Hin.
  destruct (for_indexed_Ok _ _ _ _ Hloop Hin) as (j & [] & Hq). eauto.
Qed.

(** What [validateQuestions] has established when it accepts. *)
Lemma validateQuestions_Ok data r h h' :
  validateQuestions data h = (h', Ok r) ->
  exists qs,
    as_array h (get h data "questions") = Some qs
    /\ qs <> []
    /\ NoDup ((fun q => get h q "id") <$> qs)
    /\ extends h h'
    /\ forall q, q ∈ qs ->
         (exists j, validateQuestionStructure h q j = Ok tt)
         /\ exists l hi hi',
              q = VRef l /\ l < length h
              /\ validateQuestionSemantics q hi = (hi', Ok tt)
              /\ extends h hi /\ extends hi' h'
              /\ hi !! l = h !! l /\ h' !! l = hi' !! l.
Proof.
  intros H. unfold validateQuestions in H.
  destruct (validateBasicStructure h data) as [parsed|e] eqn:B; [|discriminate].
  destruct (validateBasicStructure_Ok _ _ _ B) as (-> & qs0 & Hqs0 & _ & Hids).
  destruct (validateBasicStructure_each _ _ _ B) as (qs & Hqs & Hne & Hstruct).
  rewrite Hqs in Hqs0. injection Hqs0 as <-.
  rewrite Hqs in H. simpl in H.
  destruct (checkDuplicateIds h [] qs) as [[]|e] eqn:D; [|discriminate].
  unfold bindM, ret in H.
  pose proof (for_of_extends qs h) as X.
  destruct (for_of validateQuestionSemantics qs h) as [h1 [[]|e]] eqn:L;
    [|discriminate].
  injection H as <- <-. simpl in X.
  destruct (checkDuplicateIds_NoDup _ _ _ D) as [ND _].
  assert (Hrefs : forall q, q ∈ qs -> exists l, q = VRef l /\ l < length h).
  { intros q Hin.
    destruct (string_property_is_object h q "id" (Hids q Hin))
      as (l & m & -> & Hl).
    exists l. split; [reflexivity|]. eapply lookup_lt_Some, Hl. }
  exists qs. split; [exact Hqs|]. split; [exact Hne|].
  split; [exact ND|]. split; [exact X|].
  intros q Hin. split; [apply Hstruct, Hin|].
  destruct (Hrefs q Hin) as (l & -> & Hl).
  destruct (for_of_each qs h h1 L (NoDup_fmap_1 _ _ ND) Hrefs l Hin)
    as (hi & hi' & B' & E1 & E2 & C1 & C2).
  exists l, hi, hi'. auto 10.
Qed.

Lemma validTypes_inv t :
  t ∈ validTypes ->
  t = "single" \/ t = "multi" \/ t = "text" \/ t = "image" \/ t = "info".
Proof.
  unfold validTypes. rewrite !elem_of_cons, elem_of_nil. tauto.
Qed.

(** X1.  A document that [validateQuestions] accepts has a non-empty list
    of questions whose ids are strings that differ from one another; each
    question has a text, and is either a choice, single or multi, with a
    non-empty list of options each of which has a string for label, or a
    text, image or info question with no options, no recommendation and
    no conviction. *)
Theorem accepted_document_shape (data r : value) (h h' : heap)
    (Haccepted : validateQuestions data h = (h', Ok r)) :
  exists qs,
    as_array h (get h data "questions") = Some qs
    /\ qs <> []
    /\ NoDup ((fun q => get h q "id") <$> qs)
    /\ forall q, q ∈ qs ->
         (exists id, get h q "id" = VString id)
         /\ (exists text, get h q "question" = VString text)
         /\ (((get h q "type" = VString "single"
               \/ get h q "type" = VString "multi")
              /\ exists o os,
                   as_array h (get h q "options") = Some (o :: os)
                   /\ forall x, x ∈ o :: os ->
                        exists label, getOptionLabel h x = VString label)
             \/ ((get h q "type" = VString "text"
                  \/ get h q "type" = VString "image"
                  \/ get h q "type" = VString "info")
                 /\ get h q "options" = VUndefined
                 /\ get h q "recommended" = VUndefined
                 /\ get h q "conviction" = VUndefined)).
Proof.
  destruct (validateQuestions_Ok _ _ _ _ Haccepted)
    as (qs & Hqs & Hne & ND & _ & Hq).
  exists qs. split; [exact Hqs|]. split; [exact Hne|]. split; [exact ND|].
  intros q Hin.
  destruct (Hq q Hin) as ((j & S) & l & hi & hi' & -> & Hl & B & Ei & _ & C & _).
  destruct (validateQuestionStructure_Ok _ _ _ S)
    as (Hid & (t & Ht & Hvalid) & Htext & Hopts).
  split; [exact Hid|]. split; [exact Htext|].
  destruct (validateQuestionSemantics_Ok _ _ _ B) as (P1 & P2 & P3 & _).
  destruct Ei as [_ Ei]. destruct (Ei l Hl) as [_ G].
  assert (R : get hi (VRef l) "recommended" = get h (VRef l) "recommended")
    by (apply get_same_cell, C).
  pose proof (G "type" ltac:(discriminate)) as Gt.
  pose proof (G "options" ltac:(discriminate)) as Go.
  pose proof (G "conviction" ltac:(discriminate)) as Gc.
  rewrite R in P2, P3. rewrite ?Gt, ?Go, ?Gc in P1.
  rewrite ?Gt, ?Go, ?Gc in P2. rewrite ?Gt, ?Go, ?Gc in P3.
  rewrite Ht in *.
  apply validTypes_inv in Hvalid as [-> | [-> | Hvalid]].
  - left. split; [auto|].
    destruct Hopts as [U | Hopts]; [|exact Hopts].
    assert (P : truthy (get h (VRef l) "options") = true)
      by (apply P1; first [left; reflexivity | right; reflexivity]).
    rewrite U in P. discriminate P.
  - left. split; [auto|].
    destruct Hopts as [U | Hopts]; [|exact Hopts].
    assert (P : truthy (get h (VRef l) "options") = true)
      by (apply P1; first [left; reflexivity | right; reflexivity]).
    rewrite U in P. discriminate P.
  - right.
    assert (T : VString t = VString "text" \/ VString t = VString "image"
                \/ VString t = VString "info")
      by (destruct Hvalid as [-> | [-> | ->]]; auto).
    split; [exact T|].
    destruct (P2 T) as [N U].
    split; [|split; [exact U | apply P3, U]].
    destruct Hopts as [U' | (o & os & A & _)]; [exact U'|].
    destruct (get h (VRef l) "options"); try discriminate.
Qed.

Lemma includes_strings xs r :
  (forall y, y ∈ xs -> exists s, y = VString s) ->
  includes xs r = true -> r ∈ xs.
Proof.
  unfold includes. induction xs as [|y xs IH]; simpl; intros S H;
    [discriminate|].
  apply orb_true_iff in H as [H | H].
  - destruct (S y) as [s ->]; [left|].
    simpl in H. apply bool_decide_eq_true_1 in H. rewrite <- H. left.
  - right. apply IH; [|exact H]. intros y' Hy'. apply S. right. exact Hy'.
Qed.

(** The labels of a question that passed the first pass are strings, and
    a store that has grown from the first one reads the same labels. *)
Lemma optionLabels_extends h hi l j :
  validateQuestionStructure h (VRef l) j = Ok tt ->
  l < length h -> extends h hi ->
  optionLabels hi (VRef l) = optionLabels h (VRef l)
  /\ forall y, y ∈ optionLabels h (VRef l) -> exists s, y = VString s.
Proof.
  intros S Hl [Hlen E].
  destruct (validateQuestionStructure_Ok _ _ _ S) as (_ & _ & _ & Hopts).
  destruct (E l Hl) as [_ G]. unfold optionLabels.
  rewrite G by discriminate.
  destruct Hopts as [-> | (o & os & A & L)]; [split; [reflexivity | inversion 1]|].
  destruct (get h (VRef l) "options") as [| | | | |lo] eqn:O; try discriminate.
  assert (Hlo : lo < length h).
  { unfold as_array in A. destruct (h !! lo) eqn:X; [|discriminate].
    eapply lookup_lt_Some, X. }
  destruct (E lo Hlo) as [-> _]. rewrite A. split.
  - apply map_ext_in. intros x Hx. apply list_elem_of_In in Hx.
    destruct (L x Hx) as [label Hlabel]. unfold getOptionLabel in *.
    destruct (is_string x) eqn:Sx; [reflexivity|].
    destruct (string_property_is_object h x "label") as (lx & m & -> & Hm).
    { rewrite Hlabel. reflexivity. }
    apply E; [eapply lookup_lt_Some, Hm | discriminate].
  - intros y Hy. apply list_elem_of_In, in_map_iff in Hy as (x & <- & Hx).
    apply list_elem_of_In in Hx. destruct (L x Hx) as [label ->]. eauto.
Qed.

(** X2.  In the store an accepted document is left in, a recommendation
    names options of its question: on a single question it is the label of
    one of them, as it was given; on a multi question it is an array, also
    when a string was given, and each of its elements is the label of one
    of the options.  A question with a conviction has a recommendation.
    The labels themselves are as they were. *)
Theorem accepted_recommended_is_an_option (data r : value) (h h' : heap)
    (Haccepted : validateQuestions data h = (h', Ok r)) :
  forall qs q,
    as_array h (get h data "questions") = Some qs -> q ∈ qs ->
    optionLabels h' q = optionLabels h q
    /\ (get h q "type" = VString "single" ->
        get h' q "recommended" = get h q "recommended"
        /\ (get h q "recommended" = VUndefined
            \/ exists s, get h q "recommended" = VString s
                         /\ VString s ∈ optionLabels h q))
    /\ (get h q "type" = VString "multi" ->
        (get h q "recommended" = VUndefined
         /\ get h' q "recommended" = VUndefined)
        \/ exists rs,
             as_array h' (get h' q "recommended") = Some rs
             /\ forall x, x ∈ rs -> x ∈ optionLabels h q)
    /\ (get h q "conviction" <> VUndefined ->
        get h' q "recommended" <> VUndefined).
Proof.
  intros qs0 q Hqs0 Hin.
  destruct (validateQuestions_Ok _ _ _ _ Haccepted)
    as (qs & Hqs & Hne & ND & X & Hq).
  rewrite Hqs in Hqs0. injection Hqs0 as <-.
  destruct (Hq q Hin) as ((j & S) & l & hi & hi' & -> & Hl & B & Ei & Ei' & C & C').
  destruct (optionLabels_extends _ _ _ _ S Hl X) as [L' _].
  destruct (optionLabels_extends _ _ _ _ S Hl Ei) as [Li Ls].
  destruct (validateQuestionSemantics_Ok _ _ _ B) as (_ & _ & P3 & P4 & P5).
  pose proof Ei as [_ Gi]. destruct (Gi l Hl) as [_ G].
  assert (R : get hi (VRef l) "recommended" = get h (VRef l) "recommended")
    by (apply get_same_cell, C).
  assert (R' : get h' (VRef l) "recommended" = get hi' (VRef l) "recommended")
    by (apply get_same_cell, C').
  pose proof (G "type" ltac:(discriminate)) as Gt.
  pose proof (G "options" ltac:(discriminate)) as Go.
  pose proof (G "conviction" ltac:(discriminate)) as Gc.
  rewrite R in P3, P4, P5. rewrite Li in P4, P5.
  rewrite ?Gt, ?Go, ?Gc in P3.
  rewrite ?Gt, ?Go, ?Gc in P4. rewrite ?Gt, ?Go, ?Gc in P5.
  split; [exact L'|]. split; [|split].
  - intros T.
    destruct (decide (get h (VRef l) "recommended" = VUndefined)) as [U | U].
    + destruct (P3 U) as [_ ->]. rewrite R', R. auto.
    + destruct (P4 T U) as (Sr & I & ->). rewrite R', R.
      split; [reflexivity|]. right.
      destruct (is_string_inv _ Sr) as [s Hs]. exists s.
      split; [exact Hs|]. rewrite <- Hs. apply includes_strings; assumption.
  - intros T.
    destruct (decide (get h (VRef l) "recommended" = VUndefined)) as [U | U].
    + left. destruct (P3 U) as [_ ->]. rewrite R', R. auto.
    + right. destruct (P5 T U) as (rs & A & I). exists rs. split.
      * rewrite R'.
        destruct (get hi' (VRef l) "recommended") as [| | | | |lr];
          try discriminate.
        destruct Ei' as [_ Gi']. rewrite <- A. apply Gi'.
        unfold as_array in A. destruct (hi' !! lr) eqn:Y; [|discriminate].
        eapply lookup_lt_Some, Y.
      * intros x Hx. apply includes_strings; [exact Ls | apply I, Hx].
  - intros Cv U. rewrite R' in U.
    destruct (decide (get h (VRef l) "recommended" = VUndefined)) as [U0 | U0].
    + apply Cv, P3, U0.
    + destruct (validateQuestionStructure_Ok _ _ _ S)
        as (_ & (t & Ht & Hvalid) & _).
      destruct (validateQuestionSemantics_Ok _ _ _ B) as (_ & P2 & _).
      rewrite R in P2. rewrite ?Gt, ?Go, ?Gc in P2.
      apply validTypes_inv in Hvalid as [-> | [-> | Hvalid]].
      * destruct (P4 Ht U0) as (_ & _ & ->). rewrite R in U. contradiction.
      * destruct (P5 Ht U0) as (rs & A & _). rewrite U in A. discriminate.
      * apply U0, P2. rewrite Ht.
        destruct Hvalid as [-> | [-> | ->]]; auto.
Qed.

Lemma validateQuestions_returns data r h h' :
  validateQuestions data h = (h', Ok r) ->
  r = data /\ exists l m, data = VRef l /\ h' !! l = Some (CObj m)
                          /\ l < length h.
Proof.
  intros H.
  destruct (validateQuestions_Ok _ _ _ _ H) as (qs & Hqs & _ & _ & [Hlen X] & _).
  unfold validateQuestions in H.
  destruct (validateBasicStructure h data) as [parsed|e] eqn:B;
    [|discriminate].
  destruct (validateBasicStructure_Ok _ _ _ B) as (-> & _).
  destruct (checkDuplicateIds h [] _) as [[]|e]; [|discriminate].
  unfold bindM, ret in H.
  destruct (for_of _ _ h) as [h1 [[]|e]]; [|discriminate].
  injection H as <- <-. split; [reflexivity|].
  destruct data as [| | | | |l]; try discriminate Hqs.
  unfold get in Hqs. destruct (h !! l) as [[m|xs]|] eqn:E; try discriminate Hqs.
  assert (Hl : l < length h) by (eapply lookup_lt_Some, E).
  destruct (X l Hl) as [A _]. unfold as_array in A. rewrite E in A.
  destruct (h1 !! l) as [[m'|xs']|] eqn:E'.
  - eauto.
  - discriminate A.
  - apply lookup_ge_None in E'. lia.
Qed.

End AcceptedDocuments3.

Section AcceptedBlocks.

Import schema.

Lemma validateMediaBlock_Ok h block context b :
  validateMediaBlock h block context = Ok b ->
  (exists t, get h block "type" = VString t
             /\ t ∈ ["image"; "chart"; "mermaid"; "table"; "html"])
  /\ (get h block "type" = VString "image" ->
      is_string (get h block "src") = true)
  /\ (get h block "type" = VString "chart" ->
      is_string (get h (get h block "chart") "type") = true
      /\ truthy (get h (get h block "chart") "data") = true
      /\ is_object (get h (get h block "chart") "data") = true)
  /\ (get h block "type" = VString "mermaid" ->
      is_string (get h block "mermaid") = true)
  /\ (get h block "type" = VString "table" ->
      isArray h (get h (get h block "table") "headers") = true
      /\ isArray h (get h (get h block "table") "rows") = true)
  /\ (get h block "type" = VString "html" ->
      is_string (get h block "html") = true)
  /\ (get h block "position" = VUndefined
      \/ exists p, get h block "position" = VString p
                   /\ p ∈ ["above"; "below"; "side"]).
Proof.
  unfold validateMediaBlock. intros H.
  apply check_Ok in H as [_ H].
  apply check_Ok in H as [Ht H].
  apply check_Ok in H as [Himg H].
  apply bind_Ok in H as ([] & Hchart & H).
  apply check_Ok in H as [Hmer H].
  apply bind_Ok in H as ([] & Htab & H).
  apply check_Ok in H as [Hhtml H].
  apply bind_Ok in H as ([] & Hpos & _).
  apply orb_false_iff in Ht as [Ht1 Ht2]. apply negb_false_iff in Ht1, Ht2.
  split; [apply includes_lit_inv; assumption|].
  split; [|split; [|split; [|split; [|split]]]].
  - intros T. rewrite (bool_decide_eq_true_2 _ T) in Himg.
    apply negb_false_iff, Himg.
  - intros T. rewrite (bool_decide_eq_true_2 _ T) in Hchart.
    apply check_Ok in Hchart as [_ Hchart].
    apply check_Ok in Hchart as [C1 Hchart].
    apply check_Ok in Hchart as [C2 _].
    apply negb_false_iff in C1. apply orb_false_iff in C2 as [C2 C3].
    apply negb_false_iff in C2, C3. auto.
  - intros T. rewrite (bool_decide_eq_true_2 _ T) in Hmer.
    apply negb_false_iff, Hmer.
  - intros T. rewrite (bool_decide_eq_true_2 _ T) in Htab.
    apply check_Ok in Htab as [_ Htab].
    apply check_Ok in Htab as [C1 Htab].
    apply check_Ok in Htab as [C2 _].
    apply negb_false_iff in C1, C2. auto.
  - intros T. rewrite (bool_decide_eq_true_2 _ T) in Hhtml.
    apply negb_false_iff, Hhtml.
  - destruct (is_undefined (get h block "position")) eqn:U.
    + left. apply bool_decide_eq_true_1 in U. exact U.
    + right. change (negb false) with true in Hpos. cbv iota in Hpos.
      apply check_Ok in Hpos as [P _]. apply negb_false_iff in P.
      assert (S : is_string (get h block "position") = true).
      { unfold includes_lit in P.
        destruct (get h block "position"); try discriminate P.
        reflexivity. }
      apply includes_lit_inv; assumption.
Qed.

Lemma validateCodeBlock_Ok h block context b :
  validateCodeBlock h block context = Ok b ->
  is_string (get h block "code") = true
  /\ (forall k, k ∈ ["lang"; "file"; "lines"; "title"] ->
        get h block k = VUndefined \/ exists s, get h block k = VString s)
  /\ (get h block "highlights" = VUndefined
      \/ exists hs, as_array h (get h block "highlights") = Some hs
                    /\ forall x, x ∈ hs -> typeof x = TNumber).
Proof.
  unfold validateCodeBlock. intros H.
  apply check_Ok in H as [_ H].
  apply check_Ok in H as [Hcode H].
  apply check_Ok in H as [Hlang H].
  apply check_Ok in H as [Hfile H].
  apply check_Ok in H as [Hlines H].
  apply check_Ok in H as [Htitle H].
  apply bind_Ok in H as ([] & Hh & _).
  split; [apply negb_false_iff, Hcode|]. split.
  - intros k Hk. rewrite !elem_of_cons, elem_of_nil in Hk.
    destruct Hk as [-> | [-> | [-> | [-> | []]]]];
      apply optional_string_inv; assumption.
  - destruct (is_undefined (get h block "highlights")) eqn:U.
    + left. apply bool_decide_eq_true_1 in U. exact U.
    + right. change (negb false) with true in Hh. cbv iota in Hh.
      apply check_Ok in Hh as [Hh _].
      destruct (as_array h (get h block "highlights")) as [hs|];
        [|discriminate].
      exists hs. split; [reflexivity|]. intros x Hx.
      destruct (decide (typeof x = TNumber)) as [E|N]; [exact E|].
      exfalso.
      assert (F : existsb (fun x => negb (bool_decide (typeof x = TNumber))) hs
                  = true).
      { apply existsb_exists. exists x. split; [apply list_elem_of_In, Hx|].
        rewrite bool_decide_eq_false_2 by exact N. reflexivity. }
      rewrite F in Hh. discriminate.
Qed.

(** What the first pass has checked of the blocks of a question. *)
Lemma validateQuestionStructure_blocks h q i :
  validateQuestionStructure h q i = Ok tt ->
  (forall item, item ∈ mediaItems h q ->
     exists context b, validateMediaBlock h item context = Ok b)
  /\ (forall block, block ∈ codeBlocks h q ->
        exists context b, validateCodeBlock h block context = Ok b)
  /\ (get h q "conviction" = VUndefined
      \/ get h q "conviction" = VString "strong"
      \/ get h q "conviction" = VString "slight")
  /\ (get h q "weight" = VUndefined
      \/ get h q "weight" = VString "critical"
      \/ get h q "weight" = VString "minor")
  /\ (get h q "context" = VUndefined
      \/ exists s, get h q "context" = VString s).
Proof.
  unfold validateQuestionStructure. intros H.
  apply check_Ok in H as [_ H].
  apply check_Ok in H as [_ H].
  apply check_Ok in H as [_ H].
  apply check_Ok in H as [_ H].
  apply bind_Ok in H as ([] & Ho & H).
  apply check_Ok in H as [Hctx H].
  apply bind_Ok in H as (cb & Hcb & H).
  apply bind_Ok in H as ([] & Hconv & H).
  apply bind_Ok in H as ([] & Hw & H).
  split; [|split; [|split; [|split]]].
  - unfold mediaItems. intros item Hitem.
    destruct (is_undefined (get h q "media")); [inversion Hitem|].
    change (negb false) with true in H. cbv iota in H.
    destruct (for_indexed_Ok _ _ _ _ H Hitem) as (j & b & Hb). eauto.
  - unfold codeBlocks. intros block Hb.
    apply list_elem_of_filter in Hb as [Hne Hb].
    apply elem_of_cons in Hb as [-> | Hb].
    + destruct (is_undefined (get h q "codeBlock")) eqn:U.
      { apply bool_decide_eq_true_1 in U. contradiction. }
      change (negb false) with true in Hcb. cbv iota in Hcb. eauto.
    + destruct (as_array h (get h q "options")) as [os|] eqn:A;
        [|inversion Hb].
      apply list_elem_of_In, in_map_iff in Hb as (o & <- & Hin).
      apply list_elem_of_In in Hin.
      destruct (is_undefined (get h q "options")) eqn:U.
      { apply bool_decide_eq_true_1 in U. rewrite U in A. discriminate. }
      change (negb false) with true in Ho. cbv iota in Ho.
      destruct os as [|o0 os]; [inversion Hin|].
      destruct (for_indexed_Ok _ _ _ _ Ho Hin) as (j & a & Hj).
      unfold validateOption in Hj.
      destruct (is_string o) eqn:S.
      { destruct o; discriminate S || (exfalso; apply Hne; reflexivity). }
      destruct (truthy o && is_object o); [|discriminate].
      apply check_Ok in Hj as [_ Hj].
      apply bind_Ok in Hj as (c & Hc & _).
      destruct (is_undefined (get h o "code")) eqn:U'.
      { apply bool_decide_eq_true_1 in U'. contradiction. }
      change (negb false) with true in Hc. cbv iota in Hc. eauto.
  - destruct (is_undefined (get h q "conviction")) eqn:U.
    + left. apply bool_decide_eq_true_1 in U. exact U.
    + right. change (negb false) with true in Hconv. cbv iota in Hconv.
      apply check_Ok in Hconv as [C _].
      apply orb_false_iff in C as [C1 C2]. apply negb_false_iff in C1, C2.
      destruct (includes_lit_inv _ _ C1 C2) as (s & -> & Hs).
      rewrite !elem_of_cons, elem_of_nil in Hs.
      destruct Hs as [-> | [-> | []]]; auto.
  - destruct (is_undefined (get h q "weight")) eqn:U.
    + left. apply bool_decide_eq_true_1 in U. exact U.
    + right. change (negb false) with true in Hw. cbv iota in Hw.
      apply check_Ok in Hw as [C _].
      apply orb_false_iff in C as [C1 C2]. apply negb_false_iff in C1, C2.
      destruct (includes_lit_inv _ _ C1 C2) as (s & -> & Hs).
      rewrite !elem_of_cons, elem_of_nil in Hs.
      destruct Hs as [-> | [-> | []]]; auto.
  - apply optional_string_inv, Hctx.
Qed.

(** X3.  In a document that [validateQuestions] accepts, every media
    block of every question has one of the five media types and what its
    type needs: an image its source, a chart a typed chart with data, a
    mermaid block and an html block their text, a table its headers and
    rows; its position, if it has one, is above, below or side.  Every
    code block, of a question or of an option, has its code, and
    highlights, if any, that are numbers.  A conviction is strong or
    slight and a weight critical or minor. *)
Theorem accepted_blocks_are_well_formed (data r : value) (h h' : heap)
    (Haccepted : validateQuestions data h = (h', Ok r)) :
  forall qs q,
    as_array h (get h data "questions") = Some qs -> q ∈ qs ->
    (forall item, item ∈ mediaItems h q ->
       (exists t, get h item "type" = VString t
                  /\ t ∈ ["image"; "chart"; "mermaid"; "table"; "html"])
       /\ (get h item "type" = VString "image" ->
           is_string (get h item "src") = true)
       /\ (get h item "type" = VString "chart" ->
           is_string (get h (get h item "chart") "type") = true
           /\ truthy (get h (get h item "chart") "data") = true
           /\ is_object (get h (get h item "chart") "data") = true)
       /\ (get h item "type" = VString "mermaid" ->
           is_string (get h item "mermaid") = true)
       /\ (get h item "type" = VString "table" ->
           isArray h (get h (get h item "table") "headers") = true
           /\ isArray h (get h (get h item "table") "rows") = true)
       /\ (get h item "type" = VString "html" ->
           is_string (get h item "html") = true)
       /\ (get h item "position" = VUndefined
           \/ exists p, get h item "position" = VString p
                        /\ p ∈ ["above"; "below"; "side"]))
    /\ (forall block, block ∈ codeBlocks h q ->
          is_string (get h block "code") = true
          /\ (get h block "highlights" = VUndefined
              \/ exists hs, as_array h (get h block "highlights") = Some hs
                            /\ forall x, x ∈ hs -> typeof x = TNumber))
    /\ (get h q "conviction" = VUndefined
        \/ get h q "conviction" = VString "strong"
        \/ get h q "conviction" = VString "slight")
    /\ (get h q "weight" = VUndefined
        \/ get h q "weight" = VString "critical"
        \/ get h q "weight" = VString "minor").
Proof.
  intros qs0 q Hqs0 Hin.
  destruct (validateQuestions_Ok _ _ _ _ Haccepted)
    as (qs & Hqs & _ & _ & _ & Hq).
  rewrite Hqs in Hqs0. injection Hqs0 as <-.
  destruct (Hq q Hin) as ((j & S) & _).
  destruct (validateQuestionStructure_blocks _ _ _ S) as (M & C & Cv & W & _).
  split; [|split; [|split]]; [| |exact Cv|exact W].
  - intros item Hitem. destruct (M item Hitem) as (context & b & Hb).
    apply (validateMediaBlock_Ok _ _ _ _ Hb).
  - intros block Hblock. destruct (C block Hblock) as (context & b & Hb).
    destruct (validateCodeBlock_Ok _ _ _ _ Hb) as (A & _ & B). auto.
Qed.

End AcceptedBlocks.

Section Revalidation.

Import schema.

Variables h h' : heap.
Hypothesis X : extends h h'.

Lemma live_string_property v k : is_string (get h v k) = true -> live h v.
Proof.
  intros S. destruct (string_property_is_object h v k S) as (l & m & -> & Hl).
  simpl. eapply lookup_lt_Some, Hl.
Qed.

Lemma live_array v xs : as_array h v = Some xs -> live h v.
Proof.
  destruct v as [| | | | |l]; try exact (fun _ => I). simpl.
  destruct (h !! l) eqn:E; [|discriminate]. intros _.
  eapply lookup_lt_Some, E.
Qed.

Lemma live_defined_property v k : get h v k <> VUndefined -> live h v.
Proof.
  destruct v as [| | | | |l]; try exact (fun _ => I). simpl.
  destruct (h !! l) eqn:E; [|congruence]. intros _.
  eapply lookup_lt_Some, E.
Qed.

Lemma extends_get v k :
  live h v -> k <> "recommended" -> get h' v k = get h v k.
Proof.
  destruct X as [_ E]. destruct v as [| | | | |l]; try reflexivity.
  simpl. intros Hl Hk. apply E; assumption.
Qed.

Lemma extends_as_array v : live h v -> as_array h' v = as_array h v.
Proof.
  destruct X as [_ E]. destruct v as [| | | | |l]; try reflexivity.
  simpl. intros Hl. apply E, Hl.
Qed.

Lemma extends_isArray v : isArray h v = true -> isArray h' v = true.
Proof.
  unfold isArray. intros A. apply bool_decide_eq_true_1 in A as [xs A].
  rewrite (extends_as_array v) by (eapply live_array, A).
  rewrite A. apply bool_decide_eq_true_2. eauto.
Qed.

Lemma for_indexed_impl {A} (body body' : value -> nat -> result A) start xs :
  (forall x j a, body x j = Ok a -> exists a', body' x j = Ok a') ->
  for_indexed body start xs = Ok tt -> for_indexed body' start xs = Ok tt.
Proof.
  intros B. revert start. induction xs as [|x xs IH]; intros start H;
    [reflexivity|].
  simpl in H |- *. apply bind_Ok in H as (a & Ha & H).
  destruct (B _ _ _ Ha) as [a' ->]. simpl. apply IH, H.
Qed.

Lemma check_pass {B} c msg (k : unit -> result B) :
  c = false -> JS.bind (throw_if c msg) k = k tt.
Proof. intros ->. reflexivity. Qed.

Ltac pass C := rewrite check_pass by exact C.

Lemma validateCodeBlock_again block context context' b :
  validateCodeBlock h block context = Ok b ->
  validateCodeBlock h' block context' = Ok b.
Proof.
  unfold validateCodeBlock. intros H.
  apply check_Ok in H as [C0 H].
  apply check_Ok in H as [C1 H].
  assert (L : live h block).
  { apply negb_false_iff in C1. eapply live_string_property, C1. }
  apply check_Ok in H as [C2 H].
  apply check_Ok in H as [C3 H].
  apply check_Ok in H as [C4 H].
  apply check_Ok in H as [C5 H].
  apply bind_Ok in H as ([] & C6 & H).
  rewrite !(extends_get block) by (exact L || discriminate).
  pass C0. pass C1. pass C2. pass C3. pass C4. pass C5.
  destruct (is_undefined (get h block "highlights")); simpl in C6 |- *;
    [exact H|].
  apply check_Ok in C6 as [C6 _].
  destruct (as_array h (get h block "highlights")) as [hs|] eqn:A;
    [|discriminate].
  rewrite extends_as_array by (eapply live_array, A). rewrite A.
  pass C6. exact H.
Qed.

Lemma bind_ok {A B} (a : A) (k : A -> result B) : JS.bind (Ok a) k = k a.
Proof. reflexivity. Qed.

Ltac first_block tac :=
  match goal with
  | |- JS.bind ?m _ = _ =>
      let K := fresh "K" in
      assert (K : m = Ok tt); [tac | rewrite K, bind_ok; clear K]
  end.

Lemma validateMediaBlock_again block context context' b :
  validateMediaBlock h block context = Ok b ->
  validateMediaBlock h' block context' = Ok b.
Proof.
  unfold validateMediaBlock. intros H.
  apply check_Ok in H as [C0 H].
  apply check_Ok in H as [C1 H].
  assert (L : live h block).
  { apply orb_false_iff in C1 as [C1 _]. apply negb_false_iff in C1.
    eapply live_string_property, C1. }
  apply check_Ok in H as [C2 H].
  apply bind_Ok in H as ([] & C3 & H).
  apply check_Ok in H as [C4 H].
  apply bind_Ok in H as ([] & C5 & H).
  apply check_Ok in H as [C6 H].
  apply bind_Ok in H as ([] & C7 & H).
  rewrite !(extends_get block) by (exact L || discriminate).
  pass C0. pass C1. pass C2.
  first_block ltac:(
    destruct (bool_decide (get h block "type" = VString "chart"));
    [|reflexivity];
    apply check_Ok in C3 as [D0 C3];
    apply check_Ok in C3 as [D1 C3];
    apply check_Ok in C3 as [D2 _];
    assert (Lc : live h (get h block "chart"))
      by (apply negb_false_iff in D1; eapply live_string_property, D1);
    rewrite !(extends_get (get h block "chart")) by (exact Lc || discriminate);
    pass D0; pass D1; pass D2; reflexivity).
  pass C4.
  first_block ltac:(
    destruct (bool_decide (get h block "type" = VString "table"));
    [|reflexivity];
    apply check_Ok in C5 as [D0 C5];
    apply check_Ok in C5 as [D1 C5];
    apply check_Ok in C5 as [D2 _];
    apply negb_false_iff in D1, D2;
    assert (Lt : live h (get h block "table"))
      by (apply live_defined_property with (k := "headers"); intros U;
          rewrite U in D1; discriminate D1);
    rewrite !(extends_get (get h block "table")) by (exact Lt || discriminate);
    pass D0; rewrite (extends_isArray _ D1), (extends_isArray _ D2);
    reflexivity).
  pass C6.
  first_block ltac:(
    destruct (negb (is_undefined (get h block "position"))); [|reflexivity];
    apply check_Ok in C7 as [D0 _]; pass D0; reflexivity).
  exact H.
Qed.

Lemma validateOption_again option questionId questionId' index a :
  validateOption h option questionId index = Ok a ->
  exists a', validateOption h' option questionId' index = Ok a'.
Proof.
  unfold validateOption.
  destruct (is_string option); [eauto|].
  destruct (truthy option && is_object option); [|discriminate].
  intros H. apply check_Ok in H as [C0 H].
  apply bind_Ok in H as (c & C1 & H).
  assert (L : live h option).
  { apply negb_false_iff in C0. eapply live_string_property, C0. }
  rewrite !(extends_get option) by (exact L || discriminate).
  pass C0.
  destruct (negb (is_undefined (get h option "code"))); [|eauto].
  rewrite (validateCodeBlock_again _ _ _ _ C1). eauto.
Qed.

Lemma validateQuestionStructure_again q i :
  validateQuestionStructure h q i = Ok tt ->
  validateQuestionStructure h' q i = Ok tt.
Proof.
  unfold validateQuestionStructure. intros H.
  apply check_Ok in H as [C0 H].
  apply check_Ok in H as [C1 H].
  assert (L : live h q).
  { apply negb_false_iff in C1. eapply live_string_property, C1. }
  apply check_Ok in H as [C2 H].
  apply check_Ok in H as [C3 H].
  apply bind_Ok in H as ([] & C4 & H).
  apply check_Ok in H as [C5 H].
  apply bind_Ok in H as (cb & C6 & H).
  apply bind_Ok in H as ([] & C7 & H).
  apply bind_Ok in H as ([] & C8 & H).
  rewrite !(extends_get q) by (exact L || discriminate).
  pass C0. pass C1. pass C2. pass C3.
  first_block ltac:(
    destruct (negb (is_undefined (get h q "options"))); [|reflexivity];
    destruct (as_array h (get h q "options")) as [[|o os]|] eqn:A;
    try discriminate C4;
    rewrite extends_as_array by (eapply live_array, A); rewrite A;
    eapply for_indexed_impl; [|exact C4];
    intros x j a Hx; eapply validateOption_again, Hx).
  pass C5.
  match goal with
  | |- JS.bind ?m _ = _ => assert (K : exists cb', m = Ok cb')
  end.
  { destruct (negb (is_undefined (get h q "codeBlock"))); [|eauto].
    rewrite (validateCodeBlock_again _ _ _ _ C6). eauto. }
  destruct K as [cb' ->]. rewrite bind_ok.
  first_block ltac:(
    destruct (negb (is_undefined (get h q "conviction"))); [|reflexivity];
    apply check_Ok in C7 as [D0 _]; pass D0; reflexivity).
  first_block ltac:(
    destruct (negb (is_undefined (get h q "weight"))); [|reflexivity];
    apply check_Ok in C8 as [D0 _]; pass D0; reflexivity).
  destruct (negb (is_undefined (get h q "media"))); [|reflexivity].
  assert (M : match as_array h' (get h q "media") with
              | Some items => items
              | None => [get h q "media"]
              end
              = match as_array h (get h q "media") with
                | Some items => items
                | None => [get h q "media"]
                end).
  { destruct (as_array h (get h q "media")) as [items|] eqn:A.
    - rewrite extends_as_array by (eapply live_array, A). rewrite A.
      reflexivity.
    - destruct (get h q "media") as [| | | | |lm] eqn:Em; try reflexivity.
      destruct (decide (lm < length h)) as [Hin | Hout].
      + rewrite extends_as_array by exact Hin. rewrite A. reflexivity.
      + exfalso. simpl in H. apply bind_Ok in H as (b & Hb & _).
        unfold validateMediaBlock in Hb.
        apply check_Ok in Hb as [_ Hb]. apply check_Ok in Hb as [Hb _].
        apply orb_false_iff in Hb as [Hb _]. apply negb_false_iff in Hb.
        apply live_string_property in Hb. exact (Hout Hb). }
  rewrite M. eapply for_indexed_impl; [|exact H].
  intros x j a Hx. exists a. eapply validateMediaBlock_again, Hx.
Qed.

Lemma has_defined v k : get h' v k <> VUndefined -> has h' k v = true.
Proof.
  unfold get, has. destruct v as [| | | | |l]; try congruence.
  destruct (h' !! l) as [[m|xs]|]; try congruence.
  - destruct (m !! k); [intros _; apply bool_decide_eq_true_2; eauto|].
    simpl. congruence.
  - destruct (String.eqb k "length"); congruence.
Qed.

Lemma validateBasicStructure_again data parsed :
  validateBasicStructure h data = Ok parsed ->
  validateBasicStructure h' data = Ok parsed.
Proof.
  unfold validateBasicStructure. intros H.
  apply check_Ok in H as [C0 H].
  apply check_Ok in H as [C1 H].
  apply check_Ok in H as [C2 H].
  apply check_Ok in H as [C3 H].
  apply check_Ok in H as [C4 H].
  destruct (as_array h (get h data "questions")) as [[|q qs]|] eqn:A;
    try discriminate H.
  apply bind_Ok in H as ([] & C5 & H).
  assert (L : live h data).
  { apply live_defined_property with (k := "questions"). intros U.
    rewrite U in A. discriminate A. }
  assert (Q : get h' data "questions" = get h data "questions")
    by (apply extends_get; [exact L | discriminate]).
  assert (A' : as_array h' (get h data "questions") = Some (q :: qs)).
  { rewrite extends_as_array by (eapply live_array, A). exact A. }
  assert (C0' : isArray h' data = false).
  { unfold isArray in C0 |- *. rewrite extends_as_array by exact L. exact C0. }
  assert (C2' : (has h' "label" data || has h' "description" data)
                && negb (has h' "questions" data) = false).
  { rewrite (has_defined data "questions").
    - apply andb_false_r.
    - rewrite Q. intros U. rewrite U in A. discriminate A. }
  pass C0'. pass C1. pass C2'.
  rewrite !(extends_get data) by (exact L || discriminate).
  pass C3. pass C4. rewrite A'.
  first_block ltac:(
    eapply for_indexed_impl; [|exact C5];
    intros x j [] Hx; exists tt; apply validateQuestionStructure_again, Hx).
  exact H.
Qed.

Lemma checkDuplicateIds_again ids qs :
  (forall q, q ∈ qs -> live h q) ->
  checkDuplicateIds h ids qs = Ok tt -> checkDuplicateIds h' ids qs = Ok tt.
Proof.
  revert ids. induction qs as [|q qs IH]; intros ids Hlive H; [reflexivity|].
  simpl in H |- *. apply check_Ok in H as [C H].
  rewrite !(extends_get q) by (first [apply Hlive; left | discriminate]).
  pass C. apply IH; [|exact H]. intros q' Hq'. apply Hlive. right. exact Hq'.
Qed.

End Revalidation.

Section Normal.

Import schema.

Ltac settle_goal_types :=
  repeat match goal with
         | |- context [bool_decide (VString ?a = VString ?b)] =>
             first [ rewrite (bool_decide_eq_true_2 (VString a = VString b))
                       by reflexivity
                   | rewrite (bool_decide_eq_false_2 (VString a = VString b))
                       by discriminate ]
         end.

Lemma checkRecommendedIn_all h id labels recs :
  (forall r, r ∈ recs -> includes labels r = true) ->
  checkRecommendedIn h id labels recs = Ok tt.
Proof.
  induction recs as [|r recs IH]; intros H; [reflexivity|].
  simpl. rewrite (H r) by left. simpl. apply IH.
  intros r' Hr'. apply H. right. exact Hr'.
Qed.

Lemma bindM_lift_ok {B} (k : unit -> M B) h :
  bindM (lift (Ok tt)) k h = k tt h.
Proof. reflexivity. Qed.

(** The second pass on a question that is already in its normal form
    accepts it and leaves the store as it is. *)
Lemma validateQuestionSemantics_normal q h t :
  get h q "type" = VString t ->
  t ∈ validTypes ->
  (t = "single" \/ t = "multi" ->
   truthy (get h q "options") = true
   /\ get h (get h q "options") "length" <> VNumber 0 0) ->
  (t <> "single" -> t <> "multi" ->
   truthy (get h q "options") = false
   /\ get h q "recommended" = VUndefined) ->
  (get h q "conviction" <> VUndefined ->
   get h q "recommended" <> VUndefined) ->
  (t = "single" -> get h q "recommended" <> VUndefined ->
   is_string (get h q "recommended") = true
   /\ includes (optionLabels h q) (get h q "recommended") = true) ->
  (t = "multi" -> get h q "recommended" <> VUndefined ->
   exists rs, as_array h (get h q "recommended") = Some rs
              /\ forall r, r ∈ rs -> includes (optionLabels h q) r = true) ->
  validateQuestionSemantics q h = (h, Ok tt).
Proof.
  intros T V F1 F2 F3 F4 F5.
  unfold validateQuestionSemantics. fold (optionLabels h q). rewrite T.
  assert (Cv : negb (is_undefined (get h q "conviction"))
               && is_undefined (get h q "recommended") = false).
  { destruct (is_undefined (get h q "recommended")) eqn:U;
      [|apply andb_false_r].
    apply bool_decide_eq_true_1 in U.
    destruct (is_undefined (get h q "conviction")) eqn:U'; [reflexivity|].
    exfalso. apply F3; [|exact U]. intros E. rewrite E in U'. discriminate. }
  apply validTypes_inv in V as [-> | [-> | V]].
  - settle_goal_types. simpl orb.
    destruct F1 as [O L]; [auto|].
    rewrite O, (bool_decide_eq_false_2 _ L). simpl. rewrite Cv. simpl.
    rewrite bindM_lift_ok.
    destruct (is_undefined (get h q "recommended")) eqn:U; [reflexivity|].
    destruct F4 as [S I]; [reflexivity | |].
    { intros E. rewrite E in U. discriminate. }
    rewrite bindM_lift_ok. rewrite S, I. reflexivity.
  - settle_goal_types. simpl orb.
    destruct F1 as [O L]; [auto|].
    rewrite O, (bool_decide_eq_false_2 _ L). simpl. rewrite Cv. simpl.
    rewrite bindM_lift_ok.
    destruct (is_undefined (get h q "recommended")) eqn:U; [reflexivity|].
    destruct F5 as (rs & A & I); [reflexivity | |].
    { intros E. rewrite E in U. discriminate. }
    rewrite !bindM_lift_ok.
    assert (IA : isArray h (get h q "recommended") = true).
    { unfold isArray. rewrite A. apply bool_decide_eq_true_2. eauto. }
    rewrite IA, A. unfold bindM at 1, ret at 1.
    rewrite (checkRecommendedIn_all _ _ _ _ I). reflexivity.
  - assert (N1 : t <> "single") by (destruct V as [-> | [-> | ->]]; discriminate).
    assert (N2 : t <> "multi") by (destruct V as [-> | [-> | ->]]; discriminate).
    destruct (F2 N1 N2) as [O U]. rewrite U in *.
    rewrite (bool_decide_eq_false_2 (VString t = VString "single"))
      by congruence.
    rewrite (bool_decide_eq_false_2 (VString t = VString "multi"))
      by congruence.
    simpl orb.
    destruct V as [-> | [-> | ->]]; settle_goal_types; simpl orb;
      rewrite O; simpl; rewrite Cv; reflexivity.
Qed.

Lemma for_of_normal qs h :
  (forall q, q ∈ qs -> validateQuestionSemantics q h = (h, Ok tt)) ->
  for_of validateQuestionSemantics qs h = (h, Ok tt).
Proof.
  induction qs as [|q qs IH]; intros H; [reflexivity|].
  simpl. unfold bindM. rewrite (H q) by left. apply IH.
  intros q' Hq'. apply H. right. exact Hq'.
Qed.

Lemma get_length h v xs :
  as_array h v = Some xs -> get h v "length" = VNumber (Z.of_nat (length xs)) 0.
Proof.
  unfold as_array, get. destruct v as [| | | | |l]; try discriminate.
  destruct (h !! l) as [[m|ys]|]; try discriminate. intros [= ->]. reflexivity.
Qed.

(** X4.  [validateQuestions] is idempotent: a document it has accepted is
    accepted again, in the store the first validation left, and the second
    validation changes nothing.  So a caller may validate a document and
    then hand it to [interview], which validates it once more. *)
Theorem validateQuestions_is_idempotent (data r : value) (h h' : heap)
    (Haccepted : validateQuestions data h = (h', Ok r)) :
  validateQuestions data h' = (h', Ok r).
Proof.
  destruct (validateQuestions_Ok _ _ _ _ Haccepted)
    as (qs & Hqs & Hne & ND & X & Hq).
  destruct (validateQuestions_returns _ _ _ _ Haccepted)
    as (-> & ld & md & -> & Hmd & Hld).
  assert (B : validateBasicStructure h (VRef ld) = Ok (VRef ld)).
  { unfold validateQuestions in Haccepted.
    destruct (validateBasicStructure h (VRef ld)) as [p|e] eqn:B;
      [|discriminate].
    destruct (validateBasicStructure_Ok _ _ _ B) as [-> _]. reflexivity. }
  assert (D : checkDuplicateIds h [] qs = Ok tt).
  { unfold validateQuestions in Haccepted. rewrite B, Hqs in Haccepted.
    simpl in Haccepted.
    destruct (checkDuplicateIds h [] qs) as [[]|e]; [reflexivity|discriminate]. }
  assert (Hlive : forall q, q ∈ qs -> live h q).
  { intros q Hin. destruct (Hq q Hin) as (_ & l & _ & _ & -> & Hl & _).
    exact Hl. }
  unfold validateQuestions.
  rewrite (validateBasicStructure_again h h' X _ _ B).
  rewrite (extends_get h h' X) by (exact Hld || discriminate).
  rewrite (extends_as_array h h' X) by (eapply live_array, Hqs).
  rewrite Hqs. simpl default.
  rewrite (checkDuplicateIds_again h h' X _ _ Hlive D).
  unfold bindM, ret.
  rewrite for_of_normal; [reflexivity|].
  intros q Hin.
  destruct (Hq q Hin) as ((j & S) & l & hi & hi' & -> & Hl & Bq & Ei & Ei' & C & C').
  destruct (validateQuestionStructure_Ok _ _ _ S)
    as (_ & (t & Ht & Hvalid) & _ & Hopts).
  destruct (optionLabels_extends _ _ _ _ S Hl X) as [L' _].
  destruct (optionLabels_extends _ _ _ _ S Hl Ei) as [Li _].
  destruct (validateQuestionSemantics_Ok _ _ _ Bq) as (P1 & P2 & P3 & P4 & P5).
  assert (R : get hi (VRef l) "recommended" = get h (VRef l) "recommended")
    by (apply get_same_cell, C).
  assert (R' : get h' (VRef l) "recommended" = get hi' (VRef l) "recommended")
    by (apply get_same_cell, C').
  pose proof (extends_get h hi Ei (VRef l) "type" Hl ltac:(discriminate)) as Gt.
  pose proof (extends_get h hi Ei (VRef l) "options" Hl ltac:(discriminate)) as Go.
  pose proof (extends_get h hi Ei (VRef l) "conviction" Hl ltac:(discriminate)) as Gc.
  pose proof (extends_get h h' X (VRef l) "type" Hl ltac:(discriminate)) as Gt'.
  pose proof (extends_get h h' X (VRef l) "options" Hl ltac:(discriminate)) as Go'.
  pose proof (extends_get h h' X (VRef l) "conviction" Hl ltac:(discriminate)) as Gc'.
  rewrite R in P2, P3, P4, P5. rewrite Li in P4, P5.
  rewrite ?Gt, ?Go, ?Gc in P1. rewrite ?Gt, ?Go, ?Gc in P2.
  rewrite ?Gt, ?Go, ?Gc in P3. rewrite ?Gt, ?Go, ?Gc in P4.
  rewrite ?Gt, ?Go, ?Gc in P5.
  (* the recommendation in the last store *)
  assert (U0 : get h (VRef l) "recommended" = VUndefined ->
               get h' (VRef l) "recommended" = VUndefined).
  { intros U. destruct (P3 U) as [_ E]. rewrite R', E, R. exact U. }
  apply (validateQuestionSemantics_normal _ _ t).
  - rewrite Gt'. exact Ht.
  - exact Hvalid.
  - intros T. rewrite Go'.
    assert (O : truthy (get h (VRef l) "options") = true).
    { apply P1. rewrite Ht. destruct T as [-> | ->]; auto. }
    split; [exact O|].
    destruct Hopts as [U | (o & os & A & _)]; [rewrite U in O; discriminate O|].
    rewrite (get_length h' _ (o :: os))
      by (rewrite (extends_as_array h h' X) by (eapply live_array, A); exact A).
    discriminate.
  - intros N1 N2. rewrite Go'.
    assert (T : get h (VRef l) "type" = VString "text"
                \/ get h (VRef l) "type" = VString "image"
                \/ get h (VRef l) "type" = VString "info").
    { rewrite Ht. apply validTypes_inv in Hvalid
        as [-> | [-> | [-> | [-> | ->]]]]; auto; contradiction. }
    destruct (P2 T) as [O U]. split; [exact O | apply U0, U].
  - rewrite Gc'. intros Cv U.
    destruct (decide (get h (VRef l) "recommended" = VUndefined)) as [E | E].
    + apply Cv, P3, E.
    + apply validTypes_inv in Hvalid as [-> | [-> | Hvalid]].
      * destruct (P4 Ht E) as (_ & _ & E'). rewrite R', E', R in U.
        contradiction.
      * destruct (P5 Ht E) as (rs & A & _). rewrite R' in U. rewrite U in A.
        discriminate A.
      * apply E, P2. rewrite Ht. destruct Hvalid as [-> | [-> | ->]]; auto.
  - intros -> U. rewrite L'.
    destruct (decide (get h (VRef l) "recommended" = VUndefined)) as [E | E];
      [exfalso; apply U, U0, E|].
    destruct (P4 Ht E) as (Sr & I & E'). rewrite R', E', R. auto.
  - intros -> U. rewrite L'.
    destruct (decide (get h (VRef l) "recommended" = VUndefined)) as [E | E];
      [exfalso; apply U, U0, E|].
    destruct (P5 Ht E) as (rs & A & I). exists rs. split; [|exact I].
    rewrite R'.
    destruct (get hi' (VRef l) "recommended") as [| | | | |lr];
      try discriminate A.
    rewrite (extends_as_array hi' h' Ei'); [exact A|].
    eapply live_array, A.
Qed.

End Normal.

(* ===================================================================== *)
(** ** More facts about src/loader.ts *)
(* ===================================================================== *)

Section ResolvedPaths.

Import loader.

Variable homedir : string.

Local Abbreviation resolveImagePath := (loader.resolveImagePath homedir).
Local Abbreviation resolveOptionalPath := (loader.resolveOptionalPath homedir).
Local Abbreviation mergeThemeConfig := (loader.mergeThemeConfig homedir).

(** A path that is empty, holds [://] or is absolute is left as it is. *)
Lemma resolveImagePath_fixed r baseDir :
  r = EmptyString \/ Str.includes r "://" = true \/ path.isAbsolute r = true ->
  resolveImagePath r baseDir = r.
Proof.
  unfold loader.resolveImagePath. intros [-> | [I | A]].
  - reflexivity.
  - rewrite I. destruct (String.eqb r EmptyString); reflexivity.
  - destruct (String.eqb r EmptyString); [reflexivity|].
    destruct (Str.includes r "://"); [reflexivity|].
    rewrite (expandHome_plain homedir r) by (apply absolute_not_tilde, A).
    rewrite A. reflexivity.
Qed.

(** X5.  Under an absolute directory, what [resolveImagePath] returns is
    empty, or holds [://], or is an absolute path; and resolving it once
    more, under whatever directory, changes nothing: a snapshot whose
    paths were resolved can be decoded again without moving them. *)
Theorem resolveImagePath_is_idempotent (p baseDir other : string)
    (Hbase : path.isAbsolute baseDir = true) :
  (resolveImagePath p baseDir = EmptyString
   \/ Str.includes (resolveImagePath p baseDir) "://" = true
   \/ path.isAbsolute (resolveImagePath p baseDir) = true)
  /\ resolveImagePath (resolveImagePath p baseDir) other
     = resolveImagePath p baseDir.
Proof.
  assert (K : resolveImagePath p baseDir = EmptyString
              \/ Str.includes (resolveImagePath p baseDir) "://" = true
              \/ path.isAbsolute (resolveImagePath p baseDir) = true).
  { unfold loader.resolveImagePath.
    destruct (String.eqb_spec p EmptyString) as [-> | N]; [left; reflexivity|].
    destruct (Str.includes p "://") eqn:I; [right; left; exact I|].
    destruct (path.isAbsolute (expandHome homedir p)) eqn:A;
      [right; right; exact A|].
    right. right. apply join_absolute, Hbase. }
  split; [exact K | apply resolveImagePath_fixed, K].
Qed.

Lemma resolveOptionalPath_absolute v cwd r :
  path.isAbsolute cwd = true ->
  resolveOptionalPath v cwd = Some r -> path.isAbsolute r = true.
Proof.
  intros C. unfold loader.resolveOptionalPath.
  destruct v as [v|]; [|discriminate].
  destruct (String.eqb v EmptyString); [discriminate|].
  destruct (path.isAbsolute (expandHome homedir v)) eqn:A; intros [= <-].
  - exact A.
  - apply join_absolute, C.
Qed.

Lemma resolveOptionalPath_fixed r cwd :
  path.isAbsolute r = true -> resolveOptionalPath (Some r) cwd = Some r.
Proof.
  intros A. unfold loader.resolveOptionalPath.
  destruct (String.eqb_spec r EmptyString) as [-> | _]; [discriminate A|].
  rewrite (expandHome_plain homedir r) by (apply absolute_not_tilde, A).
  rewrite A. reflexivity.
Qed.

(** X6.  Under an absolute working directory the theme [mergeThemeConfig]
    returns always has a toggle hotkey, the caller's own or
    [mod+shift+l]; its light and dark stylesheets are absent, when none or
    an empty one was given, or absolute paths; its mode and name are the
    caller's; and merging it again changes nothing. *)
Theorem mergeThemeConfig_is_normal (theme : option ThemeInput) (cwd : string)
    (Hcwd : path.isAbsolute cwd = true) :
  let merged := mergeThemeConfig theme cwd in
  (exists hotkey,
     toggleHotkey merged = Some hotkey
     /\ (forall t, theme = Some t -> toggleHotkey t = None ->
                   hotkey = "mod+shift+l")
     /\ (theme = None -> hotkey = "mod+shift+l")
     /\ (forall t k, theme = Some t -> toggleHotkey t = Some k -> hotkey = k))
  /\ (forall p, lightPath merged = Some p -> path.isAbsolute p = true)
  /\ (forall p, darkPath merged = Some p -> path.isAbsolute p = true)
  /\ (forall t, theme = Some t ->
        (lightPath t = None \/ lightPath t = Some EmptyString ->
         lightPath merged = None)
        /\ mode merged = mode t /\ name merged = name t)
  /\ mergeThemeConfig (Some merged) cwd = merged.
Proof.
  intros merged.
  assert (L : forall p, lightPath merged = Some p -> path.isAbsolute p = true).
  { intros p. apply resolveOptionalPath_absolute, Hcwd. }
  assert (D : forall p, darkPath merged = Some p -> path.isAbsolute p = true).
  { intros p. apply resolveOptionalPath_absolute, Hcwd. }
  split; [|split; [exact L|split; [exact D|split]]].
  - eexists. split; [reflexivity|]. split; [|split].
    + intros t -> H. simpl. rewrite H. reflexivity.
    + intros ->. reflexivity.
    + intros t k -> H. simpl. rewrite H. reflexivity.
  - intros t ->. split; [|split; reflexivity].
    intros [H | H]; unfold merged; simpl; rewrite H; reflexivity.
  - unfold loader.mergeThemeConfig at 1. simpl default.
    assert (FL : resolveOptionalPath (lightPath merged) cwd = lightPath merged).
    { destruct (lightPath merged) as [p|]; [|reflexivity].
      apply resolveOptionalPath_fixed, L. reflexivity. }
    assert (FD : resolveOptionalPath (darkPath merged) cwd = darkPath merged).
    { destruct (darkPath merged) as [p|]; [|reflexivity].
      apply resolveOptionalPath_fixed, D. reflexivity. }
    rewrite FL, FD. reflexivity.
Qed.

End ResolvedPaths.

Section Snapshots.

Import loader.

Variable homedir : string.

Local Abbreviation resolveAnswer := (loader.resolveAnswer homedir).
Local Abbreviation resolveAnswerPaths := (loader.resolveAnswerPaths homedir).
Local Abbreviation resolvePathValue := (loader.resolvePathValue homedir).
Local Abbreviation loadSavedInterview := (loader.loadSavedInterview homedir).

(** *** Computations that only allocate *)

Lemma grows_refl (h : heap) : exists ext, h = h ++ ext.
Proof. exists []. symmetry. apply app_nil_r. Qed.

Lemma grows_trans (h1 h2 h3 : heap) :
  (exists ext, h2 = h1 ++ ext) -> (exists ext, h3 = h2 ++ ext) ->
  exists ext, h3 = h1 ++ ext.
Proof.
  intros [e1 ->] [e2 ->]. exists (e1 ++ e2). symmetry. apply app_assoc.
Qed.

Lemma grows_alloc (h : heap) c : exists ext, fst (alloc c h) = h ++ ext.
Proof. exists [c]. reflexivity. Qed.

Lemma resolvePathValue_grows v baseDir h :
  exists ext, fst (resolvePathValue v baseDir h) = h ++ ext.
Proof.
  unfold loader.resolvePathValue.
  destruct (as_array h v) as [xs|].
  - unfold bindM, lift. destruct (resolveImagePaths homedir h xs baseDir);
      [apply grows_alloc | apply grows_refl].
  - destruct (is_string v && truthy v); apply grows_refl.
Qed.

Lemma resolveAnswer_grows ans baseDir h :
  exists ext, fst (resolveAnswer ans baseDir h) = h ++ ext.
Proof.
  unfold loader.resolveAnswer.
  assert (G : exists ext,
            fst ((run value <- resolvePathValue (get h ans "value") baseDir;
                  run attachments <-
                    (match get h ans "attachments" with
                     | VUndefined | VNull => ret VUndefined
                     | att =>
                         match as_array h att with
                         | Some ps =>
                             run qs <- lift (resolveImagePaths homedir h ps baseDir);
                             alloc (CArr qs)
                         | None =>
                             fail (TypeError "ans.attachments?.map is not a function")
                         end
                     end);
                  alloc (CObj (<["attachments" := attachments]>
                                 (<["value" := value]> (spread h ans))))) h)
            = h ++ ext).
  { unfold bindM at 1.
    destruct (resolvePathValue_grows (get h ans "value") baseDir h) as [e1 E1].
    destruct (resolvePathValue (get h ans "value") baseDir h) as [h1 [v|e]];
      simpl in E1; [|eauto].
    apply (grows_trans h h1); [exists e1; exact E1|].
    unfold bindM at 1.
    assert (A : exists ext,
              fst ((match get h ans "attachments" with
                    | VUndefined | VNull => ret VUndefined
                    | att =>
                        match as_array h att with
                        | Some ps =>
                            run qs <- lift (resolveImagePaths homedir h ps baseDir);
                            alloc (CArr qs)
                        | None =>
                            fail (TypeError "ans.attachments?.map is not a function")
                        end
                    end) h1) = h1 ++ ext).
    { destruct (get h ans "attachments"); try apply grows_refl;
        (destruct (as_array h _); [|apply grows_refl]);
        unfold bindM, lift;
        (destruct (resolveImagePaths homedir h l baseDir)
         || destruct (resolveImagePaths homedir h l0 baseDir));
        try apply grows_alloc; apply grows_refl. }
    destruct A as [e2 E2].
    match goal with
    | |- context [match ?m h1 with _ => _ end] =>
        destruct (m h1) as [h2 [a|e]]
    end; simpl in E2; [|eauto].
    apply (grows_trans h1 h2); [exists e2; exact E2 | apply grows_alloc]. }
  destruct ans; try apply grows_refl; exact G.
Qed.

Lemma mapM_grows (f : value -> M value) xs h :
  (forall x h, exists ext, fst (f x h) = h ++ ext) ->
  exists ext, fst (mapM f xs h) = h ++ ext.
Proof.
  intros F. revert h. induction xs as [|x xs IH]; intros h; [apply grows_refl|].
  simpl. unfold bindM at 1. destruct (F x h) as [e1 E1].
  destruct (f x h) as [h1 [y|e]]; simpl in E1; [|eauto].
  apply (grows_trans h h1); [exists e1; exact E1|].
  unfold bindM. destruct (IH h1) as [e2 E2].
  destruct (mapM f xs h1) as [h2 [ys|e]]; unfold ret; simpl in E2 |- *;
    exists e2; exact E2.
Qed.

Lemma mapM_length (f : value -> M value) xs h h' ys :
  mapM f xs h = (h', Ok ys) -> length ys = length xs.
Proof.
  revert h h' ys. induction xs as [|x xs IH]; intros h h' ys H.
  - injection H as _ <-. reflexivity.
  - simpl in H. unfold bindM at 1 in H.
    destruct (f x h) as [h1 [y|e]]; [|discriminate].
    unfold bindM in H. destruct (mapM f xs h1) as [h2 [zs|e]] eqn:E;
      [|discriminate].
    injection H as _ <-. simpl. f_equal. eapply IH, E.
Qed.

(** [resolveAnswerPaths] returns a new array with one item for each
    answer, and touches nothing that is there. *)
Lemma resolveAnswerPaths_Ok answers baseDir h h' r :
  resolveAnswerPaths answers baseDir h = (h', Ok r) ->
  exists ext items,
    h' = (h ++ ext) ++ [CArr items]
    /\ r = VRef (length (h ++ ext))
    /\ length items = length answers.
Proof.
  unfold loader.resolveAnswerPaths, bindM. intros H.
  destruct (mapM_grows (fun ans => resolveAnswer ans baseDir) answers h)
    as [ext E]; [intros x h0; apply resolveAnswer_grows|].
  destruct (mapM _ answers h) as [h1 [items|e]] eqn:Q; [|discriminate].
  simpl in E. subst h1. injection H as <- <-.
  exists ext, items. repeat split. eapply mapM_length, Q.
Qed.

End Snapshots.

Section Snapshots2.

Import loader.

Variable homedir : string.

Local Abbreviation resolveAnswerPaths := (loader.resolveAnswerPaths homedir).
Local Abbreviation loadSavedInterview := (loader.loadSavedInterview homedir).

Lemma get_app (h ext : heap) l k :
  l < length h -> get (h ++ ext) (VRef l) k = get h (VRef l) k.
Proof. intros Hl. unfold get. rewrite lookup_app_l by exact Hl. reflexivity. Qed.

Lemma get_last (h : heap) m k :
  get (h ++ [CObj m]) (VRef (length h)) k = default VUndefined (m !! k).
Proof.
  unfold get. rewrite lookup_app_r by lia. rewrite Nat.sub_diag. reflexivity.
Qed.

Lemma if_type_string v :
  if_type TString v VUndefined = VUndefined
  \/ exists s, if_type TString v VUndefined = VString s /\ v = VString s.
Proof.
  unfold if_type. destruct v; simpl; eauto.
Qed.

Lemma if_type_boolean v :
  if_type TBoolean v VUndefined = VUndefined
  \/ exists b, if_type TBoolean v VUndefined = VBool b /\ v = VBool b.
Proof.
  unfold if_type. destruct v; simpl; eauto.
Qed.

(** X7.  What [loadSavedInterview] returns when it succeeds is a new
    object, not the parsed one: a copy of the validated document, sharing
    its questions and every other property, in which four properties are
    set anew.  [savedAt] is the document's when that is a string and
    undefined otherwise; [wasSubmitted] likewise for a boolean;
    [savedAnswers] is undefined when the document holds no array of
    answers and otherwise a new array with one item for each answer;
    [savedFrom] is undefined or a new object whose [cwd] and [sessionId]
    are strings and whose [branch] is a string or null.  Whatever else
    the snapshot put in these places is dropped. *)
Theorem snapshot_metadata_is_sanitized (html filePath : string)
    (h h' : heap) (r : value)
    (Hloaded : loadSavedInterview html filePath h = (h', Ok r)) :
  exists group h1 data h2 hx m,
    match_data html = Some group
    /\ JSON.parse group h = (h1, Ok data)
    /\ schema.validateQuestions data h1 = (h2, Ok data)
    /\ (exists ext, hx = h2 ++ ext)
    /\ h' = hx ++ [CObj m] /\ r = VRef (length hx) /\ r <> data
    /\ (forall k, k ∉ ["savedAnswers"; "savedAt"; "wasSubmitted"; "savedFrom"] ->
          get h' r k = get h2 data k)
    /\ (get h' r "savedAt" = VUndefined
        \/ exists s, get h' r "savedAt" = VString s
                     /\ get h2 data "savedAt" = VString s)
    /\ (get h' r "wasSubmitted" = VUndefined
        \/ exists b, get h' r "wasSubmitted" = VBool b
                     /\ get h2 data "wasSubmitted" = VBool b)
    /\ match as_array h2 (get h2 data "savedAnswers") with
       | None => get h' r "savedAnswers" = VUndefined
       | Some answers =>
           exists items,
             as_array h' (get h' r "savedAnswers") = Some items
             /\ length items = length answers
             /\ isArray h2 (get h' r "savedAnswers") = false
       end
    /\ (get h' r "savedFrom" = VUndefined
        \/ (exists c, get h' (get h' r "savedFrom") "cwd" = VString c)
           /\ (exists s, get h' (get h' r "savedFrom") "sessionId" = VString s)
           /\ (get h' (get h' r "savedFrom") "branch" = VNull
               \/ exists b, get h' (get h' r "savedFrom") "branch" = VString b)).
Proof.
  unfold loader.loadSavedInterview in Hloaded.
  destruct (match_data html) as [group|]; [|discriminate].
  destruct (JSON.parse group h) as [h1 [data|e]] eqn:P; [|discriminate].
  unfold bindM at 1 in Hloaded.
  destruct (schema.validateQuestions data h1) as [h2 [validated|e]] eqn:V;
    [|discriminate].
  destruct (validateQuestions_returns _ _ _ _ V) as (-> & ld & md & -> & Hmd & Hld1).
  assert (Hld : ld < length h2) by (eapply lookup_lt_Some, Hmd).
  unfold bindM at 1 in Hloaded.
  (* the answers *)
  assert (SA : exists h3 sa,
            (match as_array h2 (get h2 (VRef ld) "savedAnswers") with
             | Some answers =>
                 resolveAnswerPaths answers (path.dirname filePath) h2
             | None => ret VUndefined h2
             end) = (h3, Ok sa)
            /\ (exists ext, h3 = h2 ++ ext)
            /\ match as_array h2 (get h2 (VRef ld) "savedAnswers") with
               | None => sa = VUndefined
               | Some answers =>
                   exists items,
                     as_array h3 sa = Some items
                     /\ length items = length answers
                     /\ isArray h2 sa = false
               end).
  { destruct (as_array h2 (get h2 (VRef ld) "savedAnswers")) as [answers|].
    - destruct (resolveAnswerPaths answers (path.dirname filePath) h2)
        as [h3 [sa|e]] eqn:R; [|discriminate].
      destruct (resolveAnswerPaths_Ok _ _ _ _ _ _ R) as (ext & items & -> & -> & L).
      exists ((h2 ++ ext) ++ [CArr items]), (VRef (length (h2 ++ ext))).
      split; [reflexivity|]. split.
      + exists (ext ++ [CArr items]). symmetry. apply app_assoc.
      + exists items. split; [|split; [exact L|]].
        * unfold as_array. rewrite lookup_app_r by lia.
          rewrite Nat.sub_diag. reflexivity.
        * unfold isArray, as_array.
          rewrite (lookup_ge_None_2 h2) by (rewrite length_app; lia).
          apply bool_decide_eq_false_2. intros [x Hx]. discriminate.
    - exists h2, VUndefined. split; [reflexivity|].
      split; [apply grows_refl | reflexivity]. }
  destruct SA as (h3 & sa & E3 & [ext3 E3'] & Hsa).
  rewrite E3 in Hloaded. clear E3.
  unfold bindM at 1 in Hloaded. cbv beta in Hloaded.
  (* where the answers came from *)
  assert (SF : exists h4 sfr,
            (if truthy (get h3 (VRef ld) "savedFrom")
                && is_object (get h3 (VRef ld) "savedFrom")
                && is_string (get h3 (get h3 (VRef ld) "savedFrom") "cwd")
                && is_string (get h3 (get h3 (VRef ld) "savedFrom") "sessionId")
             then
               alloc
                 (CObj
                    (<["cwd" := get h3 (get h3 (VRef ld) "savedFrom") "cwd"]>
                       (<["branch" :=
                            if_type TString
                              (get h3 (get h3 (VRef ld) "savedFrom") "branch")
                              VNull]>
                          (<["sessionId" :=
                               get h3 (get h3 (VRef ld) "savedFrom")
                                 "sessionId"]> ∅))))
                 h3
             else ret VUndefined h3) = (h4, Ok sfr)
            /\ (exists ext, h4 = h3 ++ ext)
            /\ (sfr = VUndefined
                \/ (exists c, get h4 sfr "cwd" = VString c)
                   /\ (exists s, get h4 sfr "sessionId" = VString s)
                   /\ (get h4 sfr "branch" = VNull
                       \/ exists b, get h4 sfr "branch" = VString b)
                   /\ exists l, sfr = VRef l /\ l < length h4)).
  { set (sf := get h3 (VRef ld) "savedFrom").
    destruct (truthy sf && is_object sf) eqn:C0; simpl;
      [|exists h3, VUndefined; split; [reflexivity|];
        split; [apply grows_refl | left; reflexivity]].
    destruct (is_string (get h3 sf "cwd")) eqn:C1; simpl;
      [|exists h3, VUndefined; split; [reflexivity|];
        split; [apply grows_refl | left; reflexivity]].
    destruct (is_string (get h3 sf "sessionId")) eqn:C2; simpl;
      [|exists h3, VUndefined; split; [reflexivity|];
        split; [apply grows_refl | left; reflexivity]].
    eexists _, _. split; [reflexivity|]. split; [eexists; reflexivity|].
    right. rewrite !get_last.
    destruct (is_string_inv _ C1) as [c Hc].
    destruct (is_string_inv _ C2) as [s Hs].
    rewrite lookup_insert_eq.
    rewrite (lookup_insert_ne _ "cwd" "sessionId") by discriminate.
    rewrite (lookup_insert_ne _ "branch" "sessionId") by discriminate.
    rewrite lookup_insert_eq.
    rewrite (lookup_insert_ne _ "cwd" "branch") by discriminate.
    rewrite lookup_insert_eq. simpl.
    split; [exists c; exact Hc|]. split; [exists s; exact Hs|].
    split.
    - unfold if_type. destruct (get h3 sf "branch"); simpl; eauto.
    - exists (length h3). split; [reflexivity|].
      rewrite length_app. simpl. lia. }
  destruct SF as (h4 & sfr & E4' & [ext4 E4] & Hsf).
  rewrite E4' in Hloaded. clear E4'. unfold alloc in Hloaded.
  apply pair_equal_spec in Hloaded as [<- Hr].
  assert (Er : r = VRef (length h4)) by congruence. subst r. clear Hr.
  exists group, h1, (VRef ld), h2, h4. eexists.
  split; [reflexivity|]. split; [exact P|]. split; [exact V|].
  assert (G4 : exists ext, h4 = h2 ++ ext).
  { exists (ext3 ++ ext4). rewrite E4, E3'. symmetry. apply app_assoc. }
  split; [exact G4|]. split; [reflexivity|]. split; [reflexivity|].
  destruct G4 as [ext G4].
  assert (Hlen4 : length h2 <= length h4) by (rewrite G4, length_app; lia).
  split; [intros [= E]; lia|].
  assert (D : forall k, get h4 (VRef ld) k = get h2 (VRef ld) k).
  { intros k. rewrite G4. apply get_app, Hld. }
  assert (Sp : forall k, default VUndefined (spread h4 (VRef ld) !! k)
                         = get h2 (VRef ld) k).
  { intros k. rewrite <- D. unfold spread, get.
    destruct (h4 !! ld) as [[m|xs]|] eqn:E; try reflexivity.
    exfalso. rewrite G4, lookup_app_l, Hmd in E by exact Hld. discriminate. }
  split; [|split; [|split; [|split]]].
  - intros k Hk. rewrite get_last.
    rewrite !elem_of_cons, elem_of_nil in Hk.
    rewrite !lookup_insert_ne by (intros <-; tauto). apply Sp.
  - rewrite get_last. rewrite lookup_insert_ne by discriminate.
    rewrite lookup_insert_eq. cbv beta iota delta [from_option id]. rewrite D.
    destruct (if_type_string (get h2 (VRef ld) "savedAt")) as [-> | (s & -> & E)];
      eauto.
  - rewrite get_last. rewrite !lookup_insert_ne by discriminate.
    rewrite lookup_insert_eq. cbv beta iota delta [from_option id]. rewrite D.
    destruct (if_type_boolean (get h2 (VRef ld) "wasSubmitted"))
      as [-> | (b & -> & E)]; eauto.
  - rewrite get_last, lookup_insert_eq. cbv beta iota delta [from_option id].
    destruct (as_array h2 (get h2 (VRef ld) "savedAnswers")) as [answers|];
      [|exact Hsa].
    destruct Hsa as (items & A & L & N). exists items.
    split; [|split; assumption].
    destruct sa as [| | | | |la]; try discriminate A.
    unfold as_array in A |- *.
    destruct (h3 !! la) as [c|] eqn:X; [|discriminate A].
    assert (la < length h3) by (eapply lookup_lt_Some, X).
    rewrite lookup_app_l by (rewrite E4, length_app; lia).
    rewrite E4, lookup_app_l, X by assumption. exact A.
  - rewrite get_last. rewrite !lookup_insert_ne by discriminate.
    rewrite lookup_insert_eq. cbv beta iota delta [from_option id].
    destruct Hsf as [-> | (C & S & B & l & -> & Hl)]; [left; reflexivity|].
    right. rewrite !get_app by exact Hl. auto.
Qed.

End Snapshots2.

Section DecodedAnswers.

Import loader.

Variable homedir : string.

Local Abbreviation resolveAnswer := (loader.resolveAnswer homedir).
Local Abbreviation resolveAnswerPaths := (loader.resolveAnswerPaths homedir).
Local Abbreviation resolvePathValue := (loader.resolvePathValue homedir).

(** The copy [resolveAnswer] makes of an answer that is an object: a new
    object that holds what the answer holds but for its value and its
    attachments. *)
Lemma resolveAnswer_Ok l m baseDir h h' r :
  h !! l = Some (CObj m) ->
  resolveAnswer (VRef l) baseDir h = (h', Ok r) ->
  exists ext m',
    h' = (h ++ ext) ++ [CObj m']
    /\ r = VRef (length (h ++ ext))
    /\ forall k, k ∉ ["value"; "attachments"] -> m' !! k = m !! k.
Proof.
  intros Hl H. unfold loader.resolveAnswer in H.
  unfold bindM at 1 in H.
  destruct (resolvePathValue_grows homedir (get h (VRef l) "value") baseDir h)
    as [e1 E1].
  destruct (resolvePathValue (get h (VRef l) "value") baseDir h)
    as [h1 [v|e]]; [|discriminate].
  simpl in E1. subst h1.
  unfold bindM at 1 in H.
  match type of H with
  | context [match ?t (h ++ e1) with _ => _ end] =>
      assert (A : exists e2, fst (t (h ++ e1)) = (h ++ e1) ++ e2);
      [|destruct (t (h ++ e1)) as [h2 [a|e]]; [|discriminate]]
  end.
  { destruct (get h (VRef l) "attachments"); try apply grows_refl;
      (destruct (as_array h _); [|apply grows_refl]);
      unfold bindM, lift;
      (destruct (resolveImagePaths homedir h l0 baseDir)
       || destruct (resolveImagePaths homedir h l1 baseDir));
      try apply grows_alloc; apply grows_refl. }
  destruct A as [e2 E2]. simpl in E2. subst h2.
  unfold alloc in H. apply pair_equal_spec in H as [<- Hr].
  exists (e1 ++ e2). eexists. rewrite (app_assoc h e1 e2).
  split; [reflexivity|]. split; [congruence|].
  intros k Hk. rewrite !elem_of_cons, elem_of_nil in Hk.
  rewrite !lookup_insert_ne by (intros <-; tauto).
  unfold spread. rewrite Hl. reflexivity.
Qed.

Lemma mapM_resolveAnswer_Ok answers baseDir h h' items :
  mapM (fun ans => resolveAnswer ans baseDir) answers h = (h', Ok items) ->
  Forall (fun a => exists l m, a = VRef l /\ h !! l = Some (CObj m)) answers ->
  (exists ext, h' = h ++ ext)
  /\ Forall2 (fun ans item =>
                (exists l, item = VRef l /\ length h <= l < length h')
                /\ forall k, k ∉ ["value"; "attachments"] ->
                             get h' item k = get h' ans k)
       answers items.
Proof.
  revert h items. induction answers as [|ans answers IH]; intros h items H Hobjs.
  - injection H as <- <-. split; [apply grows_refl | constructor].
  - apply Forall_cons in Hobjs as [(l & m & -> & Hl) Hobjs].
    simpl in H. unfold bindM at 1 in H.
    destruct (resolveAnswer (VRef l) baseDir h) as [h1 [y|e]] eqn:R;
      [|discriminate].
    destruct (resolveAnswer_Ok _ _ _ _ _ _ Hl R) as (ext & m' & -> & -> & Hm').
    unfold bindM in H.
    destruct (mapM _ answers ((h ++ ext) ++ [CObj m'])) as [h2 [ys|e]] eqn:Q;
      [|discriminate].
    unfold ret in H. injection H as <- <-.
    destruct (IH _ _ Q) as [[ext' ->] F].
    { eapply Forall_impl; [exact Hobjs|].
      intros a (la & ma & -> & Hla). exists la, ma. split; [reflexivity|].
      rewrite <- app_assoc. apply lookup_app_l_Some, Hla. }
    assert (Hlt : l < length h) by (eapply lookup_lt_Some, Hl).
    split.
    { exists ((ext ++ [CObj m']) ++ ext'). rewrite !app_assoc. reflexivity. }
    constructor.
    + split; [exists (length (h ++ ext)); split; [reflexivity|];
              rewrite !length_app; simpl; lia|].
      intros k Hk. unfold get.
      rewrite (lookup_app_l _ ext' (length (h ++ ext)))
        by (rewrite !length_app; simpl; lia).
      rewrite (lookup_app_r (h ++ ext)) by lia. rewrite Nat.sub_diag. simpl.
      rewrite (Hm' k Hk).
      rewrite <- !app_assoc. rewrite lookup_app_l by exact Hlt.
      rewrite Hl. reflexivity.
    + eapply Forall2_impl; [exact F|].
      simpl. intros a item [(li & -> & Hli) G]. split; [|exact G].
      exists li. split; [reflexivity|].
      repeat rewrite length_app in Hli. repeat rewrite length_app.
      simpl in Hli |- *. lia.
Qed.

Lemma Forall2_with {A B} (P : A -> B -> Prop) (Q : A -> Prop) xs ys :
  Forall2 P xs ys -> Forall Q xs -> Forall2 (fun x y => P x y /\ Q x) xs ys.
Proof.
  induction 1 as [|x y xs ys p _ IH]; intros F; [constructor|].
  apply Forall_cons in F as [q F]. constructor; auto.
Qed.

(** X8.  Decoding the saved answers of a snapshot keeps the answers and
    their order: the result is a new array with, for each answer, a new
    object that holds the id and every other property of the answer as it
    is; only [value] and [attachments] are set anew.  The answers
    themselves, and everything else that was there, stay as they were. *)
Theorem decoded_answers_keep_their_ids (answers : list value)
    (baseDir : string) (h h' : heap) (r : value)
    (Hdecoded : resolveAnswerPaths answers baseDir h = (h', Ok r))
    (Hobjects : Forall (fun a => exists l m, a = VRef l /\ h !! l = Some (CObj m))
                  answers) :
  (forall l, l < length h -> h' !! l = h !! l)
  /\ exists items,
       as_array h' r = Some items
       /\ isArray h r = false
       /\ Forall2 (fun ans item =>
                     item <> ans
                     /\ get h' item "id" = get h ans "id"
                     /\ forall k, k ∉ ["value"; "attachments"] ->
                                  get h' item k = get h ans k)
            answers items.
Proof.
  unfold loader.resolveAnswerPaths, bindM in Hdecoded.
  destruct (mapM _ answers h) as [h1 [items|e]] eqn:Q; [|discriminate].
  destruct (mapM_resolveAnswer_Ok _ _ _ _ _ Q Hobjects) as [[ext ->] F].
  unfold alloc in Hdecoded. injection Hdecoded as <- <-.
  split.
  { intros l Hl. rewrite <- app_assoc. apply lookup_app_l, Hl. }
  exists items. split; [|split].
  - unfold as_array. rewrite lookup_app_r by lia.
    rewrite Nat.sub_diag. reflexivity.
  - unfold isArray, as_array.
    rewrite (lookup_ge_None_2 h) by (rewrite length_app; lia).
    apply bool_decide_eq_false_2. intros [x Hx]. discriminate.
  - eapply Forall2_impl; [apply (Forall2_with _ _ _ _ F Hobjects)|].
    simpl. intros a item [[(li & -> & Hli) G] (la & ma & -> & Hla)].
    assert (Hlt : la < length h) by (eapply lookup_lt_Some, Hla).
    assert (K : forall k, k ∉ ["value"; "attachments"] ->
                          get ((h ++ ext) ++ [CArr items]) (VRef li) k
                          = get h (VRef la) k).
    { intros k Hk. rewrite get_app by lia. rewrite (G k Hk).
      apply get_app, Hlt. }
    split; [intros [= ->]; lia|]. split; [|exact K].
    apply K. rewrite !elem_of_cons, elem_of_nil.
    intros [E | [E | []]]; discriminate E.
Qed.

End DecodedAnswers.

Section DecodedPaths.

Import loader.

Variable homedir : string.

Local Abbreviation resolveImagePath := (loader.resolveImagePath homedir).
Local Abbreviation resolveAnswer := (loader.resolveAnswer homedir).
Local Abbreviation resolveAnswerPaths := (loader.resolveAnswerPaths homedir).
Local Abbreviation resolvePathValue := (loader.resolvePathValue homedir).
Local Abbreviation loadSavedInterview := (loader.loadSavedInterview homedir).

(** *** The paths of the decoded answers *)

(** What is there stays as it is while the store grows. *)






(** *** One answer *)




(** *** The answers of a snapshot *)





End DecodedPaths.




Section QuestionSources.

Import loader.

Variable homedir : string.
Variable readFile : string -> option string.

Local Abbreviation loadSavedInterview := (loader.loadSavedInterview homedir).
Local Abbreviation loadQuestions := (loader.loadQuestions homedir readFile).

(** X9.  [loadQuestions] reads one file: the path it was given when that
    is absolute, its expansion under the home directory when the path
    starts with a tilde and the expansion is absolute, and the path joined
    onto the working directory otherwise; under an absolute working
    directory that is an absolute path.  When the file is missing the
    error names this path and the store is untouched.  A file whose name
    ends in [.html] or [.htm] is decoded as a snapshot and as nothing
    else; every other file is parsed as JSON and validated, and a text
    that is not JSON is reported as invalid JSON, with the message of the
    parser.  [interview] called with a path alone, to a file that is
    missing, is rejected with the same error and starts nothing. *)
Theorem loadQuestions_outcomes (questionsPath cwd : string) (h : heap) :
  let expanded := expandHome homedir questionsPath in
  let absolutePath := if path.isAbsolute expanded then expanded
                      else path.join [cwd; questionsPath] in
  (path.isAbsolute cwd = true -> path.isAbsolute absolutePath = true)
  /\ (path.isAbsolute questionsPath = true -> absolutePath = questionsPath)
  /\ (readFile absolutePath = None ->
      loadQuestions questionsPath cwd h
      = (h, Throw (Error ("Questions file not found: " +:+ absolutePath)))
      /\ forall options sessionId sessionToken processCwd,
           truthy (lib.questions options) = false ->
           lib.questionsPath options = Some questionsPath ->
           questionsPath <> EmptyString ->
           cwd = default processCwd (lib.opt_cwd options) ->
           lib.interview options sessionId sessionToken homedir readFile
             processCwd h
           = (h, lib.Rejected
                   (Error ("Questions file not found: " +:+ absolutePath))))
  /\ (forall content,
        readFile absolutePath = Some content ->
        Str.endsWith absolutePath ".html" || Str.endsWith absolutePath ".htm"
        = true ->
        loadQuestions questionsPath cwd h
        = loadSavedInterview content absolutePath h)
  /\ (forall content,
        readFile absolutePath = Some content ->
        Str.endsWith absolutePath ".html" || Str.endsWith absolutePath ".htm"
        = false ->
        match JSON.parse content h with
        | (h1, Ok data) =>
            loadQuestions questionsPath cwd h = schema.validateQuestions data h1
        | (h1, Throw e) =>
            exists message,
              loadQuestions questionsPath cwd h
              = (h1, Throw (Error ("Invalid JSON in questions file: "
                                   +:+ message)))
        end).
Proof.
  intros expanded absolutePath.
  split; [|split; [|split; [|split]]].
  - intros C. unfold absolutePath.
    destruct (path.isAbsolute expanded) eqn:A; [exact A|].
    apply join_absolute, C.
  - intros A. unfold absolutePath, expanded.
    rewrite (expandHome_plain homedir questionsPath)
      by (apply absolute_not_tilde, A).
    rewrite A. reflexivity.
  - intros F.
    assert (L : loadQuestions questionsPath cwd h
                = (h, Throw (Error ("Questions file not found: "
                                    +:+ absolutePath)))).
    { unfold loader.loadQuestions. fold expanded. fold absolutePath.
      rewrite F. reflexivity. }
    split; [exact L|].
    intros options sessionId sessionToken processCwd Q Pth N ->.
    unfold lib.interview. rewrite Q, Pth.
    rewrite (proj2 (String.eqb_neq _ _) N). rewrite L. reflexivity.
  - intros content F E. unfold loader.loadQuestions.
    fold expanded. fold absolutePath. rewrite F, E. reflexivity.
  - intros content F E. unfold loader.loadQuestions.
    fold expanded. fold absolutePath. rewrite F, E.
    destruct (JSON.parse content h) as [h1 [data|[m|m|m]]]; eauto.
Qed.

End QuestionSources.

Section InlineQuestions.

Variable options : lib.InterviewOptions.
Variable sessionId sessionToken : string.
Variable homedir : string.
Variable processCwd : string.

(** X10.  When the caller passes the questions themselves, a path passed
    with them is not looked at: whatever the files hold, and whether the
    file exists or not, [interview] does the same.  It validates the
    caller's object in place.  When that fails the call is rejected with
    the error of the validation.  When it succeeds and the signal is not
    already aborted, the call stays pending with [startInterviewServer]
    called on that very object, under the session's id and token, with the
    caller's saved answers and with the defaults of 600 seconds, the
    process's working directory and saving on submit where the caller gave
    none.  In no other way does the call get to the server. *)
Theorem inline_questions_win (readFile readFile' : string -> option string)
    (h : heap) (Hinline : truthy (lib.questions options) = true) :
  lib.interview options sessionId sessionToken homedir readFile processCwd h
  = lib.interview options sessionId sessionToken homedir readFile' processCwd h
  /\ (forall e,
        snd (schema.validateQuestions (lib.questions options) h) = Throw e ->
        snd (lib.interview options sessionId sessionToken homedir readFile
               processCwd h) = lib.Rejected e)
  /\ (forall h' s,
        lib.interview options sessionId sessionToken homedir readFile
          processCwd h = (h', lib.Pending s) ->
        h' = fst (schema.validateQuestions (lib.questions options) h)
        /\ exists o,
             s = lib.pending options o
             /\ lib.srv_questions o = lib.questions options
             /\ lib.srv_sessionId o = sessionId
             /\ lib.srv_sessionToken o = sessionToken
             /\ lib.srv_timeout o = default 600%Z (lib.opt_timeout options)
             /\ lib.srv_cwd o = default processCwd (lib.opt_cwd options)
             /\ lib.srv_autoSaveOnSubmit o
                = default true (lib.autoSave options)
             /\ lib.srv_savedAnswers o
                = (if config.nullish (lib.savedAnswers options)
                   then VUndefined else lib.savedAnswers options))
  /\ (forall h' q,
        schema.validateQuestions (lib.questions options) h = (h', Ok q) ->
        lib.signal_aborted <$> lib.signal options <> Some true ->
        lib.interview options sessionId sessionToken homedir readFile
          processCwd h
        = (h', lib.Pending (lib.pending options
             {| lib.srv_questions := lib.questions options;
                lib.srv_sessionToken := sessionToken;
                lib.srv_sessionId := sessionId;
                lib.srv_cwd := default processCwd (lib.opt_cwd options);
                lib.srv_timeout := default 600%Z (lib.opt_timeout options);
                lib.srv_port := lib.port options;
                lib.srv_verbose := lib.verbose options;
                lib.srv_theme :=
                  loader.mergeThemeConfig homedir (lib.theme options)
                    (default processCwd (lib.opt_cwd options));
                lib.srv_snapshotDir :=
                  match lib.snapshotDir options with
                  | Some d => if String.eqb d EmptyString then None
                              else Some (loader.expandHome homedir d)
                  | None => None
                  end;
                lib.srv_autoSaveOnSubmit :=
                  default true (lib.autoSave options);
                lib.srv_savedAnswers :=
                  if config.nullish (lib.savedAnswers options)
                  then VUndefined else lib.savedAnswers options |}))).
Proof.
  unfold lib.interview. rewrite Hinline.
  split; [reflexivity|]. split; [|split].
  - intros e He.
    destruct (schema.validateQuestions (lib.questions options) h)
      as [h1 [q|e']]; simpl in He; [discriminate|].
    injection He as ->. reflexivity.
  - intros h' s H.
    destruct (schema.validateQuestions (lib.questions options) h)
      as [h1 [q|e']] eqn:V; [|discriminate].
    destruct (validateQuestions_returns _ _ _ _ V) as [-> _].
    destruct (bool_decide _); [discriminate|].
    injection H as <- <-. split; [reflexivity|].
    eexists. split; [reflexivity|]. simpl.
    repeat split. destruct (lib.savedAnswers options); reflexivity.
  - intros h' q V N. rewrite V.
    destruct (validateQuestions_returns _ _ _ _ V) as [-> _].
    rewrite (bool_decide_eq_false_2 _ N).
    do 3 f_equal. f_equal.
    destruct (lib.savedAnswers options); reflexivity.
Qed.

End InlineQuestions.

(* ===================================================================== *)
(** ** Facts about [formatTimeAgo] (src/loader.ts) *)
(* ===================================================================== *)

(** X11.  [formatTimeAgo] names the age [now - timestamp], in milliseconds,
    by its largest whole unit, rounded down: a time in the future is
    [just now]; below a minute it counts seconds (also [0 seconds ago] and
    [1 seconds ago]); below an hour it counts minutes and below two hours
    it says [1 hour ago]; from there on it counts hours, however many: it
    has no days.  The singular is used for exactly one minute and one
    hour. *)
Theorem formatTimeAgo_unit (now timestamp : Z) :
  let age := (now - timestamp)%Z in
  ((age < 0)%Z -> loader.formatTimeAgo now timestamp = "just now")
  /\ ((0 <= age < 60000)%Z ->
      loader.formatTimeAgo now timestamp
      = Z_to_string (age / 1000) +:+ " seconds ago")
  /\ ((60000 <= age < 120000)%Z ->
      loader.formatTimeAgo now timestamp = "1 minute ago")
  /\ ((120000 <= age < 3600000)%Z ->
      loader.formatTimeAgo now timestamp
      = Z_to_string (age / 60000) +:+ " minutes ago"
      /\ (2 <= age / 60000 <= 59)%Z)
  /\ ((3600000 <= age < 7200000)%Z ->
      loader.formatTimeAgo now timestamp = "1 hour ago")
  /\ ((7200000 <= age)%Z ->
      loader.formatTimeAgo now timestamp
      = Z_to_string (age / 3600000) +:+ " hours ago"
      /\ (2 <= age / 3600000)%Z).
Proof.
  intros age. unfold loader.formatTimeAgo. fold age.
  assert (M : (age / 1000 / 60 = age / 60000)%Z)
    by (rewrite Z.div_div by lia; reflexivity).
  assert (H : (age / 1000 / 60 / 60 = age / 3600000)%Z)
    by (rewrite !Z.div_div by lia; reflexivity).
  cbv zeta. rewrite H, M.
  pose proof (Z.div_mod age 1000 ltac:(lia)) as D1.
  pose proof (Z.mod_pos_bound age 1000 ltac:(lia)) as B1.
  pose proof (Z.div_mod age 60000 ltac:(lia)) as D2.
  pose proof (Z.mod_pos_bound age 60000 ltac:(lia)) as B2.
  pose proof (Z.div_mod age 3600000 ltac:(lia)) as D3.
  pose proof (Z.mod_pos_bound age 3600000 ltac:(lia)) as B3.
  repeat match goal with |- _ /\ _ => split end; intros Hage.
  - destruct (Z.ltb_spec (age / 1000) 0); [reflexivity | lia].
  - destruct (Z.ltb_spec (age / 1000) 0); [lia|].
    destruct (Z.ltb_spec (age / 1000) 60); [reflexivity | lia].
  - destruct (Z.ltb_spec (age / 1000) 0); [lia|].
    destruct (Z.ltb_spec (age / 1000) 60); [lia|].
    destruct (Z.ltb_spec (age / 60000) 60); [|lia].
    destruct (Z.eqb_spec (age / 60000) 1); [reflexivity | lia].
  - destruct (Z.ltb_spec (age / 1000) 0); [lia|].
    destruct (Z.ltb_spec (age / 1000) 60); [lia|].
    destruct (Z.ltb_spec (age / 60000) 60); [|lia].
    destruct (Z.eqb_spec (age / 60000) 1); [lia|].
    split; [reflexivity | lia].
  - destruct (Z.ltb_spec (age / 1000) 0); [lia|].
    destruct (Z.ltb_spec (age / 1000) 60); [lia|].
    destruct (Z.ltb_spec (age / 60000) 60); [lia|].
    destruct (Z.eqb_spec (age / 3600000) 1); [reflexivity | lia].
  - destruct (Z.ltb_spec (age / 1000) 0); [lia|].
    destruct (Z.ltb_spec (age / 1000) 60); [lia|].
    destruct (Z.ltb_spec (age / 60000) 60); [lia|].
    destruct (Z.eqb_spec (age / 3600000) 1); [lia|].
    split; [reflexivity | lia].
Qed.

(* ===================================================================== *)
(** ** Facts about the browser launcher (src/unnamed/part_000) *)
(* ===================================================================== *)

(** X12.  Whatever the platform and the browser asked for, the URL is the
    last argument of the command and is passed as one argument of its
    own.  On macOS and Windows a browser that is
    the empty string counts as none; elsewhere the browser is the command
    itself, and an empty string is then the command that is run.  When the
    command fails the promise is rejected, with the message of the failure
    or, when that is empty, with one that names the command: the message
    is never empty.  When the command succeeds the promise is not
    rejected. *)
Theorem openUrl_command (platform url : string) (b : option string) :
  last (browser.args (browser.openUrl platform url b)) = Some url
  /\ (platform = "darwin" \/ platform = "win32" ->
      browser.openUrl platform url (Some EmptyString)
      = browser.openUrl platform url None
      /\ forall name, b = Some name -> name <> EmptyString ->
           name ∈ browser.args (browser.openUrl platform url b))
  /\ (platform <> "darwin" -> platform <> "win32" ->
      browser.openUrl platform url b
      = {| browser.cmd := default "xdg-open" b; browser.args := [url] |})
  /\ (forall err,
        exists message,
          browser.settle (browser.cmd (browser.openUrl platform url b))
            (Some err) = Some message
          /\ message <> EmptyString
          /\ (err <> EmptyString -> message = err)
          /\ (err = EmptyString ->
              message = "Failed to open browser ("
                        +:+ browser.cmd (browser.openUrl platform url b)
                        +:+ ")"))
  /\ browser.settle (browser.cmd (browser.openUrl platform url b)) None = None.
Proof.
  split; [|split; [|split; [|split]]].
  - unfold browser.openUrl.
    destruct (String.eqb platform "darwin"), (String.eqb platform "win32"),
      (browser.given b); reflexivity.
  - intros [-> | ->]; (split; [reflexivity|]); intros name -> Hname;
      unfold browser.openUrl, browser.given; simpl;
      apply String.eqb_neq in Hname; rewrite Hname; set_solver.
  - intros H1 H2. unfold browser.openUrl.
    apply String.eqb_neq in H1, H2. rewrite H1, H2. reflexivity.
  - intros err. unfold browser.settle.
    destruct (String.eqb_spec err EmptyString) as [->|N].
    + eexists. split; [reflexivity|]. split; [discriminate|].
      split; [congruence | reflexivity].
    + exists err. split; [reflexivity|]. split; [exact N|].
      split; [reflexivity | congruence].
  - reflexivity.
Qed.

(* ===================================================================== *)
(** ** More facts about src/lib.ts *)
(* ===================================================================== *)

Section LibRuns.

Import lib.

Variable options : InterviewOptions.
Variable sessionId : string.

Local Abbreviation step := (lib.step options sessionId).
Local Abbreviation steps := (lib.steps options sessionId).

Lemma steps_app s evs1 evs2 : steps s (evs1 ++ evs2) = steps (steps s evs1) evs2.
Proof. apply fold_left_app. Qed.

Lemma closes_emit e s :
  closes (emit e s)
  = closes s ++ match e with Close h => [h] | _ => [] end.
Proof.
  unfold closes, emit; simpl. rewrite omap_app. simpl.
  destruct e; reflexivity.
Qed.

Lemma cleanup_closes s :
  closes (cleanup s) = closes s ++ match server s with
                                   | Some h => [h]
                                   | None => []
                                   end.
Proof.
  unfold cleanup. destruct (server s) as [h|]; [|symmetry; apply app_nil_r].
  rewrite closes_emit. reflexivity.
Qed.

Lemma removeAbortListener_closes s :
  closes (removeAbortListener options s) = closes s.
Proof.
  unfold removeAbortListener. destruct (signal options); [|reflexivity].
  rewrite closes_emit. apply app_nil_r.
Qed.

Lemma removeAbortListener_server s :
  server (removeAbortListener options s) = server s.
Proof. unfold removeAbortListener. destruct (signal options); reflexivity. Qed.

Lemma finish_tidy handle st rs s :
  tidy handle s -> tidy handle (finish options st rs s).
Proof.
  intros T. unfold finish. destruct (resolved s) eqn:E; [exact T|].
  destruct T as [R T].
  set (s1 := {| server := server s; resolved := true; st_url := st_url s;
                effects := effects s |}).
  assert (C : closes
                (emit (Resolve
                         {| status := st; responses := default [] rs;
                            url := st_url
                                     (cleanup
                                        (removeAbortListener options s1)) |})
                   (cleanup (removeAbortListener options s1)))
              = closes s ++ match server s with Some h => [h] | None => [] end).
  { rewrite closes_emit, app_nil_r, cleanup_closes, removeAbortListener_closes,
      removeAbortListener_server. reflexivity. }
  split.
  - intros _. simpl. apply cleanup_server.
  - simpl server. rewrite cleanup_server, C.
    destruct handle as [h|].
    + destruct T as [[-> ->] | [-> ->]]; right; auto.
    + destruct T as [-> ->]. auto.
Qed.

Lemma cleanup_tidy handle e s :
  (forall h, e <> Close h) ->
  tidy handle s -> tidy handle (emit e (cleanup s)).
Proof.
  intros He [R T]. split.
  - intros _. simpl. apply cleanup_server.
  - simpl server. rewrite cleanup_server, closes_emit, cleanup_closes.
    assert (N : match e with Close h => [h] | _ => [] end = []).
    { destruct e; try reflexivity. exfalso. eapply He. reflexivity. }
    rewrite N, app_nil_r.
    destruct handle as [h|].
    + destruct T as [[-> ->] | [-> ->]]; right; auto.
    + destruct T as [-> ->]. auto.
Qed.

(** An event other than the start of the server keeps a run tidy. *)
Lemma step_tidy handle s ev :
  is_start ev = false -> tidy handle s -> tidy handle (step s ev).
Proof.
  destruct ev; simpl; try discriminate; intros _ T.
  - apply finish_tidy, T.
  - apply finish_tidy, T.
  - unfold onCancel. destruct (bool_decide _); apply finish_tidy, T.
  - apply cleanup_tidy; [discriminate | exact T].
  - apply cleanup_tidy; [discriminate | exact T].
Qed.

Lemma steps_tidy handle s evs :
  forallb (fun ev => negb (is_start ev)) evs = true ->
  tidy handle s -> tidy handle (steps s evs).
Proof.
  revert s. induction evs as [|ev evs IH]; intros s N T; [exact T|].
  simpl in N. apply andb_true_iff in N as [N1 N2].
  apply negb_true_iff in N1.
  apply (IH _ N2), step_tidy; assumption.
Qed.

(** The handle the server hands over is held or closed from then on. *)
Lemma onStarted_tidy handle sessions s :
  tidy None s -> tidy (Some handle) (onStarted options sessionId handle sessions s).
Proof.
  intros [R [S C]]. unfold onStarted. destruct (resolved s) eqn:E.
  - split; [intros _; exact S|]. right. split; [exact S|].
    rewrite closes_emit, C. reflexivity.
  - assert (G : forall s', server s' = Some handle -> resolved s' = false ->
                           closes s' = [] -> tidy (Some handle) s').
    { intros s' S' R' C'. split; [congruence | left; auto]. }
    destruct (onReady options), (filter _ sessions), (onQueued options),
      (shouldOpen options); apply G; simpl;
      rewrite ?closes_emit, ?app_nil_r; auto.
Qed.

(** X13.  In a run in which the server comes up once, the listener is closed
    at most once: at every moment either the handle is held and nothing
    has been closed, or no handle is held and exactly that handle has been
    closed; a resolved session holds no handle, so no listener outlives
    its session.  Before the server comes up nothing is held or closed. *)
Theorem listener_closed_exactly_once (o : InterviewServerOptions)
    (before after : list Event) (handle : InterviewServerHandle)
    (sessions : list ActiveSession)
    (Hbefore : forallb (fun ev => negb (is_start ev)) before = true)
    (Hafter : forallb (fun ev => negb (is_start ev)) after = true) :
  let s0 := steps (pending options o) before in
  let s := steps (pending options o)
             (before ++ ServerStarted handle sessions :: after) in
  (server s0 = None /\ closes s0 = [])
  /\ ((server s = Some handle /\ closes s = [])
      \/ (server s = None /\ closes s = [handle]))
  /\ (resolved s = true -> server s = None /\ closes s = [handle]).
Proof.
  intros s0 s.
  assert (T0 : tidy None (pending options o)).
  { split; [discriminate|]. split; [reflexivity|].
    unfold closes, pending. simpl. rewrite omap_app.
    destruct (signal options); reflexivity. }
  assert (T1 : tidy None s0) by (apply steps_tidy; assumption).
  assert (T : tidy (Some handle) s).
  { subst s. rewrite steps_app. change (steps (pending options o) before) with s0.
    rewrite steps_cons. apply steps_tidy; [exact Hafter|].
    apply onStarted_tidy, T1. }
  split; [apply T1|]. split; [apply T|].
  intros R. destruct T as [N [[S C] | [S C]]]; [|auto].
  rewrite (N R) in S. discriminate.
Qed.

(** *** The browser is opened only as asked *)

Lemma opens_emit e s :
  opens (emit e s)
  = opens s ++ match e with OpenUrl u b => [(u, b)] | _ => [] end.
Proof.
  unfold opens, emit; simpl. rewrite omap_app. simpl.
  destruct e; reflexivity.
Qed.

Lemma cleanup_opens s : opens (cleanup s) = opens s.
Proof.
  unfold cleanup. destruct (server s); [|reflexivity].
  rewrite opens_emit. apply app_nil_r.
Qed.

Lemma finish_opens st rs s : opens (finish options st rs s) = opens s.
Proof.
  unfold finish. destruct (resolved s); [reflexivity|].
  rewrite opens_emit, app_nil_r, cleanup_opens.
  unfold removeAbortListener. destruct (signal options); [|reflexivity].
  rewrite opens_emit. apply app_nil_r.
Qed.

Lemma step_opens s ev :
  opens (step s ev) = opens s
  \/ exists handle sessions,
       ev = ServerStarted handle sessions
       /\ resolved s = false
       /\ shouldOpen options = true
       /\ Forall (fun a => as_id a = sessionId) sessions
       /\ opens (step s ev) = opens s ++ [(handle_url handle, browser options)].
Proof.
  destruct ev; simpl.
  - left. apply finish_opens.
  - left. apply finish_opens.
  - left. unfold onCancel. destruct (bool_decide _); apply finish_opens.
  - unfold onStarted. destruct (resolved s) eqn:R.
    { left. rewrite opens_emit. apply app_nil_r. }
    destruct (filter _ activeSessions) as [|a l] eqn:F.
    + destruct (shouldOpen options) eqn:O.
      * right. exists handle, activeSessions. repeat split; try reflexivity.
        -- apply Forall_forall. intros a Ha.
           destruct (decide (as_id a = sessionId)) as [E|N]; [exact E|].
           assert (a ∈ filter (fun a => as_id a <> sessionId) activeSessions)
             by (apply list_elem_of_filter; auto).
           rewrite F in H. inversion H.
        -- destruct (onReady options); rewrite !opens_emit; simpl;
             rewrite ?app_nil_r; reflexivity.
      * left. destruct (onReady options); rewrite ?opens_emit; simpl;
          rewrite ?app_nil_r; reflexivity.
    + left. destruct (onReady options), (onQueued options);
        rewrite ?opens_emit; simpl; rewrite ?app_nil_r; reflexivity.
  - left. unfold onOpenFailed. rewrite opens_emit, cleanup_opens. apply app_nil_r.
  - left. unfold onServerFailed. rewrite opens_emit, cleanup_opens. apply app_nil_r.
Qed.

Lemma pending_opens o : opens (pending options o) = [].
Proof.
  unfold opens, pending. simpl. rewrite omap_app.
  destruct (signal options); reflexivity.
Qed.

Lemma steps_opens_grow s evs x : x ∈ opens s -> x ∈ opens (steps s evs).
Proof.
  revert s. induction evs as [|ev evs IH]; intros s Hin; [exact Hin|].
  rewrite steps_cons. apply IH.
  destruct (step_opens s ev) as [E | (hd & ss & _ & _ & _ & _ & E)];
    rewrite E; [exact Hin|].
  apply elem_of_app. left. exact Hin.
Qed.

Lemma no_other_session sessions :
  Forall (fun a => as_id a = sessionId) sessions ->
  filter (fun a => as_id a <> sessionId) sessions = [].
Proof.
  induction 1 as [|a l Ha _ IH]; [reflexivity|].
  rewrite filter_cons_False by (intros N; apply N, Ha). exact IH.
Qed.

Lemma onStarted_opens handle sessions s :
  resolved s = false -> shouldOpen options = true ->
  Forall (fun a => as_id a = sessionId) sessions ->
  opens (step s (ServerStarted handle sessions))
  = opens s ++ [(handle_url handle, browser options)].
Proof.
  intros R O F. simpl. unfold onStarted.
  rewrite R, (no_other_session _ F), O.
  destruct (onReady options); rewrite !opens_emit; simpl;
    rewrite ?app_nil_r; reflexivity.
Qed.

(** X14.  Whatever happens, [interview] opens the browser only when the
    server comes up while the session has not finished, the caller has
    not passed [open: false], and the registry holds no entry of another
    session; and then it opens the URL of the listener with the browser
    the caller named.  Conversely it does open the browser whenever the
    server comes up so.  In particular with [open: false] it never opens a
    browser, and neither does it for a server that comes up after the
    session has finished. *)
Theorem browser_opened_only_as_asked (o : InterviewServerOptions)
    (evs : list Event) :
  (forall u b,
     (u, b) ∈ opens (steps (pending options o) evs) ->
     b = browser options
     /\ open options <> Some false
     /\ exists before handle sessions after,
          evs = before ++ ServerStarted handle sessions :: after
          /\ resolved (steps (pending options o) before) = false
          /\ u = handle_url handle
          /\ Forall (fun a => as_id a = sessionId) sessions)
  /\ (forall before handle sessions after,
        evs = before ++ ServerStarted handle sessions :: after ->
        resolved (steps (pending options o) before) = false ->
        open options <> Some false ->
        Forall (fun a => as_id a = sessionId) sessions ->
        (handle_url handle, browser options)
        ∈ opens (steps (pending options o) evs))
  /\ (open options = Some false -> opens (steps (pending options o) evs) = []).
Proof.
  assert (G : forall s u b,
            (u, b) ∈ opens (steps s evs) ->
            (u, b) ∈ opens s
            \/ (b = browser options
                /\ shouldOpen options = true
                /\ exists before handle sessions after,
                     evs = before ++ ServerStarted handle sessions :: after
                     /\ resolved (steps s before) = false
                     /\ u = handle_url handle
                     /\ Forall (fun a => as_id a = sessionId) sessions)).
  { induction evs as [|ev evs IH]; intros s u b Hin; [left; exact Hin|].
    rewrite steps_cons in Hin.
    destruct (IH _ _ _ Hin)
      as [Hin' | (-> & O & pre & h & ss & post & -> & R & -> & F)].
    - destruct (step_opens s ev) as [E | (h & ss & -> & R & O & F & E)].
      + left. rewrite <- E. exact Hin'.
      + rewrite E in Hin'. apply elem_of_app in Hin' as [Hin' | Hin'];
          [left; exact Hin'|].
        apply list_elem_of_singleton in Hin'. injection Hin' as -> ->.
        right. repeat split; try assumption.
        exists [], h, ss, evs. repeat split; assumption.
    - right. repeat split; try assumption.
      exists (ev :: pre), h, ss, post. repeat split; assumption. }
  assert (S : shouldOpen options = true <-> open options <> Some false).
  { unfold shouldOpen. split.
    - intros H E. rewrite E in H. discriminate.
    - intros N. rewrite (bool_decide_eq_false_2 _ N). reflexivity. }
  split; [|split].
  - intros u b Hin. destruct (G _ _ _ Hin) as [Hin' | (-> & O & H)].
    + rewrite pending_opens in Hin'. inversion Hin'.
    + split; [reflexivity|]. split; [apply S, O | exact H].
  - intros pre h ss post -> R N F. rewrite steps_app, steps_cons.
    apply steps_opens_grow.
    rewrite (onStarted_opens _ _ _ R (proj2 S N) F).
    apply elem_of_app. right. left.
  - intros O. destruct (opens (steps (pending options o) evs)) as [|[u b] l] eqn:E;
      [reflexivity|].
    exfalso. destruct (G (pending options o) u b) as [Hin' | (_ & O' & _)].
    + rewrite E. left.
    + rewrite pending_opens in Hin'. inversion Hin'.
    + apply (proj1 S O'), O.
Qed.

End LibRuns.

Section LibUrl.

Import lib.

Variable options : InterviewOptions.
Variable sessionId : string.

Local Abbreviation step := (lib.step options sessionId).
Local Abbreviation steps := (lib.steps options sessionId).

Lemma announced_emit e s :
  announced (emit e s)
  = announced s ++ match e with
                   | OnReady u => [u]
                   | OnQueued info => [queued_url info]
                   | _ => []
                   end.
Proof.
  unfold announced, emit; simpl. rewrite omap_app. simpl.
  destruct e; reflexivity.
Qed.

Lemma cleanup_announced s : announced (cleanup s) = announced s.
Proof.
  unfold cleanup. destruct (server s); [|reflexivity].
  rewrite announced_emit. apply app_nil_r.
Qed.

Lemma finish_announced st rs s : announced (finish options st rs s) = announced s.
Proof.
  unfold finish. destruct (resolved s); [reflexivity|].
  rewrite announced_emit, app_nil_r, cleanup_announced.
  unfold removeAbortListener. destruct (signal options); [|reflexivity].
  rewrite announced_emit. apply app_nil_r.
Qed.

Lemma step_announced s ev :
  is_start ev = false -> announced (step s ev) = announced s.
Proof.
  destruct ev; simpl; try discriminate; intros _.
  - apply finish_announced.
  - apply finish_announced.
  - unfold onCancel. destruct (bool_decide _); apply finish_announced.
  - unfold onOpenFailed. rewrite announced_emit, cleanup_announced. apply app_nil_r.
  - unfold onServerFailed. rewrite announced_emit, cleanup_announced. apply app_nil_r.
Qed.

Lemma steps_announced s evs :
  forallb (fun ev => negb (is_start ev)) evs = true ->
  announced (steps s evs) = announced s.
Proof.
  revert s. induction evs as [|ev evs IH]; intros s N; [reflexivity|].
  simpl in N. apply andb_true_iff in N as [N1 N2].
  apply negb_true_iff in N1.
  rewrite steps_cons, (IH _ N2). apply step_announced, N1.
Qed.

Lemma finish_url_is u st rs s : url_is u s -> url_is u (finish options st rs s).
Proof.
  intros U. destruct (resolved s) eqn:R.
  - rewrite finish_resolved by exact R. exact U.
  - destruct U as (Q & S).
    destruct (finish_pending options st rs s R) as (R' & _ & Q').
    split.
    + intros r. rewrite Q'. intros Hr. apply elem_of_app in Hr as [Hr | Hr].
      * apply Q, Hr.
      * apply list_elem_of_singleton in Hr. subst r. simpl. apply S, R.
    + rewrite R'. discriminate.
Qed.

Lemma failure_url_is u m s : url_is u s -> url_is u (emit (Reject m) (cleanup s)).
Proof.
  intros (Q & S). split.
  - rewrite resolutions_emit, cleanup_resolutions, app_nil_r. exact Q.
  - simpl. rewrite cleanup_resolved, cleanup_url. exact S.
Qed.

Lemma step_url_is u s ev :
  is_start ev = false -> url_is u s -> url_is u (step s ev).
Proof.
  destruct ev; simpl; try discriminate; intros _ U.
  - apply finish_url_is, U.
  - apply finish_url_is, U.
  - unfold onCancel. destruct (bool_decide _); apply finish_url_is, U.
  - apply failure_url_is, U.
  - apply failure_url_is, U.
Qed.

Lemma steps_url_is u s evs :
  forallb (fun ev => negb (is_start ev)) evs = true ->
  url_is u s -> url_is u (steps s evs).
Proof.
  revert s. induction evs as [|ev evs IH]; intros s N U; [exact U|].
  simpl in N. apply andb_true_iff in N as [N1 N2].
  apply negb_true_iff in N1.
  apply (IH _ N2), step_url_is; assumption.
Qed.

(** Without the start of the server, a session is resolved as soon as one
    of the events asks for it, and not before. *)
Lemma steps_resolved_iff s evs :
  forallb (fun ev => negb (is_start ev)) evs = true ->
  resolved (steps s evs) = resolved s || existsb is_trigger evs.
Proof.
  revert s. induction evs as [|ev evs IH]; intros s N.
  - simpl. symmetry. apply orb_false_r.
  - simpl in N. apply andb_true_iff in N as [N1 N2].
    rewrite steps_cons, (IH _ N2). simpl.
    destruct (is_trigger ev) eqn:T.
    + rewrite step_trigger_is_finish by exact T.
      destruct (resolved s) eqn:R.
      * rewrite finish_resolved by exact R. rewrite R. reflexivity.
      * destruct (finish_pending options (status_of ev) (Some (responses_of ev)) s R)
          as (-> & _). reflexivity.
    + destruct (step_other options sessionId s ev T) as [-> _].
      rewrite orb_false_l. reflexivity.
Qed.

Lemma pending_resolutions o : resolutions (pending options o) = [].
Proof.
  unfold resolutions, pending. simpl. rewrite omap_app.
  destruct (signal options); reflexivity.
Qed.

Lemma pending_announced o : announced (pending options o) = [].
Proof.
  unfold announced, pending. simpl. rewrite omap_app.
  destruct (signal options); reflexivity.
Qed.

(** X15.  In a run in which the server comes up once, the URL of every
    outcome is the URL of the listener when the listener came up before
    the session ended, and the empty string when the session ended first;
    and the URLs [onReady] and [onQueued] are called with are that of the
    listener: the caller's [onReady] is called once if the session is
    still pending, [onQueued] once more if the registry then holds another
    session, and neither of them if the session has ended. *)
Theorem outcome_url_is_announced_url (o : InterviewServerOptions)
    (before after : list Event) (handle : InterviewServerHandle)
    (sessions : list ActiveSession)
    (Hbefore : forallb (fun ev => negb (is_start ev)) before = true)
    (Hafter : forallb (fun ev => negb (is_start ev)) after = true) :
  let s := steps (pending options o)
             (before ++ ServerStarted handle sessions :: after) in
  let in_time := negb (existsb is_trigger before) in
  (forall r, r ∈ resolutions s ->
     url r = if in_time then handle_url handle else EmptyString)
  /\ announced s
     = if in_time then
         (if onReady options then [handle_url handle] else [])
         ++ match filter (fun a => as_id a <> sessionId) sessions with
            | _ :: _ => if onQueued options then [handle_url handle] else []
            | [] => []
            end
       else [].
Proof.
  intros s in_time.
  set (s0 := steps (pending options o) before).
  assert (U0 : url_is EmptyString s0).
  { apply steps_url_is; [exact Hbefore|]. split.
    - intros r. rewrite pending_resolutions. intros Hr. inversion Hr.
    - reflexivity. }
  assert (R0 : resolved s0 = existsb is_trigger before).
  { unfold s0. rewrite steps_resolved_iff by exact Hbefore. reflexivity. }
  assert (A0 : announced s0 = []).
  { unfold s0. rewrite steps_announced by exact Hbefore. apply pending_announced. }
  assert (Q0 : resolved s0 = false -> resolutions s0 = []).
  { intros R. unfold s0.
    assert (G : forall evs t, forallb (fun ev => negb (is_start ev)) evs = true ->
                              resolved (steps t evs) = false ->
                              resolutions (steps t evs) = resolutions t).
    { induction evs as [|ev evs IH]; intros t N Rt; [reflexivity|].
      simpl in N. apply andb_true_iff in N as [N1 N2].
      rewrite steps_cons in Rt |- *.
      rewrite steps_resolved_iff in Rt by exact N2.
      apply orb_false_iff in Rt as [Rt1 Rt2].
      rewrite IH; [|exact N2|rewrite steps_resolved_iff by exact N2;
                              rewrite Rt1, Rt2; reflexivity].
      destruct (is_trigger ev) eqn:T.
      - rewrite step_trigger_is_finish in Rt1 by exact T.
        destruct (resolved t) eqn:R'.
        + rewrite finish_resolved in Rt1 by exact R'. congruence.
        + destruct (finish_pending options (status_of ev)
                      (Some (responses_of ev)) t R') as (R'' & _).
          congruence.
      - apply (step_other options sessionId t ev T). }
    rewrite G; [apply pending_resolutions | exact Hbefore | exact R]. }
  assert (E : s = steps (step s0 (ServerStarted handle sessions)) after).
  { unfold s, s0. unfold lib.steps. rewrite fold_left_app. reflexivity. }
  rewrite E. rewrite steps_announced by exact Hafter.
  unfold in_time. rewrite <- R0. simpl step. unfold onStarted.
  destruct (resolved s0) eqn:R; simpl negb; cbv iota.
  - split.
    + apply steps_url_is; [exact Hafter|]. destruct U0 as [Q S]. split.
      * rewrite resolutions_emit, app_nil_r. exact Q.
      * simpl. rewrite R. discriminate.
    + rewrite announced_emit, app_nil_r. exact A0.
  - split.
    + apply steps_url_is; [exact Hafter|].
      assert (G : forall t, resolutions t = [] -> st_url t = handle_url handle ->
                            url_is (handle_url handle) t).
      { intros t Qt St. split; [|intros _; exact St].
        intros r. rewrite Qt. intros Hr. inversion Hr. }
      destruct (onReady options), (filter _ sessions), (onQueued options),
        (shouldOpen options); apply G;
        rewrite ?resolutions_emit, ?app_nil_r; try reflexivity;
        apply (Q0 eq_refl).
    + destruct (onReady options), (filter _ sessions), (onQueued options),
        (shouldOpen options); rewrite ?announced_emit;
        unfold announced in A0 |- *; simpl; rewrite A0; reflexivity.
Qed.

End LibUrl.

Section LibSettles.

Import lib.

Variable options : InterviewOptions.
Variable sessionId : string.

Local Abbreviation step := (lib.step options sessionId).
Local Abbreviation steps := (lib.steps options sessionId).

Lemma settlements_emit e s :
  settlements (emit e s)
  = settlements s ++ match e with
                     | Resolve r => [inl r]
                     | Reject m => [inr m]
                     | _ => []
                     end.
Proof.
  unfold settlements, emit; simpl. rewrite omap_app. simpl.
  destruct e; reflexivity.
Qed.

Lemma cleanup_settlements s : settlements (cleanup s) = settlements s.
Proof.
  unfold cleanup. destruct (server s); [|reflexivity].
  rewrite settlements_emit. apply app_nil_r.
Qed.

Lemma finish_settlements st rs s :
  settlements (finish options st rs s)
  = settlements s
    ++ (if resolved s then []
        else [inl {| status := st; responses := default [] rs;
                     url := st_url s |}]).
Proof.
  unfold finish. destruct (resolved s); [symmetry; apply app_nil_r|].
  rewrite settlements_emit, cleanup_settlements, cleanup_url,
    removeAbortListener_url.
  unfold removeAbortListener. destruct (signal options); [|reflexivity].
  rewrite settlements_emit, app_nil_r. reflexivity.
Qed.

Lemma step_settlements s ev :
  settlements (step s ev)
  = settlements s
    ++ match ev with
       | OpenFailed m => [inr ("Failed to open browser: " +:+ m)]
       | ServerFailed m => [inr m]
       | ServerStarted _ _ => []
       | _ => if resolved s then []
              else [inl {| status := status_of ev;
                           responses := responses_of ev;
                           url := st_url s |}]
       end.
Proof.
  destruct ev; simpl.
  - apply finish_settlements.
  - apply finish_settlements.
  - unfold onCancel.
    destruct (bool_decide (reason = Some "timeout"));
      rewrite finish_settlements; reflexivity.
  - unfold onStarted. destruct (resolved s).
    + rewrite settlements_emit. reflexivity.
    + destruct (onReady options), (filter _ activeSessions),
        (onQueued options), (shouldOpen options);
        rewrite ?settlements_emit; simpl; rewrite ?app_nil_r; reflexivity.
  - unfold onOpenFailed. rewrite settlements_emit, cleanup_settlements.
    reflexivity.
  - unfold onServerFailed. rewrite settlements_emit, cleanup_settlements.
    reflexivity.
Qed.

Lemma steps_settlements_grow s evs :
  exists ext, settlements (steps s evs) = settlements s ++ ext.
Proof.
  revert s. induction evs as [|ev evs IH]; intros s.
  - exists []. symmetry. apply app_nil_r.
  - rewrite steps_cons. destruct (IH (step s ev)) as [ext ->].
    rewrite step_settlements, <- app_assoc. eauto.
Qed.

(** X16.  The promise of [interview] is settled by the first event that
    ends the session or reports a failure, and by nothing else: a submit,
    cancel, timeout or abort that comes first fulfils it with the outcome
    of that event; a failure of the server that comes first rejects it
    with the server's message, and a failure to open the browser rejects
    it with [Failed to open browser: ] and the message; without such an
    event the promise stays pending, however often the server reports its
    start. *)
Theorem promise_settles_with_first_event (o : InterviewServerOptions)
    (evs : list Event) :
  match filter (fun ev => is_trigger ev || is_failure ev = true) evs with
  | [] => settlements (steps (pending options o) evs) = []
  | first :: _ =>
      match first with
      | OpenFailed m =>
          head (settlements (steps (pending options o) evs))
          = Some (inr ("Failed to open browser: " +:+ m))
      | ServerFailed m =>
          head (settlements (steps (pending options o) evs)) = Some (inr m)
      | _ =>
          exists u,
            head (settlements (steps (pending options o) evs))
            = Some (inl {| status := status_of first;
                           responses := responses_of first; url := u |})
      end
  end.
Proof.
  assert (G : forall s,
            settlements s = [] -> resolved s = false ->
            match filter (fun ev => is_trigger ev || is_failure ev = true) evs with
            | [] => settlements (steps s evs) = []
            | first :: _ =>
                match first with
                | OpenFailed m =>
                    head (settlements (steps s evs))
                    = Some (inr ("Failed to open browser: " +:+ m))
                | ServerFailed m =>
                    head (settlements (steps s evs)) = Some (inr m)
                | _ =>
                    exists u,
                      head (settlements (steps s evs))
                      = Some (inl {| status := status_of first;
                                     responses := responses_of first;
                                     url := u |})
                end
            end).
  { induction evs as [|ev evs IH]; intros s S R; [exact S|].
    rewrite steps_cons.
    destruct (steps_settlements_grow (step s ev) evs) as [ext E].
    pose proof (step_settlements s ev) as Q. rewrite S, R in Q.
    destruct (is_trigger ev || is_failure ev) eqn:T.
    - rewrite filter_cons_True by exact T. rewrite E, Q.
      destruct ev; try discriminate T; simpl; eauto.
    - rewrite filter_cons_False by (rewrite T; discriminate).
      destruct ev; try discriminate T. apply IH.
      + rewrite Q. reflexivity.
      + destruct (step_other options sessionId s
                    (ServerStarted handle activeSessions) eq_refl) as [X _].
        rewrite X. exact R. }
  apply G; [|reflexivity].
  unfold settlements, pending. simpl. rewrite omap_app.
  destruct (signal options); reflexivity.
Qed.

End LibSettles.

(* ===================================================================== *)
(** ** Facts about src/config.ts *)
(* ===================================================================== *)

Section ConfigFacts.

Import config.

Variable env : string -> option string.
Variable homedir : string.
Variable readFile : string -> option string.
Variable parseInt : string -> option Z.

Local Abbreviation resolveConfig :=
  (config.resolveConfig env homedir readFile parseInt).
Local Abbreviation loadConfig := (config.loadConfig env homedir readFile).
Local Abbreviation parseEnvInt := (config.parseEnvInt parseInt).

Lemma or_file_object h a file key :
  nullish file = false ->
  or_file h a file key = Ok (coalesce a (get h file key)).
Proof.
  intros F. unfold or_file, coalesce. rewrite F.
  destruct (nullish a); reflexivity.
Qed.


Lemma get_fresh_empty h k : get (h ++ [CObj ∅]) (VRef (length h)) k = VUndefined.
Proof.
  unfold get. rewrite lookup_app_r by lia. rewrite Nat.sub_diag. reflexivity.
Qed.

(** X17.  A configuration file that is missing, or that does not hold JSON,
    is no error: [resolveConfig] then answers as for the file [{}], every
    setting coming from the flags and the environment alone and being
    undefined where neither gives it. *)
Theorem unreadable_config_is_empty (cliFlags : InterviewConfig) (h : heap)
    (Hfile : match readFile (configPath env homedir) with
             | None => True
             | Some content => exists e, snd (JSON.parse content h) = Throw e
             end) :
  let h1 := match readFile (configPath env homedir) with
            | None => h
            | Some content => fst (JSON.parse content h)
            end in
  resolveConfig cliFlags VUndefined h
  = (h1 ++ [CObj ∅],
     Ok {| timeout := coalesce (coalesce (timeout cliFlags)
                                  (parseEnvInt (env "INTERVIEW_TIMEOUT")))
                        VUndefined;
           theme := coalesce (coalesce (theme cliFlags)
                                (of_string (env "INTERVIEW_THEME")))
                      VUndefined;
           mode := coalesce (coalesce (mode cliFlags)
                               (of_string (env "INTERVIEW_MODE")))
                     VUndefined;
           port := coalesce (coalesce (port cliFlags)
                               (parseEnvInt (env "INTERVIEW_PORT")))
                     VUndefined;
           browser := coalesce (browser cliFlags) VUndefined;
           snapshotDir := coalesce (snapshotDir cliFlags) VUndefined;
           autoSave := coalesce (autoSave cliFlags) VUndefined;
           toggleHotkey := coalesce (toggleHotkey cliFlags) VUndefined;
           lightPath := coalesce (lightPath cliFlags) VUndefined;
           darkPath := coalesce (darkPath cliFlags) VUndefined |}).
Proof.
  intros h1.
  assert (L : loadConfig h = (h1 ++ [CObj ∅], Ok (VRef (length h1)))).
  { unfold config.loadConfig, h1.
    destruct (readFile (configPath env homedir)) as [content|]; [|reflexivity].
    destruct Hfile as [e He].
    destruct (JSON.parse content h) as [h2 [v|e']]; [discriminate|reflexivity]. }
  unfold config.resolveConfig. simpl nullish. cbv iota.
  unfold bindM. rewrite L.
  rewrite !or_file_object by reflexivity.
  rewrite !get_fresh_empty. reflexivity.
Qed.


Variable pkgPath : string.

Local Abbreviation main := (cli.main env homedir readFile parseInt pkgPath).

Lemma resolveConfig_null cliFlags content (h h1 : heap) :
  readFile (configPath env homedir) = Some content ->
  JSON.parse content h = (h1, Ok VNull) ->
  nullish (toggleHotkey cliFlags) = true ->
  exists m, resolveConfig cliFlags VUndefined h = (h1, Throw (TypeError m)).
Proof.
  intros F P T. unfold config.resolveConfig. simpl nullish. cbv iota.
  unfold bindM, config.loadConfig. rewrite F, P.
  unfold or_file at 8. rewrite T. simpl nullish. cbv iota.
  unfold or_file. simpl nullish.
  eexists.
  repeat match goal with
         | |- context [if nullish ?a then _ else _] =>
             destruct (nullish a); simpl
         end; reflexivity.
Qed.

(** X19.  A configuration file that holds the JSON text of [null] is not
    taken for an empty one: [resolveConfig] fails with a TypeError as soon
    as a setting is left to the file, and the hotkey always is when the
    command line calls it.  So the program, whatever its arguments and its
    input, never reaches the interview: it ends on help, the version or an
    error of usage, or the TypeError escapes [main]. *)
Theorem null_config_stops_the_program (content : string) (h h1 : heap)
    (parsed : string + cli.Values * list string) (input : string)
    (Hfile : readFile (configPath env homedir) = Some content)
    (Hnull : JSON.parse content h = (h1, Ok VNull)) :
  match snd (main parsed input h) with
  | cli.Proceed _ => False
  | cli.Crash e => exists m, e = TypeError m
  | cli.Exit code _ _ => code = 0%Z \/ code = 2%Z
  end.
Proof.
  unfold cli.main. destruct parsed as [message | [values positionals]];
    [simpl; auto|].
  destruct (cli.help values); [simpl; auto|].
  destruct (cli.version values).
  { unfold cli.getVersion. destruct (readFile pkgPath) as [c|]; [|simpl; auto].
    destruct (JSON.parse c h) as [h2 [d|e]]; [|simpl; auto].
    destruct (nullish d); simpl; auto. }
  destruct (cli.stdin values && _); [simpl; auto|].
  destruct (negb (cli.stdin values) && _); [simpl; auto|].
  destruct (match cli.parse_flag parseInt (cli.timeout values) with
            | Some None => true | Some (Some t) => (t <=? 0)%Z | None => false
            end); [simpl; auto|].
  destruct (match cli.parse_flag parseInt (cli.port values) with
            | Some None => true
            | Some (Some p) => (p <=? 0)%Z || (65535 <? p)%Z
            | None => false
            end); [simpl; auto|].
  match goal with
  | |- context [config.resolveConfig env homedir readFile parseInt ?c VUndefined h] =>
      destruct (resolveConfig_null c content h h1 Hfile Hnull eq_refl) as [m ->]
  end.
  simpl. eauto.
Qed.

End ConfigFacts.

Section ConfigPaths.

Import config.

Variable env : string -> option string.
Variable homedir : string.

Lemma join_absolute_first b rest :
  path.isAbsolute b = true -> path.isAbsolute (path.join (b :: rest)) = true.
Proof.
  intros A. destruct b as [|c b]; [discriminate|].
  unfold path.join. rewrite filter_cons, decide_True by discriminate.
  apply normalize_absolute.
  destruct (filter _ rest) as [|x xs]; exact A.
Qed.

Lemma env_or_absolute name otherwise :
  (forall v, env name = Some v -> v = EmptyString \/ path.isAbsolute v = true) ->
  path.isAbsolute otherwise = true ->
  path.isAbsolute (env_or env name otherwise) = true.
Proof.
  intros E O. unfold env_or. destruct (env name) as [v|]; [|exact O].
  destruct (String.eqb_spec v EmptyString) as [-> | N]; [exact O|].
  destruct (E v eq_refl) as [-> | A]; [contradiction | exact A].
Qed.

(** X20.  The places of the program's files.  A variable of the environment
    that is unset or empty counts as not given: the sessions file and the
    recovery directory then lie under [.local/state] of the home
    directory, the snapshots under [.local/share] and the configuration
    file under [.config]; and [INTERVIEW_CONFIG], when it is not empty, is
    the configuration file, whatever the other variables say.  When the
    home directory is absolute and none of these variables holds a
    relative path, all four places are absolute paths. *)
Theorem xdg_places (Hhome : path.isAbsolute homedir = true)
    (Henv : forall name v,
              name ∈ ["XDG_STATE_HOME"; "XDG_DATA_HOME"; "XDG_CONFIG_HOME";
                      "INTERVIEW_CONFIG"] ->
              env name = Some v ->
              v = EmptyString \/ path.isAbsolute v = true) :
  path.isAbsolute (sessionsPath env homedir) = true
  /\ path.isAbsolute (recoveryDir env homedir) = true
  /\ path.isAbsolute (snapshotsDir env homedir) = true
  /\ path.isAbsolute (configPath env homedir) = true
  /\ (forall v, env "INTERVIEW_CONFIG" = Some v -> v <> EmptyString ->
                configPath env homedir = v)
  /\ (env "XDG_STATE_HOME" = None \/ env "XDG_STATE_HOME" = Some EmptyString ->
      sessionsPath env homedir
      = path.join [path.join [homedir; ".local"; "state"]; "interview";
                   "sessions.json"]
      /\ recoveryDir env homedir
         = path.join [path.join [homedir; ".local"; "state"]; "interview";
                      "recovery"])
  /\ (env "XDG_DATA_HOME" = None \/ env "XDG_DATA_HOME" = Some EmptyString ->
      snapshotsDir env homedir
      = path.join [path.join [homedir; ".local"; "share"]; "interview";
                   "snapshots"])
  /\ (env "INTERVIEW_CONFIG" = None \/ env "INTERVIEW_CONFIG" = Some EmptyString ->
      env "XDG_CONFIG_HOME" = None \/ env "XDG_CONFIG_HOME" = Some EmptyString ->
      configPath env homedir
      = path.join [path.join [homedir; ".config"]; "interview"; "config.json"]).
Proof.
  assert (Hin : forall name,
            name ∈ ["XDG_STATE_HOME"; "XDG_DATA_HOME"; "XDG_CONFIG_HOME";
                    "INTERVIEW_CONFIG"] ->
            forall v, env name = Some v ->
                      v = EmptyString \/ path.isAbsolute v = true).
  { intros name Hname v. apply Henv, Hname. }
  assert (S : path.isAbsolute (xdgState env homedir) = true).
  { apply env_or_absolute; [|apply join_absolute_first, Hhome].
    apply Hin. rewrite !elem_of_cons. auto. }
  assert (D : path.isAbsolute (xdgData env homedir) = true).
  { apply env_or_absolute; [|apply join_absolute_first, Hhome].
    apply Hin. rewrite !elem_of_cons. auto. }
  assert (C : path.isAbsolute (xdgConfig env homedir) = true).
  { apply env_or_absolute; [|apply join_absolute_first, Hhome].
    apply Hin. rewrite !elem_of_cons. auto. }
  split; [apply join_absolute_first, S|].
  split; [apply join_absolute_first, S|].
  split; [apply join_absolute_first, D|].
  split; [apply env_or_absolute; [|apply join_absolute_first, C];
          apply Hin; rewrite !elem_of_cons; auto 6|].
  split; [|split; [|split]].
  - intros v E N. unfold configPath, env_or. rewrite E.
    apply String.eqb_neq in N. rewrite N. reflexivity.
  - intros E. unfold sessionsPath, recoveryDir, xdgState, env_or.
    destruct E as [-> | ->]; auto.
  - intros E. unfold snapshotsDir, xdgData, env_or.
    destruct E as [-> | ->]; auto.
  - intros E1 E2. unfold configPath, xdgConfig, env_or.
    destruct E1 as [-> | ->], E2 as [-> | ->]; auto.
Qed.

End ConfigPaths.

(* ===================================================================== *)
(** ** Facts about the command line *)
(* ===================================================================== *)

Section CliFacts.

Import cli.

Variable env : string -> option string.
Variable homedir : string.
Variable readFile : string -> option string.
Variable parseInt : string -> option Z.
Variable pkgPath : string.

Local Abbreviation main := (cli.main env homedir readFile parseInt pkgPath).

Lemma or_file_given h a file key v :
  config.or_file h a file key = Ok v -> config.nullish a = false -> v = a.
Proof. unfold config.or_file. intros H N. rewrite N in H. congruence. Qed.

Lemma resolveConfig_given cliFlags file (h h1 : heap) c :
  config.resolveConfig env homedir readFile parseInt cliFlags file h = (h1, Ok c) ->
  (config.nullish (config.timeout cliFlags) = false ->
   config.timeout c = config.timeout cliFlags)
  /\ (config.nullish (config.port cliFlags) = false ->
      config.port c = config.port cliFlags)
  /\ (config.nullish (config.autoSave cliFlags) = false ->
      config.autoSave c = config.autoSave cliFlags).
Proof.
  unfold config.resolveConfig, bindM. intros H.
  destruct ((if config.nullish file
             then config.loadConfig env homedir readFile else ret file) h)
    as [h2 [f|e]]; [|discriminate].
  injection H as _ H.
  apply bind_Ok in H as (t & Ht & H).
  apply bind_Ok in H as (th & Hth & H).
  apply bind_Ok in H as (m & Hm & H).
  apply bind_Ok in H as (p & Hp & H).
  apply bind_Ok in H as (b & Hb & H).
  apply bind_Ok in H as (sd & Hsd & H).
  apply bind_Ok in H as (a & Ha & H).
  apply bind_Ok in H as (k & Hk & H).
  apply bind_Ok in H as (lp & Hlp & H).
  apply bind_Ok in H as (dp & Hdp & H).
  injection H as <-. simpl.
  split; [|split]; intros N.
  - unfold config.coalesce in Ht. rewrite N in Ht.
    apply (or_file_given _ _ _ _ _ Ht N).
  - unfold config.coalesce in Hp. rewrite N in Hp.
    apply (or_file_given _ _ _ _ _ Hp N).
  - apply (or_file_given _ _ _ _ _ Ha N).
Qed.

(** X21.  [main] calls [interview] only with arguments it has checked: no
    help or version was asked for; the questions come from stdin or from a
    path, never from both and never from neither, and what stdin held is
    JSON; a timeout given on the command line that is not the empty string
    is a number above zero and such a port one from 1 to 65535, and these
    are what the interview is given, whatever the environment and the
    configuration file say; the interview always has a timeout and a
    setting for saving, and [--no-save] turns saving off.  A timeout or a
    port given as the empty string is not checked: it counts as not given,
    the program does what it does without the option, and so the
    environment and the configuration file decide. *)
Theorem main_calls_interview_checked
    (parsed : string + Values * list string) (input : string)
    (h h' : heap) (call : Call)
    (Hcall : main parsed input h = (h', Proceed call)) :
  exists values positionals,
    parsed = inr (values, positionals)
    /\ help values = false /\ version values = false
    /\ (if stdin values
        then questionsPath call = None
             /\ exists h1, JSON.parse input h1 = (h', Ok (questions call))
        else questions call = VUndefined
             /\ exists p, questionsPath call = Some p /\ p <> EmptyString
                          /\ head positionals = Some p)
    /\ (forall t, timeout values = Some t -> t <> EmptyString ->
          exists n, parseInt t = Some n /\ (0 < n)%Z
                    /\ call_timeout call = VNumber n 0)
    /\ (forall p, port values = Some p -> p <> EmptyString ->
          exists n, parseInt p = Some n /\ (1 <= n <= 65535)%Z
                    /\ call_port call = VNumber n 0)
    /\ config.nullish (call_timeout call) = false
    /\ config.nullish (call_autoSave call) = false
    /\ (save values = false -> call_autoSave call = VBool false)
    /\ call_open call = open values
    /\ (timeout values = Some EmptyString ->
        main (inr (without_timeout values, positionals)) input h
        = (h', Proceed call))
    /\ (port values = Some EmptyString ->
        main (inr (without_port values, positionals)) input h
        = (h', Proceed call)).
Proof.
  assert (E1 : forall values positionals,
            timeout values = Some EmptyString ->
            main (inr (without_timeout values, positionals)) input h
            = main (inr (values, positionals)) input h).
  { intros v ps E. unfold cli.main, without_timeout.
    cbn [timeout theme mode port open browser snapshot_dir save stdin pretty
         quiet verbose version help].
    rewrite E. reflexivity. }
  assert (E2 : forall values positionals,
            port values = Some EmptyString ->
            main (inr (without_port values, positionals)) input h
            = main (inr (values, positionals)) input h).
  { intros v ps E. unfold cli.main, without_port.
    cbn [timeout theme mode port open browser snapshot_dir save stdin pretty
         quiet verbose version help].
    rewrite E. reflexivity. }
  pose proof Hcall as Hcall0.
  unfold cli.main in Hcall.
  destruct parsed as [message | [values positionals]]; [discriminate|].
  exists values, positionals. split; [reflexivity|].
  destruct (help values) eqn:Hh; [discriminate|].
  destruct (version values) eqn:Hv.
  { destruct (getVersion readFile pkgPath h) as [h1 [v|e]]; discriminate. }
  split; [reflexivity|]. split; [reflexivity|].
  destruct (stdin values && bool_decide (is_Some (nonempty (head positionals))))
    eqn:B1; [discriminate|].
  destruct (negb (stdin values)
            && negb (bool_decide (is_Some (nonempty (head positionals)))))
    eqn:B2; [discriminate|].
  destruct (parse_flag parseInt (timeout values)) as [[t|]|] eqn:T;
    try discriminate;
    [destruct (Z.leb_spec t 0); [discriminate|]|];
    (destruct (parse_flag parseInt (port values)) as [[p|]|] eqn:P;
     try discriminate;
     [destruct (Z.leb_spec p 0); [discriminate|];
      destruct (Z.ltb_spec 65535 p); [discriminate|]; simpl in Hcall|]);
    (destruct (config.resolveConfig _ _ _ _ _ _ h) as [h1 [cfg|e]] eqn:R;
     [|discriminate]);
    destruct (resolveConfig_given _ _ _ _ _ R) as (Gt & Gp & Ga);
    simpl in Gt, Gp, Ga;
    (assert (Q : if stdin values
                 then questionsPath call = None
                      /\ exists h1, JSON.parse input h1 = (h', Ok (questions call))
                 else questions call = VUndefined
                      /\ exists p, questionsPath call = Some p /\ p <> EmptyString
                                   /\ head positionals = Some p);
     [ destruct (stdin values);
       [ destruct (JSON.parse input h1) as [h2 [d|e]] eqn:J; [|discriminate];
         injection Hcall as <- <-; simpl;
         destruct (nonempty (head positionals)); [discriminate B1|];
         split; [reflexivity | exists h1; exact J]
       | injection Hcall as <- <-; simpl; split; [reflexivity|];
         unfold nonempty in *; destruct (head positionals) as [q|];
         [|discriminate B2];
         destruct (String.eqb_spec q EmptyString); [discriminate B2|];
         exists q; auto ]
     |]);
    (assert (C : call_timeout call
                 = config.coalesce (config.timeout cfg) (VNumber 600 0)
                 /\ call_port call = config.port cfg
                 /\ call_autoSave call
                    = config.coalesce (config.autoSave cfg) (VBool true)
                 /\ call_open call = open values);
     [ destruct (stdin values);
       [ destruct (JSON.parse input h1) as [h2 [d|e]]; [|discriminate] |];
       injection Hcall as <- <-; simpl; auto |]);
    destruct C as (Ct & Cp & Ca & Co);
    (split; [exact Q|]);
    unfold parse_flag in T, P.
  all: split; [intros t' Ht Hne; rewrite Ht in T;
               apply String.eqb_neq in Hne; rewrite Hne in T;
               try discriminate; injection T as T;
               exists t; rewrite Ct, (Gt eq_refl); simpl; auto with lia|].
  all: split; [intros p' Hp Hne; rewrite Hp in P;
               apply String.eqb_neq in Hne; rewrite Hne in P;
               try discriminate; injection P as P;
               exists p; rewrite Cp, (Gp eq_refl); simpl; auto with lia|].
  all: split; [rewrite Ct; unfold config.coalesce;
               destruct (config.nullish (config.timeout cfg)) eqn:N;
               [reflexivity | exact N]|].
  all: split; [rewrite Ca; unfold config.coalesce;
               destruct (config.nullish (config.autoSave cfg)) eqn:N;
               [reflexivity | exact N]|].
  all: split; [intros S; rewrite S in Ga; rewrite Ca, (Ga eq_refl);
               reflexivity|].
  all: split; [exact Co|].
  all: split; intros E; [rewrite (E1 _ _ E) | rewrite (E2 _ _ E)];
    exact Hcall0.
Qed.

(** X22.  When [main] ends the process before the interview, it does so
    with status 0, one text on stdout and nothing on stderr, only for help
    and the version; every other end is status 2 with nothing on stdout
    and one line on stderr that starts with [Error: ]. *)
Theorem main_exit_before_interview
    (parsed : string + Values * list string) (input : string)
    (h h' : heap) (code : Z) (out : list Out) (err : list string)
    (Hexit : main parsed input h = (h', Exit code out err)) :
  (code = 0%Z /\ err = [] /\ (exists v, out = [Log v])
   /\ exists values positionals,
        parsed = inr (values, positionals)
        /\ (help values = true \/ version values = true))
  \/ (code = 2%Z /\ out = []
      /\ exists message, err = ["Error: " +:+ message +:+ nl]).
Proof.
  unfold cli.main in Hexit.
  destruct parsed as [message | [values positionals]].
  { injection Hexit as <- <- <- <-. right. eauto. }
  destruct (help values) eqn:Hh.
  { injection Hexit as <- <- <- <-. left. repeat split; eauto. }
  destruct (version values) eqn:Hv.
  { destruct (getVersion readFile pkgPath h) as [h1 [v|e]]; [|discriminate].
    injection Hexit as <- <- <- <-. left. repeat split; eauto. }
  right.
  destruct (stdin values && _); [injection Hexit as <- <- <- <-; eauto|].
  destruct (negb (stdin values) && _); [injection Hexit as <- <- <- <-; eauto|].
  destruct (match parse_flag parseInt (timeout values) with
            | Some None => true | Some (Some t) => (t <=? 0)%Z | None => false
            end); [injection Hexit as <- <- <- <-; eauto|].
  destruct (match parse_flag parseInt (port values) with
            | Some None => true
            | Some (Some p) => (p <=? 0)%Z || (65535 <? p)%Z
            | None => false
            end); [injection Hexit as <- <- <- <-; eauto|].
  destruct (config.resolveConfig _ _ _ _ _ _ h) as [h1 [cfg|e]]; [|discriminate].
  destruct (stdin values); [|discriminate].
  destruct (JSON.parse input h1) as [h2 [d|e]]; [discriminate|].
  injection Hexit as <- <- <- <-. eauto.
Qed.

(** *** After the call *)

Variable values : Values.

Local Abbreviation step := (cli.step values).
Local Abbreviation steps := (cli.steps values).
Local Abbreviation verdict := (cli.verdict values).

Lemma say_keeps msg r :
  outputWritten (say values msg r) = outputWritten r
  /\ stdout (say values msg r) = stdout r
  /\ exited (say values msg r) = exited r.
Proof. unfold say. destruct (quiet values); auto. Qed.

Lemma cli_steps_exited r evs : exited r <> None -> steps r evs = r.
Proof.
  induction evs as [|ev evs IH]; intros E; [reflexivity|].
  change (steps r (ev :: evs)) with (steps (step r ev) evs).
  assert (S : step r ev = r).
  { unfold cli.step. destruct (exited r); [reflexivity | contradiction]. }
  rewrite S. apply IH, E.
Qed.

Lemma cli_step_quiet r ev :
  ends ev = false ->
  outputWritten (step r ev) = outputWritten r
  /\ stdout (step r ev) = stdout r
  /\ exited (step r ev) = exited r.
Proof.
  intros E. unfold cli.step. destruct (exited r) eqn:X; [auto|].
  destruct ev; try discriminate.
  - unfold onReady. destruct (open values); [auto|].
    destruct (say_keeps ("Interview URL: " +:+ url) r) as (A & B & C).
    rewrite A, B, C. auto.
  - unfold onQueued.
    repeat match goal with
           | |- context [say values ?m ?r'] =>
               lazymatch goal with
               | _ : outputWritten (say values m r') = _ |- _ => fail
               | _ => idtac
               end;
               let A := fresh in let B := fresh in let C := fresh in
               destruct (say_keeps m r') as (A & B & C);
               rewrite A, B, C
           end.
    auto.
Qed.

Lemma cli_step_ends r ev :
  ends ev = true -> exited r = None -> outputWritten r = false ->
  stdout (step r ev) = stdout r ++ [fst (verdict ev)]
  /\ exited (step r ev) = Some (snd (verdict ev)).
Proof.
  intros E X W. unfold cli.step. rewrite X.
  destruct ev; try discriminate; simpl.
  - unfold handleSignal, writeResult. rewrite W. simpl. auto.
  - unfold onSettled, writeResult. rewrite W. simpl. auto.
  - unfold onFailed, writeResult. simpl. rewrite W. simpl. auto.
Qed.

(** X23.  Once the interview is called, the process writes to stdout one
    line and no more, the result, and exits with the first event that ends
    it, whatever comes after and whatever the callbacks print: status 0 for
    a completed interview; status 1 for one that was cancelled, timed out
    or was aborted, and for a signal, which reports [aborted] with no
    responses; status 2 for an error, which reports [aborted] with no
    responses too.  Until such an event stdout stays empty and the process
    runs. *)
Theorem one_result_line_and_exit_code (evs : list Event) :
  match filter (fun ev => ends ev = true) evs with
  | first :: _ =>
      stdout (steps started evs) = [fst (verdict first)]
      /\ exited (steps started evs) = Some (snd (verdict first))
  | [] =>
      stdout (steps started evs) = []
      /\ exited (steps started evs) = None
  end.
Proof.
  assert (G : forall r,
            exited r = None -> outputWritten r = false ->
            match filter (fun ev => ends ev = true) evs with
            | first :: _ =>
                stdout (steps r evs) = stdout r ++ [fst (verdict first)]
                /\ exited (steps r evs) = Some (snd (verdict first))
            | [] =>
                stdout (steps r evs) = stdout r
                /\ exited (steps r evs) = None
            end).
  { induction evs as [|ev evs IH]; intros r X W; [simpl; auto|].
    destruct (ends ev) eqn:E.
    - rewrite filter_cons_True by exact E.
      destruct (cli_step_ends r ev E X W) as (O & C).
      change (steps r (ev :: evs)) with (steps (step r ev) evs).
      rewrite cli_steps_exited by (rewrite C; discriminate). auto.
    - rewrite filter_cons_False by (rewrite E; discriminate).
      destruct (cli_step_quiet r ev E) as (A & B & C).
      change (steps r (ev :: evs)) with (steps (step r ev) evs).
      specialize (IH (step r ev)). rewrite A, B, C in IH.
      apply IH; assumption. }
  apply (G started); reflexivity.
Qed.

End CliFacts.

(* ===================================================================== *)
(** ** The theorems at work *)
(* ===================================================================== *)

Lemma accepted_document_shape_witness :
  exists qs,
    as_array (fst samples.rich_document)
      (get (fst samples.rich_document) (VRef 10) "questions") = Some qs
    /\ qs <> []
    /\ NoDup ((fun q => get (fst samples.rich_document) q "id") <$> qs).
Proof.
  destruct (accepted_document_shape (VRef 10) (VRef 10)
              (fst samples.rich_document)
              (fst (schema.validateQuestions (VRef 10)
                      (fst samples.rich_document))))
    as (qs & A & B & C & _).
  - vm_compute. reflexivity.
  - exists qs. auto.
Defined.

Lemma accepted_recommended_is_an_option_witness :
  exists rs,
    as_array (fst (schema.validateQuestions (VRef 6) examples.multi_document))
      (get (fst (schema.validateQuestions (VRef 6) examples.multi_document))
         (VRef 1) "recommended") = Some rs
    /\ forall x, x ∈ rs -> x ∈ optionLabels examples.multi_document (VRef 1).
Proof.
  destruct (accepted_recommended_is_an_option (VRef 6) (VRef 6)
              examples.multi_document
              (fst (schema.validateQuestions (VRef 6) examples.multi_document))
              ltac:(vm_compute; reflexivity)
              [VRef 1; VRef 4] (VRef 1)
              ltac:(vm_compute; reflexivity)
              ltac:(left))
    as (_ & _ & M & _).
  destruct (M ltac:(vm_compute; reflexivity)) as [[U _] | R].
  - vm_compute in U. discriminate U.
  - exact R.
Defined.

Lemma accepted_blocks_are_well_formed_witness :
  isArray (fst samples.rich_document)
    (get (fst samples.rich_document)
       (get (fst samples.rich_document) (VRef 7) "table") "headers") = true.
Proof.
  destruct (accepted_blocks_are_well_formed (VRef 10) (VRef 10)
              (fst samples.rich_document)
              (fst (schema.validateQuestions (VRef 10)
                      (fst samples.rich_document)))
              ltac:(vm_compute; reflexivity)
              [VRef 8] (VRef 8)
              ltac:(vm_compute; reflexivity)
              ltac:(left)) as (M & _).
  assert (E : mediaItems (fst samples.rich_document) (VRef 8) = [VRef 7])
    by (vm_compute; reflexivity).
  destruct (M (VRef 7)) as (_ & _ & _ & _ & T & _).
  - rewrite E. left.
  - apply T. vm_compute. reflexivity.
Defined.

Lemma validateQuestions_is_idempotent_witness :
  schema.validateQuestions (VRef 6)
    (fst (schema.validateQuestions (VRef 6) examples.multi_document))
  = (fst (schema.validateQuestions (VRef 6) examples.multi_document),
     Ok (VRef 6)).
Proof.
  apply (validateQuestions_is_idempotent (VRef 6) (VRef 6)
           examples.multi_document).
  vm_compute. reflexivity.
Defined.

Lemma resolveImagePath_is_idempotent_witness :
  loader.resolveImagePath samples.home
    (loader.resolveImagePath samples.home "a.png" "/snap") "/elsewhere"
  = loader.resolveImagePath samples.home "a.png" "/snap".
Proof.
  apply (resolveImagePath_is_idempotent samples.home "a.png" "/snap" "/elsewhere").
  reflexivity.
Defined.

Lemma mergeThemeConfig_is_normal_witness :
  loader.mergeThemeConfig samples.home
    (Some (loader.mergeThemeConfig samples.home
             (Some {| loader.mode := Some "dark"; loader.name := None;
                      loader.lightPath := Some "~/light.css";
                      loader.darkPath := Some "themes/dark.css";
                      loader.toggleHotkey := None |}) "/work")) "/work"
  = loader.mergeThemeConfig samples.home
      (Some {| loader.mode := Some "dark"; loader.name := None;
               loader.lightPath := Some "~/light.css";
               loader.darkPath := Some "themes/dark.css";
               loader.toggleHotkey := None |}) "/work".
Proof.
  apply (mergeThemeConfig_is_normal samples.home
           (Some {| loader.mode := Some "dark"; loader.name := None;
                    loader.lightPath := Some "~/light.css";
                    loader.darkPath := Some "themes/dark.css";
                    loader.toggleHotkey := None |}) "/work").
  reflexivity.
Defined.

Lemma snapshot_metadata_is_sanitized_witness :
  let h' := fst (loader.loadSavedInterview samples.home samples.snapshot
                   "/snap/index.html" []) in
  get h' (VRef 9) "savedAt" = VUndefined
  \/ exists s, get h' (VRef 9) "savedAt" = VString s.
Proof.
  destruct (snapshot_metadata_is_sanitized samples.home samples.snapshot
              "/snap/index.html" []
              (fst (loader.loadSavedInterview samples.home samples.snapshot
                      "/snap/index.html" []))
              (VRef 9) ltac:(vm_compute; reflexivity))
    as (group & h1 & data & h2 & hx & m & _ & _ & _ & _ & _ & _ & _ & _ & S & _).
  destruct S as [U | (s & E & _)]; [left; exact U | right; exists s; exact E].
Defined.

Lemma decoded_answers_keep_their_ids_witness :
  exists items,
    as_array (fst (loader.resolveAnswerPaths samples.home [VRef 0; VRef 2]
                     "/snap" samples.answers))
      (VRef 7) = Some items
    /\ length items = 2.
Proof.
  destruct (decoded_answers_keep_their_ids samples.home [VRef 0; VRef 2]
              "/snap" samples.answers
              (fst (loader.resolveAnswerPaths samples.home [VRef 0; VRef 2]
                      "/snap" samples.answers))
              (VRef 7))
    as (_ & items & A & _ & F).
  - vm_compute. reflexivity.
  - repeat constructor; eexists _, _; split; reflexivity.
  - exists items. split; [exact A|].
    symmetry. apply (Forall2_length _ _ _ F).
Defined.
Lemma inline_questions_win_witness :
  lib.interview (examples.with_questions examples.plain_options (VRef 2))
    "sid" "tok" samples.home examples.no_files "/work"
    (fst examples.MINIMAL_QUESTIONS)
  = lib.interview (examples.with_questions examples.plain_options (VRef 2))
      "sid" "tok" samples.home (samples.config_only "{}") "/work"
      (fst examples.MINIMAL_QUESTIONS)
  /\ exists o,
       snd (lib.interview
              (examples.with_questions examples.plain_options (VRef 2))
              "sid" "tok" samples.home examples.no_files "/work"
              (fst examples.MINIMAL_QUESTIONS))
       = lib.Pending
           (lib.pending
              (examples.with_questions examples.plain_options (VRef 2)) o)
       /\ lib.srv_questions o = VRef 2
       /\ lib.srv_timeout o = 600%Z.
Proof.
  destruct (inline_questions_win
              (examples.with_questions examples.plain_options (VRef 2))
              "sid" "tok" samples.home "/work" examples.no_files
              (samples.config_only "{}")
              (fst examples.MINIMAL_QUESTIONS) eq_refl) as (E & _ & _ & P).
  split; [exact E|].
  eexists. rewrite (P (fst examples.MINIMAL_QUESTIONS) (VRef 2)).
  - split; [reflexivity|]. split; reflexivity.
  - vm_compute. reflexivity.
  - discriminate.
Defined.

Lemma browser_opened_only_as_asked_witness :
  (lib.handle_url examples.a_handle, lib.browser examples.signalled_options)
  ∈ opens (lib.steps examples.signalled_options "second"
             (lib.pending examples.signalled_options examples.server_options)
             ([] ++ lib.ServerStarted examples.a_handle [examples.own_session]
                 :: [lib.Submit [examples.answer_A]])).
Proof.
  apply (proj1 (proj2 (browser_opened_only_as_asked
                         examples.signalled_options "second"
                         examples.server_options
                         ([] ++ lib.ServerStarted examples.a_handle
                                  [examples.own_session]
                             :: [lib.Submit [examples.answer_A]])))
           [] examples.a_handle [examples.own_session]
           [lib.Submit [examples.answer_A]]).
  - reflexivity.
  - reflexivity.
  - discriminate.
  - repeat constructor.
Defined.

Lemma listener_closed_exactly_once_witness :
  closes (lib.steps examples.signalled_options "second"
            (lib.pending examples.signalled_options examples.server_options)
            ([] ++ lib.ServerStarted examples.a_handle [examples.own_session]
                :: [lib.Submit [examples.answer_A]; lib.Abort]))
  = [examples.a_handle].
Proof.
  destruct (listener_closed_exactly_once examples.signalled_options "second"
              examples.server_options []
              [lib.Submit [examples.answer_A]; lib.Abort]
              examples.a_handle [examples.own_session]
              ltac:(reflexivity) ltac:(reflexivity)) as (_ & _ & R).
  apply R. reflexivity.
Defined.

Lemma outcome_url_is_announced_url_witness :
  announced (lib.steps examples.signalled_options "second"
               (lib.pending examples.signalled_options examples.server_options)
               ([] ++ lib.ServerStarted examples.a_handle [examples.own_session]
                   :: [lib.Abort]))
  = [lib.handle_url examples.a_handle].
Proof.
  destruct (outcome_url_is_announced_url examples.signalled_options "second"
              examples.server_options [] [lib.Abort]
              examples.a_handle [examples.own_session]
              ltac:(reflexivity) ltac:(reflexivity)) as (_ & A).
  exact A.
Defined.

Lemma unreadable_config_is_empty_witness :
  snd (config.resolveConfig samples.timeout_env samples.home
         (samples.config_only "{ not json") samples.parseInt
         samples.no_config VUndefined [])
  = Ok {| config.timeout := VNumber 120 0; config.theme := VUndefined;
          config.mode := VUndefined; config.port := VUndefined;
          config.browser := VUndefined; config.snapshotDir := VUndefined;
          config.autoSave := VUndefined; config.toggleHotkey := VUndefined;
          config.lightPath := VUndefined; config.darkPath := VUndefined |}.
Proof.
  rewrite (unreadable_config_is_empty samples.timeout_env samples.home
             (samples.config_only "{ not json") samples.parseInt
             samples.no_config []).
  - reflexivity.
  - vm_compute. eexists. reflexivity.
Defined.


Lemma null_config_stops_the_program_witness :
  match snd (cli.main samples.no_env samples.home (samples.config_only "null")
               samples.parseInt "/pkg/package.json"
               (inr (samples.some_flags, ["questions.json"])) EmptyString [])
  with
  | cli.Proceed _ => False
  | cli.Crash e => exists m, e = TypeError m
  | cli.Exit code _ _ => code = 0%Z \/ code = 2%Z
  end.
Proof.
  apply (null_config_stops_the_program samples.no_env samples.home
           (samples.config_only "null") samples.parseInt "/pkg/package.json"
           "null" [] []).
  - reflexivity.
  - vm_compute. reflexivity.
Defined.

Lemma xdg_places_witness :
  path.isAbsolute (config.sessionsPath samples.timeout_env samples.home) = true.
Proof.
  apply (xdg_places samples.timeout_env samples.home).
  - reflexivity.
  - intros name v Hname. rewrite !elem_of_cons, elem_of_nil in Hname.
    destruct Hname as [-> | [-> | [-> | [-> | []]]]]; vm_compute;
      intros E; first [discriminate E | injection E as <-; left; reflexivity].
Defined.

Lemma main_calls_interview_checked_witness :
  (exists values positionals,
     @inr string _ (samples.some_flags, ["questions.json"])
     = inr (values, positionals)
     /\ cli.help values = false)
  /\ cli.main samples.timeout_env samples.home examples.no_files
       samples.parseInt "/pkg/package.json"
       (inr (cli.without_timeout samples.empty_timeout, ["questions.json"]))
       EmptyString []
     = ([CObj ∅], cli.Proceed samples.call_from_env).
Proof.
  split.
  - destruct (main_calls_interview_checked samples.no_env samples.home
                (samples.config_only "{}") samples.parseInt "/pkg/package.json"
                (inr (samples.some_flags, ["questions.json"])) EmptyString []
                (fst (cli.main samples.no_env samples.home
                        (samples.config_only "{}") samples.parseInt
                        "/pkg/package.json"
                        (inr (samples.some_flags, ["questions.json"]))
                        EmptyString []))
                {| cli.questions := VUndefined;
                   cli.questionsPath := Some "questions.json";
                   cli.call_timeout := VNumber 30 0;
                   cli.theme_name := VUndefined; cli.theme_mode := VUndefined;
                   cli.theme_lightPath := VUndefined;
                   cli.theme_darkPath := VUndefined;
                   cli.theme_toggleHotkey := VUndefined;
                   cli.call_port := VNumber 8080 0; cli.call_open := true;
                   cli.call_browser := VUndefined;
                   cli.call_snapshotDir := VUndefined;
                   cli.call_autoSave := VBool false;
                   cli.call_verbose := false |}
                ltac:(vm_compute; reflexivity))
      as (values & positionals & E & Hh & _).
    exists values, positionals. auto.
  - destruct (main_calls_interview_checked samples.timeout_env samples.home
                examples.no_files samples.parseInt "/pkg/package.json"
                (inr (samples.empty_timeout, ["questions.json"])) EmptyString []
                [CObj ∅] samples.call_from_env
                ltac:(vm_compute; reflexivity))
      as (values & positionals & E & _ & _ & _ & _ & _ & _ & _ & _ & _ & T & _).
    injection E as <- <-. apply T. reflexivity.
Defined.

Lemma main_exit_before_interview_witness :
  exists message,
    ["Error: --port must be between 1 and 65535" +:+ cli.nl]
    = ["Error: " +:+ message +:+ cli.nl].
Proof.
  destruct (main_exit_before_interview samples.no_env samples.home
              examples.no_files samples.parseInt "/pkg/package.json"
              (inr (samples.bad_port, ["q.json"])) EmptyString [] []
              2%Z [] ["Error: --port must be between 1 and 65535" +:+ cli.nl]
              ltac:(vm_compute; reflexivity))
    as [(E & _) | (_ & _ & M)]; [discriminate E | exact M].
Defined.
